(** * PVAnalysis: the Ulrich envelope solver, the mock PV pipeline and the
      fit-result table, embedded and verified.

    Number model.  The Python code computes with NumPy [float64] arrays.
    A sample is modelled by [F64.fl]: an exact real number, one of the two
    infinities, or NaN.  Arithmetic on finite values is exact (no rounding,
    no overflow, one unsigned zero); the non-finite values follow IEEE-754,
    so that a NaN produced by a domain error ([0/0], a negative base under a
    fractional power, [arccos] outside [-1,1]) is visible in the model exactly
    where NumPy produces one.  Arrays are lists, elementwise operations are
    maps.  Where rounding decides what the code returns (the root of
    [velrho] at radius 1), the computation is repeated on IEEE-754 binary64
    values in [Binary64]. *)

From Stdlib Require Import Ascii String DecimalString ZArith Reals Lra Lia Bool Arith List.
From Stdlib Require SpecFloat.
Import ListNotations.

Local Open Scope R_scope.

(* ================================================================== *)
(** ** Idealised float64 values *)
(* ================================================================== *)

Module F64.

Inductive fl : Type :=
| Fin (r : R)
| PInf
| NInf
| NaN.

Definition Rleb (a b : R) : bool := if Rle_dec a b then true else false.
Definition Rltb (a b : R) : bool := if Rlt_dec a b then true else false.

(** sign of a real as NumPy's [np.sign] gives it: -1, 0 or 1. *)
Definition Rsign (a : R) : R :=
  if Rlt_dec 0 a then 1 else if Rlt_dec a 0 then -1 else 0.

Definition is_nan (x : fl) : bool :=
  match x with NaN => true | _ => false end.

Definition fneg (x : fl) : fl :=
  match x with
  | Fin a => Fin (- a)
  | PInf => NInf
  | NInf => PInf
  | NaN => NaN
  end.

Definition fadd (x y : fl) : fl :=
  match x, y with
  | NaN, _ | _, NaN => NaN
  | Fin a, Fin b => Fin (a + b)
  | PInf, NInf | NInf, PInf => NaN
  | PInf, _ | _, PInf => PInf
  | NInf, _ | _, NInf => NInf
  end.

Definition fsub (x y : fl) : fl := fadd x (fneg y).

(** an infinity of the sign of [a]; [inf * 0] is NaN. *)
Definition inf_signed (a : R) : fl :=
  if Rlt_dec 0 a then PInf else if Rlt_dec a 0 then NInf else NaN.

Definition fmul (x y : fl) : fl :=
  match x, y with
  | NaN, _ | _, NaN => NaN
  | Fin a, Fin b => Fin (a * b)
  | PInf, Fin b | Fin b, PInf => inf_signed b
  | NInf, Fin b | Fin b, NInf => inf_signed (- b)
  | PInf, PInf | NInf, NInf => PInf
  | PInf, NInf | NInf, PInf => NInf
  end.

(** division; the divisor zero is the positive zero. *)
Definition fdiv (x y : fl) : fl :=
  match x, y with
  | NaN, _ | _, NaN => NaN
  | Fin a, Fin b => if Req_dec_T b 0 then inf_signed a else Fin (a / b)
  | Fin _, PInf | Fin _, NInf => Fin 0
  | PInf, Fin b => if Rlt_dec b 0 then NInf else PInf
  | NInf, Fin b => if Rlt_dec b 0 then PInf else NInf
  | PInf, PInf | PInf, NInf | NInf, PInf | NInf, NInf => NaN
  end.

Definition fabs (x : fl) : fl :=
  match x with
  | Fin a => Fin (Rabs a)
  | PInf | NInf => PInf
  | NaN => NaN
  end.

Definition fsign (x : fl) : fl :=
  match x with
  | Fin a => Fin (Rsign a)
  | PInf => Fin 1
  | NInf => Fin (-1)
  | NaN => NaN
  end.

Definition fsqrt (x : fl) : fl :=
  match x with
  | Fin a => if Rlt_dec a 0 then NaN else Fin (sqrt a)
  | PInf => PInf
  | NInf | NaN => NaN
  end.

Definition fexp (x : fl) : fl :=
  match x with
  | Fin a => Fin (exp a)
  | PInf => PInf
  | NInf => Fin 0
  | NaN => NaN
  end.

Definition fcos (x : fl) : fl :=
  match x with Fin a => Fin (cos a) | _ => NaN end.

Definition fsin (x : fl) : fl :=
  match x with Fin a => Fin (sin a) | _ => NaN end.

Definition farccos (x : fl) : fl :=
  match x with
  | Fin a => if Rle_dec (-1) a then if Rle_dec a 1 then Fin (acos a) else NaN
             else NaN
  | _ => NaN
  end.

(** [x ** y] for a fractional exponent [y] (every exponent the sources pass
    here is one of 1/3, 1/6, -1/2, -3/2): a negative base gives NaN, the base
    zero gives 0 for a positive exponent and an infinity for a negative
    one. *)
Definition fpow (x : fl) (y : R) : fl :=
  match x with
  | Fin a =>
      if Rlt_dec 0 a then Fin (Rpower a y)
      else if Rlt_dec a 0 then NaN
      else if Rlt_dec 0 y then Fin 0
      else if Rlt_dec y 0 then PInf
      else Fin 1
  | PInf | NInf =>
      if Rlt_dec 0 y then PInf else if Rlt_dec y 0 then Fin 0 else Fin 1
  | NaN => if Req_dec_T y 0 then Fin 1 else NaN
  end.

(** [x ** 2] and [x ** 3]: integer powers are products. *)
Definition fsquare (x : fl) : fl := fmul x x.
Definition fcube (x : fl) : fl := fmul x (fmul x x).

(** comparisons; any comparison with NaN is False. *)
Definition fle (x y : fl) : bool :=
  match x, y with
  | NaN, _ | _, NaN => false
  | Fin a, Fin b => Rleb a b
  | NInf, _ | _, PInf => true
  | _, _ => false
  end.

Definition flt (x y : fl) : bool :=
  match x, y with
  | NaN, _ | _, NaN => false
  | Fin a, Fin b => Rltb a b
  | NInf, NInf | PInf, PInf => false
  | NInf, _ | _, PInf => true
  | _, _ => false
  end.

Definition fge (x y : fl) : bool := fle y x.
Definition fgt (x y : fl) : bool := flt y x.

(** [np.maximum] / [np.minimum]: NaN propagates. *)
Definition fmaximum (x y : fl) : fl :=
  match x, y with
  | NaN, _ | _, NaN => NaN
  | _, _ => if fle x y then y else x
  end.

Definition fminimum (x y : fl) : fl :=
  match x, y with
  | NaN, _ | _, NaN => NaN
  | _, _ => if fle x y then x else y
  end.

(** [a.clip(lo, None)] and [a.clip(lo, hi)]. *)
Definition clip_lo (x : fl) (lo : R) : fl := fmaximum x (Fin lo).
Definition clip (x : fl) (lo hi : R) : fl := fminimum (fmaximum x (Fin lo)) (Fin hi).

(** [np.arctan2(y, x)] on reals: the angle of the point [(x, y)], in
    (-pi, pi].  With the one unsigned zero of this model the origin has the
    angle 0 (NumPy gives 0 or [+-pi] there, by the signs of the zeros). *)
Definition Ratan2 (y x : R) : R :=
  if Rlt_dec 0 x then atan (y / x)
  else if Rlt_dec x 0 then
    if Rle_dec 0 y then atan (y / x) + PI else atan (y / x) - PI
  else if Rlt_dec 0 y then PI / 2
  else if Rlt_dec y 0 then - (PI / 2)
  else 0.

Definition farctan2 (y x : fl) : fl :=
  match y, x with
  | NaN, _ | _, NaN => NaN
  | Fin a, Fin b => Fin (Ratan2 a b)
  | Fin _, PInf => Fin 0
  | Fin a, NInf => if Rle_dec 0 a then Fin PI else Fin (- PI)
  | PInf, Fin _ => Fin (PI / 2)
  | NInf, Fin _ => Fin (- (PI / 2))
  | PInf, PInf => Fin (PI / 4)
  | PInf, NInf => Fin (3 * PI / 4)
  | NInf, PInf => Fin (- (PI / 4))
  | NInf, NInf => Fin (- (3 * PI / 4))
  end.

Declare Scope fl_scope.
Delimit Scope fl_scope with fl.
Bind Scope fl_scope with fl.
Infix "+" := fadd : fl_scope.
Infix "-" := fsub : fl_scope.
Infix "*" := fmul : fl_scope.
Infix "/" := fdiv : fl_scope.
Notation "- x" := (fneg x) : fl_scope.

End F64.

Import F64.

(* ================================================================== *)
(** ** pvsilhouette/UlrichEnvelope.py *)
(* ================================================================== *)

Module UlrichEnvelope.

(** the clipping floor [1e-10]. *)
Definition eps : R := 1e-10.

(** The local [mu0] of [velrho], one sample at a time.  The array starts as
    NaN ([np.full_like(radius, np.nan)]) and is overwritten under three
    boolean masks, in the order of the source. *)
Definition velrho_branch_a (radius : fl) : bool := fge radius (Fin 1).

Definition velrho_pq (radius theta : fl) : fl * fl * fl :=
  let radius := clip_lo radius eps in
  let mu := clip (fabs (fcos theta)) eps 1 in
  let p := ((radius - Fin 1) / Fin 3)%fl in
  let q := (mu * radius / Fin 2)%fl in
  (radius, p, q).

Definition velrho_D (p q : fl) : fl :=
  let p_minus := clip_lo (- p)%fl 0 in
  (fsquare q - fcube p_minus)%fl.

Definition velrho_branch_b (radius D : fl) : bool :=
  flt radius (Fin 1) && fge D (Fin 0).

Definition velrho_branch_c (D : fl) : bool := flt D (Fin 0).

Definition velrho_mu0 (radius theta : fl) : fl :=
  let '(radius, p, q) := velrho_pq radius theta in
  let mu0 := NaN in
  (* r >= 1 (p >= 0, D >= 0) *)
  let mu0 :=
    if velrho_branch_a radius then
      let D := (fsquare q + fcube p)%fl in
      let qD := (q * fpow D (-1/2))%fl in
      (fpow D (1/6) * (fpow (Fin 1 + qD) (1/3) - fpow (Fin 1 - qD) (1/3)))%fl
    else mu0 in
  (* r < 1 (p < 0) and D >= 0 *)
  let p_minus := clip_lo (- p)%fl 0 in
  let D := velrho_D p q in
  let mu0 :=
    if velrho_branch_b radius D then
      (fpow (q + fsqrt D) (1/3) + fpow (q - fsqrt D) (1/3))%fl
    else mu0 in
  (* D < 0 (p < 0, r < 1) *)
  let mu0 :=
    if velrho_branch_c D then
      (Fin 2 * fsqrt p_minus
       * fcos (farccos (q * fpow p_minus (-3/2)) / Fin 3))%fl
    else mu0 in
  mu0.

(** one sample of [velrho]: (vr, vt, vp, rho). *)
Definition velrho1 (radius0 theta : fl) : fl * fl * fl * fl :=
  let radius := clip_lo radius0 eps in
  let parity := fsign (fcos theta) in
  let mu := clip (fabs (fcos theta)) eps 1 in
  let mu0 := velrho_mu0 radius0 theta in
  let mm := (mu / mu0)%fl in
  let vr := (- fsqrt (Fin 1 + mm) / fsqrt radius)%fl in
  let vt := (parity * fsqrt (Fin 1 + mm) * (mu0 - mu) / fsin theta
             / fsqrt radius)%fl in
  let vp := (fsqrt (Fin 1 - mm) / fsqrt radius)%fl in
  let rho := (fpow radius (-3/2) / fsqrt (Fin 1 + mm)
              / (Fin 2 / radius * fsquare mu0 + mm))%fl in
  (vr, vt, vp, rho).

(** what [velrho] derives from the root (the lines after the three
    branches), for a given entry [mu0] of the root array: (vr, vt, vp,
    rho). *)
Definition velrho_of_root (radius0 theta mu0 : fl) : fl * fl * fl * fl :=
  let radius := clip_lo radius0 eps in
  let parity := fsign (fcos theta) in
  let mu := clip (fabs (fcos theta)) eps 1 in
  let mm := (mu / mu0)%fl in
  let vr := (- fsqrt (Fin 1 + mm) / fsqrt radius)%fl in
  let vt := (parity * fsqrt (Fin 1 + mm) * (mu0 - mu) / fsin theta
             / fsqrt radius)%fl in
  let vp := (fsqrt (Fin 1 - mm) / fsqrt radius)%fl in
  let rho := (fpow radius (-3/2) / fsqrt (Fin 1 + mm)
              / (Fin 2 / radius * fsquare mu0 + mm))%fl in
  (vr, vt, vp, rho).

(** [velrho] on arrays of equal length: four arrays. *)
Definition velrho (radius theta : list fl)
  : list fl * list fl * list fl * list fl :=
  let s := map (fun rt => velrho1 (fst rt) (snd rt)) (combine radius theta) in
  (map (fun v => fst (fst (fst v))) s, map (fun v => snd (fst (fst v))) s,
   map (fun v => snd (fst v)) s, map snd s).

(** one sample of [kepvel]: (vr, vt, vp). *)
Definition kepvel1 (radius theta : fl) : fl * fl * fl :=
  let r := (clip_lo radius eps * fsin theta)%fl in
  let vr := Fin 0 in
  let vt := Fin 0 in
  let vp := (Fin 1 / fsqrt r)%fl in
  (vr, vt, vp).

Definition kepvel (radius theta : list fl) : list fl * list fl * list fl :=
  let s := map (fun rt => kepvel1 (fst rt) (snd rt)) (combine radius theta) in
  (map (fun v => fst (fst v)) s, map (fun v => snd (fst v)) s, map snd s).

(** a 3-vector [np.array([a, b, c])]. *)
Definition vec3 : Type := (fl * fl * fl)%type.

Definition dot3 (u v : vec3) : fl :=
  let '(u1, u2, u3) := u in
  let '(v1, v2, v3) := v in
  (u1 * v1 + u2 * v2 + u3 * v3)%fl.

Definition norm3 (u : vec3) : fl := fsqrt (dot3 u u).

(** [rotbase(t, p)]: the triad (er, et, ep). *)
Definition rotbase (t p : fl) : vec3 * vec3 * vec3 :=
  let er := ((fsin t * fsin p)%fl, (- fsin t * fcos p)%fl, fcos t) in
  let et := ((fcos t * fsin p)%fl, (- fcos t * fcos p)%fl, (- fsin t)%fl) in
  let ep := (fcos p, fsin p, Fin 0) in
  (er, et, ep).

(** one sample of [xyz2rtp]: (r, t, p). *)
Definition xyz2rtp1 (x y z : fl) : fl * fl * fl :=
  let r := clip_lo (fsqrt (fsquare x + fsquare y + fsquare z)%fl) eps in
  let t := farccos (z / r)%fl in
  let p := farctan2 x (- y)%fl in
  (r, t, p).

(** the samples of three arrays of one length, side by side. *)
Definition zip3 {A : Type} (a b c : list A) : list (A * A * A) :=
  combine (combine a b) c.

(** [xyz2rtp] on arrays of equal length: three arrays. *)
Definition xyz2rtp (x y z : list fl) : list fl * list fl * list fl :=
  let s := map (fun v => let '(a, b, c) := v in xyz2rtp1 a b c) (zip3 x y z) in
  (map (fun v => fst (fst v)) s, map (fun v => snd (fst v)) s, map snd s).

(** one sample of [XYZ2xyz]: [X * ep + Y * (-et) + Z * er], the triad
    being [rotbase(incl, phi)]. *)
Definition XYZ2xyz1 (incl phi X Y Z : fl) : vec3 :=
  let '(er, et, ep) := rotbase incl phi in
  let '(er1, er2, er3) := er in
  let '(et1, et2, et3) := et in
  let '(ep1, ep2, ep3) := ep in
  ((ep1 * X + (- et1) * Y + er1 * Z)%fl,
   (ep2 * X + (- et2) * Y + er2 * Z)%fl,
   (ep3 * X + (- et3) * Y + er3 * Z)%fl).

(** [XYZ2xyz] on the flattened arrays [X.ravel()], [Y.ravel()],
    [Z.ravel()] of one length (the final [np.reshape] restores the shape
    of [X]). *)
Definition XYZ2xyz (incl phi : fl) (X Y Z : list fl)
  : list fl * list fl * list fl :=
  let s := map (fun v => let '(a, b, c) := v in XYZ2xyz1 incl phi a b c)
               (zip3 X Y Z) in
  (map (fun v => fst (fst v)) s, map (fun v => snd (fst v)) s, map snd s).

(** one sample of [losvel]: the velocity of [velrho] (or of [kepvel] when
    [kepler] is set) projected on [elos]. *)
Definition losvel1 (elos : vec3) (r t p : fl) (kepler : bool) : fl :=
  let '(vr, vt, vp) :=
    if kepler then kepvel1 r t
    else let '(vr, vt, vp, _) := velrho1 r t in (vr, vt, vp) in
  let '(er, et, ep) := rotbase t p in
  (- vr * dot3 er elos - vt * dot3 et elos - vp * dot3 ep elos)%fl.

(** [losvel] on the flattened arrays [r.ravel()], [t.ravel()],
    [p.ravel()] of one length. *)
Definition losvel (elos : vec3) (r t p : list fl) (kepler : bool) : list fl :=
  map (fun v => let '(a, b, c) := v in losvel1 elos a b c kepler) (zip3 r t p).

End UlrichEnvelope.

(* ================================================================== *)
(** ** [velrho] on finite samples, in real numbers *)
(* ================================================================== *)

Module UlrichReal.
Import UlrichEnvelope.

(** the value of [fpow (Fin x) (1/3)] on a base that is not negative. *)
Definition cbrt0 (x : R) : R := if Rlt_dec 0 x then Rpower x (1/3) else 0.

(** Case A in real numbers: [p >= 0], [q > 0]. *)
Definition mu0_a (p q : R) : R :=
  let D := q * q + p * (p * p) in
  let qD := q * Rpower D (-1/2) in
  Rpower D (1/6) * (cbrt0 (1 + qD) - cbrt0 (1 - qD)).

(** Case B in real numbers: [p < 0], [q > 0], [q^2 - (-p)^3 >= 0]. *)
Definition mu0_b (p q : R) : R :=
  let D := q * q - (- p) * ((- p) * (- p)) in
  cbrt0 (q + sqrt D) + cbrt0 (q - sqrt D).

(** Case C in real numbers: [p < 0], [q > 0], [q^2 - (-p)^3 < 0]. *)
Definition mu0_c (p q : R) : R :=
  2 * sqrt (- p) * cos (acos (q * Rpower (- p) (-3/2)) / 3).

(** the clipped radius and the clipped [|cos theta|] of a finite sample,
    and the coefficients the code derives from them. *)
Definition clip_radius (radius : R) : R := Rmax radius eps.
Definition clip_mu (theta : R) : R := Rmin (Rmax (Rabs (cos theta)) eps) 1.
Definition coef_p (radius : R) : R := (clip_radius radius - 1) / 3.
Definition coef_q (radius theta : R) : R := clip_mu theta * clip_radius radius / 2.
Definition discr (radius theta : R) : R :=
  let p_minus := Rmax (- coef_p radius) 0 in
  coef_q radius theta * coef_q radius theta - p_minus * (p_minus * p_minus).


End UlrichReal.

(* ================================================================== *)
(** ** Python results and NumPy array helpers *)
(* ================================================================== *)

Module Py.

Inductive exn : Type :=
| IndexError
| TypeError
| ValueError
| AttributeError
| OSError.

(** the outcome of a call: a returned value or a raised exception. *)
Inductive result (A : Type) : Type :=
| Ok (a : A)
| Raise (e : exn).

Arguments Ok {A} a.
Arguments Raise {A} e.

Definition bind {A B : Type} (r : result A) (k : A -> result B) : result B :=
  match r with
  | Ok a => k a
  | Raise e => Raise e
  end.

End Py.

Module PyX.

(** The built-in exception classes met by [makegrid] and [sampling] besides
    those of [Py.exn]. *)
Inductive exn : Type :=
| Std (e : Py.exn)
| OverflowError
| ZeroDivisionError.

Inductive outcome (A : Type) : Type :=
| Returns (a : A)
| Raises (e : exn).

Arguments Returns {A} a.
Arguments Raises {A} e.

Definition bindx {A B : Type} (r : outcome A) (k : A -> outcome B) : outcome B :=
  match r with
  | Returns a => k a
  | Raises e => Raises e
  end.

(** truncation toward zero. *)
Definition int_trunc (a : R) : Z :=
  if Rle_dec 0 a then Int_part a else (- Int_part (- a))%Z.

(** the built-in [int] on a float: nan raises [ValueError], an infinity
    raises [OverflowError]. *)
Definition py_int (x : fl) : outcome Z :=
  match x with
  | Fin a => Returns (int_trunc a)
  | NaN => Raises (Std Py.ValueError)
  | PInf | NInf => Raises OverflowError
  end.

(** [a / b] on Python floats: a zero divisor raises
    [ZeroDivisionError]. *)
Definition py_truediv (a b : fl) : outcome fl :=
  match b with
  | Fin r => if Req_dec_T r 0 then Raises ZeroDivisionError else Returns (a / b)%fl
  | _ => Returns (a / b)%fl
  end.

(** [np.arange(a, b, 1)] on integers. *)
Definition arange (a b : Z) : list Z :=
  map (fun k => (a + Z.of_nat k)%Z) (seq 0 (Z.to_nat (b - a))).

End PyX.

Module Np.

Definition array1 : Type := list fl.
Definition array2 : Type := list (list fl).
Definition array3 : Type := list (list (list fl)).

(** [np.sum] of a one-dimensional array. *)
Definition fsum (l : array1) : fl := fold_right fadd (Fin 0) l.

Definition flatten2 (m : array2) : array1 := concat m.
Definition flatten3 (c : array3) : array1 := concat (map flatten2 c).

Definition sum2 (m : array2) : fl := fsum (flatten2 m).
Definition sum3 (c : array3) : fl := fsum (flatten3 c).

Definition map2d (f : fl -> fl) (m : array2) : array2 := map (map f) m.
Definition map3d (f : fl -> fl) (c : array3) : array3 := map (map2d f) c.

(** [np.nanmax] of the elements: NaN entries are ignored; with no entry
    that is not NaN the result is NaN. *)
Definition nanmax (l : array1) : fl :=
  fold_right
    (fun x acc =>
       match x, acc with
       | NaN, _ => acc
       | _, NaN => x
       | _, _ => if fle acc x then x else acc
       end)
    NaN l.

(** [np.nanmean] of the elements. *)
Definition nanmean (l : array1) : fl :=
  let kept := filter (fun x => negb (is_nan x)) l in
  match kept with
  | [] => NaN
  | _ => (fsum kept / Fin (INR (length kept)))%fl
  end.

(** one output sample of a direct convolution: the products of the input
    samples that exist ([Some]) with their kernel weights; a kernel weight
    whose partner lies outside the input contributes nothing. *)
Definition wsum (terms : list (option fl * fl)) : fl :=
  fsum (map (fun t => match fst t with
                      | Some x => (x * snd t)%fl
                      | None => Fin 0
                      end) terms).

(** the input sample at index [m - k], when [k <= m] and it exists. *)
Definition tap {A : Type} (a : list A) (m k : nat) : option A :=
  if (k <=? m)%nat then nth_error a (m - k) else None.

(** [f] applied to every index and entry of a list. *)
Definition mapi {A B : Type} (f : nat -> A -> B) (l : list A) : list B :=
  map (fun ix => f (fst ix) (snd ix)) (combine (seq 0 (length l)) l).

(** [scipy.signal.convolve(a, g, mode='same')] in one dimension: sample [n]
    of the output is sample [n + (len g - 1) // 2] of the full
    convolution. *)
Definition conv_same_1d (a g : array1) : array1 :=
  let off := ((length g - 1) / 2)%nat in
  mapi (fun n _ => wsum (mapi (fun k w => (tap a (n + off) k, w)) g)) a.

(** the samples [c[0][i][j], c[1][i][j], ...] along the first axis. *)
Definition column (c : array3) (i j : nat) : array1 :=
  map (fun m => nth j (nth i m []) NaN) c.

(** [convolve(c, g[:, np.newaxis, np.newaxis], mode='same')]: the kernel
    has extent 1 in the two trailing axes, so every column [(i, j)] is
    convolved along the first axis on its own. *)
Definition conv_same_axis0 (c : array3) (g : array1) : array3 :=
  mapi (fun n m =>
          mapi (fun i row =>
                  mapi (fun j _ => nth n (conv_same_1d (column c i j) g) NaN) row)
               m)
       c.

(** [scipy.signal.convolve(m, g, mode='same')] in two dimensions. *)
Definition conv_same_2d (m g : array2) : array2 :=
  let offx := ((length g - 1) / 2)%nat in
  let offy := ((length (nth 0 g []) - 1) / 2)%nat in
  mapi (fun i row =>
          mapi (fun j _ =>
                  wsum (concat
                          (mapi (fun a grow =>
                                   mapi (fun b w =>
                                           (match tap m (i + offx) a with
                                            | Some r => tap r (j + offy) b
                                            | None => None
                                            end, w))
                                        grow)
                                g)))
               row)
       m.

(** [convolve(c, g[np.newaxis, :, :], mode='same')]: every slice along the
    first axis is convolved in the two trailing axes. *)
Definition conv_same_axes12 (c : array3) (g : array2) : array3 :=
  map (fun m => conv_same_2d m g) c.

(** [a / np.sum(a)] in one and two dimensions. *)
Definition normalize1 (a : array1) : array1 :=
  let s := fsum a in map (fun x => (x / s)%fl) a.

Definition normalize2 (m : array2) : array2 :=
  let s := sum2 m in map2d (fun x => (x / s)%fl) m.

End Np.

(* ================================================================== *)
(** ** pvfitting/mockpvd.py *)
(* ================================================================== *)

Module Mockpvd.
Import Py Np.

(** The module-level caches of [pvfitting.precalculation] that
    [generate_pvd] reads and writes: the velocity-bin edges and the two
    Gaussian kernels.  [None] is Python's [None]. *)
Record precalc : Type := {
  vedge : option array1;
  gauss_v : option array1;
  gauss_xy : option array2
}.

(** Modelled from the spec: the state of the caches before the first call;
    [pvfitting/precalculation.py] is not part of the sources, the code
    tests each cache with [is None]. *)
Definition precalc_init : precalc :=
  {| vedge := None; gauss_v := None; gauss_xy := None |}.

Definition set_vedge (st : precalc) (e : array1) : precalc :=
  {| vedge := Some e; gauss_v := gauss_v st; gauss_xy := gauss_xy st |}.
Definition set_gauss_v (st : precalc) (g : array1) : precalc :=
  {| vedge := vedge st; gauss_v := Some g; gauss_xy := gauss_xy st |}.
Definition set_gauss_xy (st : precalc) (g : array2) : precalc :=
  {| vedge := vedge st; gauss_v := gauss_v st; gauss_xy := Some g |}.

(** [rot(x, y, pa)] on one sample. *)
Definition rot (x y pa : fl) : fl * fl :=
  let s := (x * fcos pa - y * fsin pa)%fl in
  let t := (x * fsin pa + y * fcos pa)%fl in
  (s, t).

(** [np.radians]. *)
Definition radians (x : fl) : fl := (x * Fin (PI / 180))%fl.

(** [np.hstack([v - delv * 0.5, v[-1] + 0.5 * delv])]. *)
Definition bin_edges (v : array1) (delv : fl) : array1 :=
  map (fun x => (x - delv * Fin 0.5)%fl) v
  ++ [(last v NaN + Fin 0.5 * delv)%fl].

(** the spectral kernel:
    [np.exp(-(v - v[nv//2 - 1 + nv%2])**2. / linewidth**2.)], divided by
    its sum.  The index is computed as [nv/2 + nv mod 2 - 1], which is the
    Python index for every [nv >= 1]. *)
Definition spectral_kernel (v : array1) (linewidth : fl) : array1 :=
  let nv := length v in
  let vc := nth (nv / 2 + nv mod 2 - 1)%nat v NaN in
  normalize1
    (map (fun vk => fexp (- fsquare (vk - vc) / fsquare linewidth)%fl) v).

(** the beam kernel on the grid [np.meshgrid(x, y, indexing='ij')] rotated
    by [np.radians(bpa - pa)], divided by its sum. *)
Definition beam_kernel (x y : array1) (bmaj bmin bpa pa : fl) : array2 :=
  let ang := radians (bpa - pa)%fl in
  normalize2
    (map (fun xi =>
            map (fun yj =>
                   let '(xb, yb) := rot xi yj ang in
                   fexp (- Fin 0.5 * fsquare (yb / (bmin / Fin 2.35))
                         - Fin 0.5 * fsquare (xb / (bmaj / Fin 2.35)))%fl)
                y)
         x).

(** the spectral-convolution step of [generate_pvd] (taken when
    [linewidth] is not [None]): the kernel is built and cached only when the
    cache is empty. *)
Definition spectral_step (st : precalc) (v : array1) (linewidth : fl)
    (tau_v : array3) : array3 * precalc :=
  match gauss_v st with
  | None =>
      let g := spectral_kernel v linewidth in
      (conv_same_axis0 tau_v g, set_gauss_v st g)
  | Some g => (conv_same_axis0 tau_v g, st)
  end.

(** [1. - np.exp(- tau_v / np.nanmax(tau_v) * taumax)]; [np.nanmax] of an
    array without elements raises [ValueError]. *)
Definition intensity (tau_v : array3) (taumax : fl) : result array3 :=
  match flatten3 tau_v with
  | [] => Raise ValueError
  | _ :: _ =>
      let m := nanmax (flatten3 tau_v) in
      Ok (map3d (fun t => (Fin 1 - fexp (- t / m * taumax))%fl) tau_v)
  end.

(** [I_cube[:, ny//2, :]] after [np.transpose(I_cube, (0, 2, 1))]: of every
    slice along the first axis, entry [j] of every row. *)
Fixpoint pick_all (j : nat) (rows : array2) : option array1 :=
  match rows with
  | [] => Some []
  | r :: rest =>
      match nth_error r j, pick_all j rest with
      | Some e, Some es => Some (e :: es)
      | _, _ => None
      end
  end.

Fixpoint slice_y (j : nat) (c : array3) : result array2 :=
  match c with
  | [] => Ok []
  | m :: rest =>
      match pick_all j m with
      | Some r => bind (slice_y j rest) (fun rs => Ok (r :: rs))
      | None => Raise IndexError
      end
  end.

(** [np.nanmean(np.array([I_pv[:, i::n] for i in range(n)]), axis=0)] on one
    row: the mean of every block of [n] neighbours.  A row whose length is
    not a multiple of [n] gives slices of unequal length, which [np.array]
    refuses. *)
Definition block_means (n : nat) (row : array1) : result array1 :=
  if (length row mod n =? 0)%nat then
    Ok (map (fun j => nanmean (map (fun i => nth (j * n + i) row NaN) (seq 0 n)))
            (seq 0 (length row / n)))
  else Raise ValueError.

Fixpoint subgrid_mean (n : nat) (I_pv : array2) : result array2 :=
  match I_pv with
  | [] => Ok []
  | row :: rest =>
      bind (block_means n row) (fun r =>
      bind (subgrid_mean n rest) (fun rs => Ok (r :: rs)))
  end.

(** [np.linspace(start, stop, num)]: [num] samples from [start] in steps
    of [(stop - start) / (num - 1)], the last one set to [stop]. *)
Definition linspace (start stop : fl) (num : nat) : array1 :=
  match num with
  | 0 => []
  | 1 => [start]
  | _ =>
      let step := ((stop - start) / Fin (INR (num - 1)))%fl in
      map (fun i => (Fin (INR i) * step + start)%fl) (seq 0 (num - 1)) ++ [stop]
  end.

(** the body of the loop of [MockPVD.subgrid] for one axis: the centres of
    the [nx * nsubgrid] sub-pixels. *)
Definition subgrid1 (x : array1) (nsubgrid : nat) : result array1 :=
  match x with
  | x0 :: x1 :: _ =>
      let nx := length x in
      let dx := (x1 - x0)%fl in
      let x_e := linspace (x0 - Fin 0.5 * dx)%fl (last x NaN + Fin 0.5 * dx)%fl
                          (nx * nsubgrid + 1) in
      Ok (map (fun ab => (Fin 0.5 * (fst ab + snd ab))%fl)
              (combine (removelast x_e) (tl x_e)))
  | _ => Raise IndexError
  end.

(** [MockPVD.subgrid(axes, nsubgrid)]. *)
Fixpoint subgrid (axes : list array1) (nsubgrid : nat) : result (list array1) :=
  match axes with
  | [] => Ok []
  | x :: rest =>
      bind (subgrid1 x nsubgrid) (fun x' =>
      bind (subgrid rest nsubgrid) (fun out => Ok (x' :: out)))
  end.

(** the [y] axis that [MockPVD.makegrid] builds from [self.x] and
    [self.beam] before it calls [Nested3DGrid]: with a beam, the integers
    from [-int(bmaj / dx * 3. / 2.35) - 1] to [int(bmaj / dx * 3. / 2.35) + 1]
    times [dx]; without one, [[-dx, 0., dx]]. *)
Definition makegrid_y (x : array1) (beam : option (fl * fl * fl))
  : PyX.outcome array1 :=
  match x with
  | x0 :: x1 :: _ =>
      let dx := (x1 - x0)%fl in
      match beam with
      | Some (bmaj, _, _) =>
          PyX.bindx (PyX.py_int (bmaj / dx * Fin 3 / Fin 2.35)%fl) (fun k1 =>
          PyX.bindx (PyX.py_int (bmaj / dx * Fin 3 / Fin 2.35)%fl) (fun k2 =>
          PyX.Returns
            (map (fun k => (Fin (IZR k) * dx)%fl)
                 (PyX.arange (- k1 - 1) (k2 + 2)))))
      | None => PyX.Returns [(- dx)%fl; Fin 0; dx]
      end
  | _ => PyX.Raises (PyX.Std IndexError)
  end.

Section WithGrid.

(** The nested grid of [pvfitting/grid.py] and the two collaborators of
    [generate_pvd] that live outside the sources are parameters here:
    [Nested3DGrid], its attribute [ny], its method [integrate_along], and
    [precalculation.rho2rhocube], which reads the cached bin edges. *)
Variable Nested3DGrid : Type.
Variable grid_ny : Nested3DGrid -> nat.
Variable integrate_along : Nested3DGrid -> array2 -> array3.
Variable rho2rhocube : precalc -> array1 -> array1 -> array2.

(** the attributes of a [MockPVD] object that the methods below read;
    [self.y] exists only when the object was built with a beam. *)
Record MockPVD : Type := {
  self_x : array1;
  self_y : option array1;
  self_v : array1;
  nsubgrid : nat;
  self_beam : option (fl * fl * fl);
  grid : Nested3DGrid
}.

(** the beam-convolution step of [generate_pvd] (taken when [beam] is not
    [None]). *)
Definition beam_step (self : MockPVD) (st : precalc) (beam : fl * fl * fl)
    (pa : fl) (I_cube : array3) : result array3 * precalc :=
  match gauss_xy st with
  | Some g => (Ok (conv_same_axes12 I_cube g), st)
  | None =>
      let '(bmaj, bmin, bpa) := beam in
      match self_y self with
      | None => (Raise AttributeError, st)
      | Some y =>
          let g := beam_kernel (self_x self) y bmaj bmin bpa pa in
          (Ok (conv_same_axes12 I_cube g), set_gauss_xy st g)
      end
  end.

(** [MockPVD.generate_pvd]: the returned PV array (or the exception) and
    the caches after the call. *)
Definition generate_pvd (self : MockPVD) (st : precalc)
    (rho vlos : array1) (taumax : fl) (beam : option (fl * fl * fl))
    (linewidth : option fl) (pa : fl) : result array2 * precalc :=
  let ny := grid_ny (grid self) in
  let v := self_v self in
  match v with
  | v0 :: v1 :: _ =>
      let delv := (v1 - v0)%fl in
      let st :=
        match vedge st with
        | None => set_vedge st (bin_edges v delv)
        | Some _ => st
        end in
      (* to tau cube *)
      let rho_v := rho2rhocube st vlos rho in
      let tau_v := integrate_along (grid self) rho_v in
      (* convolution along the spectral direction *)
      let '(tau_v, st) :=
        match linewidth with
        | Some lw => spectral_step st v lw tau_v
        | None => (tau_v, st)
        end in
      match intensity tau_v taumax with
      | Raise e => (Raise e, st)
      | Ok I_cube =>
          (* beam convolution *)
          let '(I_cube, st) :=
            match beam with
            | Some b => beam_step self st b pa I_cube
            | None => (Ok I_cube, st)
            end in
          (bind I_cube (fun I_cube =>
           bind (slice_y (ny / 2) I_cube) (fun I_pv =>
           if (1 <? nsubgrid self)%nat then subgrid_mean (nsubgrid self) I_pv
           else Ok I_pv)),
           st)
      end
  | _ => (Raise IndexError, st)
  end.

(** what [generate_mockpvd] hands back to its caller: the integer of
    [return 0], one PV array, or the list of PV arrays of [axis='both']. *)
Inductive pyvalue : Type :=
| PyInt (z : Z)
| PyArray (a : array2)
| PyList (l : list array2).

(** the [pa] argument: a float or a list of floats. *)
Inductive pa_arg : Type :=
| PaFloat (pa : fl)
| PaList (pas : list fl).

(** [self.build], whose collaborators ([XYZ2rtp], [precalculation.update],
    [precalculation.get_rho_vlos]) live outside the sources: the density
    and velocity arrays of one cut axis, and the caches after the call.
    Its arguments: Mstar, Rc, incl, alphainfall, frho, rin, rout, axis,
    normalize. *)
Variable build :
  MockPVD -> precalc -> fl -> fl -> fl -> fl -> fl -> fl -> option fl ->
  string -> bool -> result (array1 * array1) * precalc.

Definition axis_error_message : string :=
  ("ERROR" ++ String (ascii_of_nat 9) EmptyString
   ++ "generate_mockpvd: axis input must be 'major', 'minor' or 'both'.")%string.

(** the loop [for _rho, _vlos, _pa in zip(rho, vlos, pa)] of the
    [axis='both'] path. *)
Fixpoint pvd_loop (self : MockPVD) (st : precalc)
    (items : list (array1 * array1 * fl)) (taumax : fl)
    (linewidth : option fl) : result (list array2) * precalc :=
  match items with
  | [] => (Ok [], st)
  | (rho, vlos, pa) :: rest =>
      match generate_pvd self st rho vlos taumax (self_beam self) linewidth pa with
      | (Ok I_pv, st) =>
          match pvd_loop self st rest taumax linewidth with
          | (Ok out, st) => (Ok (I_pv :: out), st)
          | (Raise e, st) => (Raise e, st)
          end
      | (Raise e, st) => (Raise e, st)
      end
  end.

(** [MockPVD.generate_mockpvd]: the lines printed, the returned value (or
    the exception) and the caches after the call. *)
Definition generate_mockpvd (self : MockPVD) (st : precalc)
    (Mstar Rc alphainfall taumax frho incl : fl) (pa : pa_arg)
    (linewidth : option fl) (rin : fl) (rout : option fl) (axis : string)
  : list string * result pyvalue * precalc :=
  (* check *)
  if negb (existsb (String.eqb axis) ["major"; "minor"; "both"]%string) then
    ([axis_error_message], Ok (PyInt 0), st)
  else if String.eqb axis "both" then
    (* build model along major and minor axes *)
    match build self st Mstar Rc incl alphainfall frho rin rout "major" false with
    | (Raise e, st) => ([], Raise e, st)
    | (Ok (rho_maj, vlos_maj), st) =>
        match build self st Mstar Rc incl alphainfall frho rin rout "minor" false with
        | (Raise e, st) => ([], Raise e, st)
        | (Ok (rho_min, vlos_min), st) =>
            (* density normalization *)
            let rho_max := nanmax [nanmax rho_maj; nanmax rho_min] in
            let rho_maj := map (fun x => (x / rho_max)%fl) rho_maj in
            let rho_min := map (fun x => (x / rho_max)%fl) rho_min in
            (* get PV diagrams *)
            match pa with
            | PaFloat _ => ([], Raise TypeError, st)
            | PaList pas =>
                let items :=
                  combine (combine [rho_maj; rho_min] [vlos_maj; vlos_min]) pas in
                match pvd_loop self st items taumax linewidth with
                | (Ok out, st) => ([], Ok (PyList out), st)
                | (Raise e, st) => ([], Raise e, st)
                end
            end
        end
    end
  else
    match build self st Mstar Rc incl alphainfall frho rin rout axis true with
    | (Raise e, st) => ([], Raise e, st)
    | (Ok (rho, vlos), st) =>
        match generate_pvd self st rho vlos taumax (self_beam self) linewidth (Fin 0) with
        | (Ok I_pv, st) => ([], Ok (PyArray I_pv), st)
        | (Raise e, st) => ([], Raise e, st)
        end
    end.

End WithGrid.

End Mockpvd.

(* ================================================================== *)
(** ** pvfitting/grid.py and pvfitting/precalculation.py (not part of the
       sources) *)
(* ================================================================== *)

Module NestedGrid.
Import Np.

(** Modelled from the spec: a nested level of [pvfitting/grid.py], which is
    not part of the sources.  A level below the coarsest one is an
    axis-aligned box inside its parent: it starts at the parent cell
    [(off_x, off_y, off_z)], covers [(ext_x, ext_y, ext_z)] parent cells, and
    samples every parent cell [nsub] times along each axis (spacing = parent
    spacing / [nsub]). *)
Record level : Type := {
  nsub : nat;
  off_x : nat; off_y : nat; off_z : nat;
  ext_x : nat; ext_y : nat; ext_z : nat
}.

(** Modelled from the spec: the nested grid of [pvfitting/grid.py].  Level
    0 has [nx * ny * nz] cells of spacing [dz] along the line of sight;
    [levels] lists the nested levels from the coarsest to the finest, each
    inside the one before it. *)
Record Nested3DGrid : Type := {
  nx : nat; ny : nat; nz : nat;
  dz : fl;
  levels : list level
}.

(** Modelled from the spec: the number of samples of a grid whose coarsest
    level has [n1 * n2 * n3] cells, all levels together. *)
Fixpoint nsamples (n1 n2 n3 : nat) (lvls : list level) : nat :=
  match lvls with
  | [] => n1 * n2 * n3
  | lv :: rest =>
      n1 * n2 * n3
      + nsamples (nsub lv * ext_x lv) (nsub lv * ext_y lv) (nsub lv * ext_z lv) rest
  end.

(** Modelled from the spec: sample [(i, j, k)] of a flattened level of
    [n2 * n3] cells per x-index (row-major order). *)
Definition sample (flat : array1) (n2 n3 i j k : nat) : fl :=
  nth ((i * n2 + j) * n3 + k) flat NaN.

Definition tabulate2 (n1 n2 : nat) (f : nat -> nat -> fl) : array2 :=
  map (fun i => map (fun j => f i j) (seq 0 n2)) (seq 0 n1).

Definition in_range (lo len i : nat) : bool :=
  ((lo <=? i) && (i <? lo + len))%nat.

(** Modelled from the spec: the mean of the [n * n] entries of [m] that
    cover the parent cell [(i, j)] (block-averaging). *)
Definition block_mean (n : nat) (m : array2) (i j : nat) : fl :=
  (fsum (concat (map (fun a =>
                        map (fun b => nth (n * j + b) (nth (n * i + a) m []) NaN)
                            (seq 0 n))
                     (seq 0 n)))
   / Fin (INR (n * n)))%fl.

(** Modelled from the spec: the line integral along z of one field given at
    every level ([integrateAlong]).  The flattened field holds the samples
    of the coarsest level first, every level in row-major order.  Within a
    nested box the integral over the part of the line inside the box comes
    from the nested level's own sampling (brought to the parent's transverse
    resolution by block-averaging); the parts of the line in front of the
    box and behind it come from the parent level.  The levels are composited from the finest to the coarsest. *)
Fixpoint integrate_level (n1 n2 n3 : nat) (h : fl) (lvls : list level)
    (flat : array1) : array2 :=
  let own := firstn (n1 * n2 * n3) flat in
  match lvls with
  | [] =>
      tabulate2 n1 n2 (fun i j =>
        (fsum (map (sample own n2 n3 i j) (seq 0 n3)) * h)%fl)
  | lv :: rest =>
      let n := nsub lv in
      let child :=
        integrate_level (n * ext_x lv) (n * ext_y lv) (n * ext_z lv)
          (h / Fin (INR n))%fl rest (skipn (n1 * n2 * n3) flat) in
      tabulate2 n1 n2 (fun i j =>
        if in_range (off_x lv) (ext_x lv) i && in_range (off_y lv) (ext_y lv) j
        then
          (fsum (map (sample own n2 n3 i j)
                     (seq 0 (off_z lv)
                      ++ seq (off_z lv + ext_z lv)
                             (n3 - (off_z lv + ext_z lv)))) * h
           + block_mean n child (i - off_x lv) (j - off_y lv))%fl
        else
          (fsum (map (sample own n2 n3 i j) (seq 0 n3)) * h)%fl)
  end.

(** Modelled from the spec: the line integral of one field on a grid. *)
Definition integrate_along1 (g : Nested3DGrid) (field : array1) : array2 :=
  integrate_level (nx g) (ny g) (nz g) (dz g) (levels g) field.

(** Modelled from the spec: [integrate_along(d, axis='z')] on an array
    with a leading velocity axis, channel by channel. *)
Definition integrate_along (g : Nested3DGrid) (d : array2) : array3 :=
  map (integrate_along1 g) d.

(** Modelled from the spec: every nested box lies inside its parent and is
    refined by a positive factor. *)
Fixpoint nested_ok (n1 n2 n3 : nat) (lvls : list level) : Prop :=
  match lvls with
  | [] => True
  | lv :: rest =>
      (0 < nsub lv)%nat /\
      (off_x lv + ext_x lv <= n1)%nat /\
      (off_y lv + ext_y lv <= n2)%nat /\
      (off_z lv + ext_z lv <= n3)%nat /\
      nested_ok (nsub lv * ext_x lv) (nsub lv * ext_y lv) (nsub lv * ext_z lv) rest
  end.

(** Modelled from the spec: [precalculation.rho2rhocube], which is not part
    of the sources: every sample adds its density to the one velocity bin
    whose edges contain its line-of-sight velocity. *)
Definition deposit (edges : array1) (vlos rho : array1) : array2 :=
  map (fun k =>
         map (fun vr =>
                if fle (nth k edges NaN) (fst vr)
                   && flt (fst vr) (nth (S k) edges NaN)
                then snd vr else Fin 0)
             (combine vlos rho))
      (seq 0 (length edges - 1)).

(** Modelled from the spec: [rho2rhocube(vlos, rho)] with the cached bin
    edges of [precalculation.vedge]. *)
Definition rho2rhocube (st : Mockpvd.precalc) (vlos rho : array1) : array2 :=
  match Mockpvd.vedge st with
  | Some edges => deposit edges vlos rho
  | None => []
  end.

End NestedGrid.

(** the pipeline of [mockpvd.py] on the nested grid above. *)
Module Pipeline.
Import Py Np.

Definition MockPVD : Type := Mockpvd.MockPVD NestedGrid.Nested3DGrid.

Definition generate_pvd :
  MockPVD -> Mockpvd.precalc -> array1 -> array1 -> fl ->
  option (fl * fl * fl) -> option fl -> fl ->
  result array2 * Mockpvd.precalc :=
  Mockpvd.generate_pvd NestedGrid.Nested3DGrid NestedGrid.ny
    NestedGrid.integrate_along NestedGrid.rho2rhocube.

(** [generate_mockpvd] on the nested grid; [build] stays a parameter. *)
Definition generate_mockpvd
    (build : MockPVD -> Mockpvd.precalc -> fl -> fl -> fl -> fl -> fl -> fl ->
             option fl -> string -> bool ->
             result (array1 * array1) * Mockpvd.precalc) :=
  Mockpvd.generate_mockpvd NestedGrid.Nested3DGrid NestedGrid.ny
    NestedGrid.integrate_along NestedGrid.rho2rhocube build.

End Pipeline.

(* ================================================================== *)
(** ** pvsilhouette/_pvsilhouette.py: the fit-result table *)
(* ================================================================== *)

Module Text.

Local Open Scope string_scope.

Definition is_space (c : ascii) : bool :=
  match nat_of_ascii c with
  | 9 | 10 | 11 | 12 | 13 | 32 => true
  | _ => false
  end.

Definition is_newline (c : ascii) : bool :=
  match nat_of_ascii c with
  | 10 | 13 => true
  | _ => false
  end.

Definition is_hash (c : ascii) : bool := Ascii.eqb c "#"%char.

Fixpoint string_forall (p : ascii -> bool) (s : string) : bool :=
  match s with
  | EmptyString => true
  | String c s' => p c && string_forall p s'
  end.

(** the pieces of [s] between the characters that satisfy [p]; [cur] is
    the piece being read. *)
Fixpoint split_at (p : ascii -> bool) (cur s : string) : list string :=
  match s with
  | EmptyString => [cur]
  | String c s' =>
      if p c then cur :: split_at p EmptyString s'
      else split_at p (cur ++ String c EmptyString) s'
  end.

(** the lines of a text. *)
Definition splitlines (s : string) : list string := split_at is_newline "" s.

(** [line.split()]: the maximal runs without whitespace. *)
Definition words (s : string) : list string :=
  filter (fun t => negb (String.eqb t "")) (split_at is_space "" s).

(** what is left of a line before its first [#]. *)
Fixpoint strip_comment (s : string) : string :=
  match s with
  | EmptyString => EmptyString
  | String c s' => if is_hash c then EmptyString else String c (strip_comment s')
  end.

(** a string that survives as one column: not empty, no whitespace, no
    [#]. *)
Definition is_token (t : string) : bool :=
  negb (String.eqb t "")
  && string_forall (fun c => negb (is_space c) && negb (is_hash c)) t.

(** the text of a row of five columns joined by single spaces. *)
Definition row_text (l a b c d : string) : string :=
  l ++ " " ++ a ++ " " ++ b ++ " " ++ c ++ " " ++ d.

End Text.

Module Pvsilhouette.
Import Py Text.

(** the files on disk: the content of every path that exists. *)
Definition files : Type := string -> option string.

Definition write_file (fs : files) (path content : string) : files :=
  fun p => if String.eqb p path then Some content else fs p.

(** what a method hands back: Python's [None] or an integer. *)
Inductive retval : Type :=
| RetNone
| RetInt (z : Z).

Definition labels : list string :=
  ["Mstar"; "Rc"; "alpha"; "fflux"; "log_ftau"; "log_frho"; "sig_mdl"]%string.

Definition header : string :=
  ("# popt plow pmid phigh" ++ String (ascii_of_nat 10) EmptyString)%string.

Definition no_popt_messages : list string :=
  [ ("ERROR" ++ String (ascii_of_nat 9) EmptyString
     ++ "writeout_fitres: No optimized parameters are found.")%string;
    ("ERROR" ++ String (ascii_of_nat 9) EmptyString
     ++ "writeout_fitres: Run fitting first.")%string ].

(** [np.savetxt(f, table, fmt='%s')]: every row joined by single spaces and
    closed by a newline. *)
Definition savetxt (rows : list (list string)) : string :=
  fold_right
    (fun row rest =>
       (String.concat " " row ++ String (ascii_of_nat 10) EmptyString ++ rest)%string)
    EmptyString rows.

(** [np.array([labels, a, b, c, d]).T]: the rows of the table, when the five
    columns have one length. *)
Fixpoint table_rows (ls a b c d : list string) : option (list (list string)) :=
  match ls, a, b, c, d with
  | [], [], [], [], [] => Some []
  | l :: ls, x :: a, y :: b, z :: c, w :: d =>
      option_map (cons [l; x; y; z; w]) (table_rows ls a b c d)
  | _, _, _, _, _ => None
  end.

Fixpoint sequence {A : Type} (l : list (option A)) : option (list A) :=
  match l with
  | [] => Some []
  | Some a :: rest => option_map (cons a) (sequence rest)
  | None :: _ => None
  end.

Section WithFloat.

(** The float64 values and their two conversions are parameters: the text
    that ['%s'] formatting writes for a value, and the value that
    [np.genfromtxt] reads from a column ([None] where the text is not a
    number, which [genfromtxt] turns into nan). *)
Variable pyfloat : Type.
Variable nan : pyfloat.
Variable str_float : pyfloat -> string.
Variable float_of_string : string -> option pyfloat.

(** an attribute holding numbers: a zero-dimensional or a one-dimensional
    array. *)
Inductive ndarray : Type :=
| Scalar (x : pyfloat)
| Array1 (l : list pyfloat).

(** the four result attributes of a [PVSilhouette] object; [None] where
    the attribute does not exist. *)
Record PVSilhouette : Type := {
  popt : option ndarray;
  plow : option ndarray;
  pmid : option ndarray;
  phigh : option ndarray
}.

(** [PVSilhouette.writeout_fitres]: the lines printed, the returned value
    (or the exception) and the files after the call.  The file is opened
    with ['w+'] and the header is written before the table is built. *)
Definition writeout_fitres (self : PVSilhouette) (fout : string) (fs : files)
  : list string * result retval * files :=
  match popt self with
  | None => (no_popt_messages, Ok (RetInt 0), fs)
  | Some po =>
      let path := (fout ++ ".txt")%string in
      let fs1 := write_file fs path header in
      match plow self, pmid self, phigh self with
      | Some pl, Some pm, Some ph =>
          match po, pl, pm, ph with
          | Array1 po, Array1 pl, Array1 pm, Array1 ph =>
              match table_rows labels (map str_float po) (map str_float pl)
                      (map str_float pm) (map str_float ph) with
              | Some rows =>
                  ([], Ok RetNone, write_file fs path (header ++ savetxt rows)%string)
              | None => ([], Raise ValueError, fs1)
              end
          | _, _, _, _ => ([], Raise ValueError, fs1)
          end
      | _, _, _ => ([], Raise AttributeError, fs1)
      end
  end.

(** one column converted with [dtype=float]. *)
Definition to_float (t : string) : pyfloat :=
  match float_of_string t with
  | Some x => x
  | None => nan
  end.

(** the columns [usecols=(1, 2, 3, 4)] of one line, after the comment is
    cut and the line is split at whitespace: [None] for a line without
    columns (skipped), [Some None] for a line that lacks one of the four. *)
Definition parse_line (line : string) : option (option (list pyfloat)) :=
  match words (strip_comment line) with
  | [] => None
  | cols =>
      Some (option_map (map to_float)
              (sequence (map (nth_error cols) [1; 2; 3; 4]%nat)))
  end.

Fixpoint data_rows (lines : list string) : list (option (list pyfloat)) :=
  match lines with
  | [] => []
  | l :: rest =>
      match parse_line l with
      | None => data_rows rest
      | Some r => r :: data_rows rest
      end
  end.

(** [np.genfromtxt(f, dtype=float, comments='#', unpack=True,
    usecols=(1,2,3,4))] on the text of the file: the four columns. *)
Definition genfromtxt (content : string) : result (list ndarray) :=
  match sequence (data_rows (splitlines content)) with
  | None => Raise ValueError
  | Some [] => Ok []
  | Some [row] => Ok (map Scalar row)
  | Some rows =>
      Ok (map (fun k => Array1 (map (fun row => nth k row nan) rows))
              [0; 1; 2; 3]%nat)
  end.

(** [PVSilhouette.read_fitres]: the object after the call, or the
    exception. *)
Definition read_fitres (self : PVSilhouette) (f : string) (fs : files)
  : result PVSilhouette :=
  match fs f with
  | None => Raise OSError
  | Some content =>
      bind (genfromtxt content) (fun cols =>
        match cols with
        | [a; b; c; d] =>
            Ok {| popt := Some a; plow := Some b; pmid := Some c; phigh := Some d |}
        | _ => Raise ValueError
        end)
  end.

(** a value that ['%s'] writes as one column and that reads back as
    itself. *)
Definition prints_well (x : pyfloat) : Prop :=
  is_token (str_float x) = true /\ float_of_string (str_float x) = Some x.

(** a row of the table: the label and the four values. *)
Definition table_row : Type := (string * (pyfloat * pyfloat * pyfloat * pyfloat))%type.

Definition row_strings (r : table_row) : list string :=
  let '(l, (x, y, z, w)) := r in
  [l; str_float x; str_float y; str_float z; str_float w].

Definition row_values (r : table_row) : list pyfloat :=
  let '(_, (x, y, z, w)) := r in [x; y; z; w].

Definition row_ok (r : table_row) : Prop :=
  let '(l, (x, y, z, w)) := r in
  is_token l = true /\ prints_well x /\ prints_well y /\ prints_well z /\ prints_well w.

End WithFloat.

End Pvsilhouette.

(* ================================================================== *)
(** ** pvsilhouette/_pvsilhouette.py: the observed diagrams *)
(* ================================================================== *)

Module Pvdata.
Import Py Np.

(** [getquad(m)] on a two-dimensional array given by its rows ([nx] is the
    length of the first row): the sum over the lower-left and upper-right
    quadrants minus the sum over the other two, reduced to its sign.
    [int] of the sign of nan raises [ValueError]. *)
Definition getquad (m : array2) : result Z :=
  let nv := length m in
  let nx := length (nth 0 m []) in
  let q := (sum2 (map (firstn (nx / 2)) (firstn (nv / 2) m))
            + sum2 (map (skipn (nx / 2)) (skipn (nv / 2) m))
            - sum2 (map (firstn (nx / 2)) (skipn (nv / 2) m))
            - sum2 (map (skipn (nx / 2)) (firstn (nv / 2) m)))%fl in
  match q with
  | NaN => Raise ValueError
  | Fin a => Ok (if Rlt_dec 0 a then 1 else if Rlt_dec a 0 then -1 else 0)%Z
  | PInf => Ok 1%Z
  | NInf => Ok (-1)%Z
  end.

(** the entry of [a] at index [i], as a list of one entry or of none. *)
Definition pick {A : Type} (a : list A) (i : Z) : list A :=
  match nth_error a (Z.to_nat i) with
  | Some e => [e]
  | None => []
  end.

(** [a[start::step]] for a step that is not 0, after Python's
    [slice.indices]: a negative [start] counts from the end, the first
    index is clamped to the list, and the indices run to the end of the
    list (to its beginning for a negative step). *)
Definition slice_from {A : Type} (start step : Z) (a : list A) : list A :=
  let n := Z.of_nat (length a) in
  if (0 <? step)%Z then
    let s0 := if (start <? 0)%Z then Z.max (start + n) 0 else Z.min start n in
    let count := Z.to_nat ((n - s0 + step - 1) / step) in
    flat_map (fun j => pick a (s0 + Z.of_nat j * step)%Z) (seq 0 count)
  else
    let s0 := if (start <? 0)%Z then Z.max (start + n) (-1) else Z.min start (n - 1) in
    let count := Z.to_nat ((s0 + 1 + (- step) - 1) / (- step)) in
    flat_map (fun j => pick a (s0 + Z.of_nat j * step)%Z) (seq 0 count).

(** the attributes of a [PVSilhouette] object that [sampling] reads and
    writes, as [read_pvfits] leaves them: [bmin] is a Python float, [dx]
    and [dv] are NumPy scalars. *)
Record pvsil : Type := {
  pv_bmin : fl;
  pv_dx : fl;
  pv_dv : fl;
  pv_data : array2;
  pv_v : array1;
  pv_x : array1
}.

(** [x if x != 0 else 1]. *)
Definition nonzero_step (s : Z) : Z := if (s =? 0)%Z then 1%Z else s.

(** [l[1] - l[0]]. *)
Definition first_step (l : array1) : PyX.outcome fl :=
  match l with
  | a :: b :: _ => PyX.Returns (b - a)%fl
  | _ => PyX.Raises (PyX.Std IndexError)
  end.

(** [PVSilhouette.sampling(steps)] for [steps = (x_smpl, y_smpl)], two
    Python numbers: the object after the call and [None], or the object as
    the exception leaves it and the exception. *)
Definition sampling (self : pvsil) (steps : fl * fl) : pvsil * PyX.outcome unit :=
  let '(x_smpl, y_smpl) := steps in
  match PyX.py_truediv (pv_bmin self) x_smpl with
  | PyX.Raises e => (self, PyX.Raises e)
  | PyX.Returns r =>
  match PyX.py_int (r / pv_dx self)%fl with
  | PyX.Raises e => (self, PyX.Raises e)
  | PyX.Returns x_smpl =>
  match PyX.py_truediv (Fin 1) y_smpl with
  | PyX.Raises e => (self, PyX.Raises e)
  | PyX.Returns r =>
  match PyX.py_int r with
  | PyX.Raises e => (self, PyX.Raises e)
  | PyX.Returns y_smpl =>
      let x_smpl := nonzero_step x_smpl in
      let y_smpl := nonzero_step y_smpl in
      let data := map (slice_from (x_smpl / 2) x_smpl)
                      (slice_from (y_smpl / 2) y_smpl (pv_data self)) in
      let v := slice_from (y_smpl / 2) y_smpl (pv_v self) in
      let x := slice_from (x_smpl / 2) x_smpl (pv_x self) in
      let self1 := {| pv_bmin := pv_bmin self; pv_dx := pv_dx self;
                      pv_dv := pv_dv self; pv_data := data; pv_v := v; pv_x := x |} in
      match first_step x with
      | PyX.Raises e => (self1, PyX.Raises e)
      | PyX.Returns dx =>
          let self2 := {| pv_bmin := pv_bmin self; pv_dx := dx;
                          pv_dv := pv_dv self; pv_data := data; pv_v := v; pv_x := x |} in
          match first_step v with
          | PyX.Raises e => (self2, PyX.Raises e)
          | PyX.Returns dv =>
              ({| pv_bmin := pv_bmin self; pv_dx := dx; pv_dv := dv;
                  pv_data := data; pv_v := v; pv_x := x |}, PyX.Returns tt)
          end
      end
  end end end end.

(** the data array has one row per velocity channel and one column per
    position. *)
Definition aligned (self : pvsil) : Prop :=
  length (pv_data self) = length (pv_v self) /\
  Forall (fun row => length row = length (pv_x self)) (pv_data self).

End Pvdata.

(* ================================================================== *)
(** ** A small grid and a small [MockPVD] object *)
(* ================================================================== *)

Module Examples.
Import Py Np Mockpvd.

(** the single-level grid [Nested3DGrid(x, y, z, None, None, None, [1])]
    that [makegrid] builds for [x = z = [0, 1]] and no beam
    ([y = [-dx, 0, dx]]): 2 x 3 x 2 cells of unit spacing. *)
Definition grid0 : NestedGrid.Nested3DGrid :=
  {| NestedGrid.nx := 2; NestedGrid.ny := 3; NestedGrid.nz := 2;
     NestedGrid.dz := Fin 1; NestedGrid.levels := [] |}.

(** [MockPVD(x, z, v)] for [x = z = v = np.array([0., 1.])]. *)
Definition self0 : Pipeline.MockPVD :=
  {| self_x := [Fin 0; Fin 1]; self_y := None; self_v := [Fin 0; Fin 1];
     nsubgrid := 1; self_beam := None; grid := grid0 |}.

(** a density of 1 at each of the 12 samples. *)
Definition ones : array1 := repeat (Fin 1) 12.

(** the same line-of-sight velocity [u] at each of the 12 samples. *)
Definition uniform (u : R) : array1 := repeat (Fin u) 12.

(** [generate_pvd(rho=ones, vlos=zeros, taumax=1., linewidth=lw)] on
    [self0], from the caches [st]. *)
Definition call_linewidth (lw : R) (st : precalc) : result array2 * precalc :=
  Pipeline.generate_pvd self0 st ones (uniform 0) (Fin 1) None (Some (Fin lw)) (Fin 0).

(** the optical-depth cube (2 channels, 2 x 3 pixels) of the 12 unit
    densities when every sample moves at velocity 1, the centre of the last
    channel. *)
Definition tau_last_channel : array3 :=
  [ [ [Fin 0; Fin 0; Fin 0]; [Fin 0; Fin 0; Fin 0] ];
    [ [Fin 2; Fin 2; Fin 2]; [Fin 2; Fin 2; Fin 2] ] ].

(** a cube of 2 channels and 2 x 3 pixels, constant in each channel. *)
Definition cube2 (x y : fl) : array3 :=
  [ [ [x; x; x]; [x; x; x] ]; [ [y; y; y]; [y; y; y] ] ].

(** the velocity-bin edges of the axis [v = [0, 1]]:
    [-0.5, 0.5, 1.5]. *)
Definition edges0 : array1 := bin_edges [Fin 0; Fin 1] (Fin 1 - Fin 0)%fl.

(** the two weights of the spectral kernel on the axis [v = [0, 1]]. *)
Definition kernel_a (lw : R) : R := 1 / (1 + exp (- (1 / (lw * lw)))).
Definition kernel_b (lw : R) : R :=
  exp (- (1 / (lw * lw))) / (1 + exp (- (1 / (lw * lw)))).

(** a stand-in for [self.build]: the 12 unit densities at rest, whatever
    the parameters. *)
Definition build0 (self : Pipeline.MockPVD) (st : precalc)
    (Mstar Rc incl alphainfall frho rin : fl) (rout : option fl)
    (axis : string) (normalize : bool) : result (array1 * array1) * precalc :=
  (Ok (ones, uniform 0), st).

(** [mp.generate_mockpvd(Mstar=1., Rc=100., axis=axis)] on [self0] with
    the defaults of the other parameters. *)
Definition call_mockpvd (axis : string) : list string * result pyvalue * precalc :=
  Pipeline.generate_mockpvd build0 self0 precalc_init
    (Fin 1) (Fin 100) (Fin 1) (Fin 1) (Fin 1) (Fin 89) (PaFloat (Fin 0))
    None (Fin 1) None axis.

(** a three-level grid: a 4 x 3 x 4 parent of spacing 2, a box of 2 x 1 x 2
    parent cells refined twice, and inside it a box of 2 x 1 x 2 cells
    refined three times. *)
Definition grid3 : NestedGrid.Nested3DGrid :=
  {| NestedGrid.nx := 4; NestedGrid.ny := 3; NestedGrid.nz := 4;
     NestedGrid.dz := Fin 2;
     NestedGrid.levels :=
       [ {| NestedGrid.nsub := 2;
            NestedGrid.off_x := 1; NestedGrid.off_y := 1; NestedGrid.off_z := 1;
            NestedGrid.ext_x := 2; NestedGrid.ext_y := 1; NestedGrid.ext_z := 2 |};
         {| NestedGrid.nsub := 3;
            NestedGrid.off_x := 1; NestedGrid.off_y := 0; NestedGrid.off_z := 1;
            NestedGrid.ext_x := 2; NestedGrid.ext_y := 1; NestedGrid.ext_z := 2 |} ] |}.

(** integer-valued floats written in decimal, as an instance of the two
    conversions of the fit-result table. *)
Definition str_Z (z : Z) : string := NilZero.string_of_int (Z.to_int z).
Definition Z_of_string (s : string) : option Z :=
  option_map Z.of_int (NilZero.int_of_string s).

(** a fit result with integer values. *)
Definition fit_popt : list Z := [1; 100; 1; 2; 0; 3; 0]%Z.
Definition fit_plow : list Z := [0; 90; 0; 1; -1; 2; 0]%Z.
Definition fit_pmid : list Z := [1; 101; 1; 2; 0; 3; 1]%Z.
Definition fit_phigh : list Z := [2; 110; 1; 3; 1; 4; 2]%Z.

End Examples.

(* ================================================================== *)
(** ** Predicates on arrays *)
(* ================================================================== *)

Module Bounds.
Import Np.

(** a finite sample whose value satisfies [P]. *)
Definition fin_where (P : R -> Prop) (x : fl) : Prop :=
  exists r : R, x = Fin r /\ P r.

Definition nonneg (r : R) : Prop := 0 <= r.
Definition positive (r : R) : Prop := 0 < r.

Definition all1 (P : fl -> Prop) (a : array1) : Prop := Forall P a.
Definition all2 (P : fl -> Prop) (m : array2) : Prop := Forall (Forall P) m.
Definition all3 (P : fl -> Prop) (c : array3) : Prop := Forall (Forall (Forall P)) c.

(** an [n1 x n2] array, and a cube of such slices. *)
Definition rect2 (n1 n2 : nat) (m : array2) : Prop :=
  length m = n1 /\ Forall (fun row => length row = n2) m.
Definition rect3 (n1 n2 : nat) (c : array3) : Prop := Forall (rect2 n1 n2) c.

(** some sample of the cube is finite and positive. *)
Definition some_positive (c : array3) : Prop :=
  Exists (Exists (Exists (fin_where positive))) c.







End Bounds.

(* ================================================================== *)
(** ** Uniform axes and real sums *)
(* ================================================================== *)

Module Axes.
Import Np.

(** the axis of [nx] samples [x0, x0 + d, x0 + 2 d, ...]. *)
Definition uniform_axis (x0 d : R) (nx : nat) : array1 :=
  map (fun i => Fin (x0 + INR i * d)) (seq 0 nx).

(** the sum of a list of real numbers. *)
Definition Rsum (l : list R) : R := fold_right Rplus 0 l.

(** the sample of [a] at index [m - k], or 0 where that index does not
    exist: what one kernel weight of a convolution multiplies. *)
Definition tapv (a : list R) (m k : nat) : R :=
  if (k <=? m)%nat then nth (m - k) a 0 else 0.

End Axes.

(* ================================================================== *)
(** ** [velrho] in double precision *)
(* ================================================================== *)

(** The root of [velrho] once more, this time on IEEE-754 binary64 values
    ([SpecFloat.spec_float], precision 53, round to nearest even), for the
    samples where rounding decides what the function returns.  Sums,
    products, quotients, square roots and comparisons are those of the
    standard; the functions that NumPy takes from the C library ([cos],
    [arccos], [pow]) are fields of a record. *)
Module Binary64.
Import SpecFloat.
Local Open Scope Z_scope.

Definition b64 : Type := spec_float.

Definition prec : Z := 53.
Definition emax : Z := 1024.

Definition add : b64 -> b64 -> b64 := SFadd prec emax.
Definition sub : b64 -> b64 -> b64 := SFsub prec emax.
Definition mul : b64 -> b64 -> b64 := SFmul prec emax.
Definition div : b64 -> b64 -> b64 := SFdiv prec emax.
Definition sqrt : b64 -> b64 := SFsqrt prec emax.

(** a Python number that is an integer, as a double. *)
Definition of_Z (n : Z) : b64 := binary_normalize prec emax n 0 false.

Definition zero : b64 := S754_zero false.
Definition one : b64 := of_Z 1.
Definition two : b64 := of_Z 2.
Definition three : b64 := of_Z 3.

(** the literals [1e-10], [-1/2], [1/6], [1/3] and [-3/2] of the source. *)
Definition eps : b64 := S754_finite false 7737125245533627 (-86).
Definition neg_half : b64 := div (of_Z (-1)) two.
Definition sixth : b64 := div one (of_Z 6).
Definition third : b64 := div one three.
Definition neg_three_halves : b64 := div (of_Z (-3)) two.

Definition is_nan (x : b64) : bool :=
  match x with S754_nan => true | _ => false end.

(** [np.maximum] and [np.minimum]: a NaN operand comes back. *)
Definition maximum (a b : b64) : b64 :=
  if is_nan a then a else if is_nan b then b else if SFleb b a then a else b.
Definition minimum (a b : b64) : b64 :=
  if is_nan a then a else if is_nan b then b else if SFleb a b then a else b.

(** [x.clip(lo, None)] and [x.clip(lo, hi)]. *)
Definition clip_lo (x lo : b64) : b64 := maximum x lo.
Definition clip (x lo hi : b64) : b64 := minimum (maximum x lo) hi.

(** the functions of the C library behind [np.cos], [np.arccos] and
    [**] with an exponent other than 2. *)
Record libm : Type := {
  m_cos : b64 -> b64;
  m_arccos : b64 -> b64;
  m_pow : b64 -> b64 -> b64
}.

(** the entry [mu0] for one sample; [x**2] is NumPy's square, a
    product. *)
Definition velrho_mu0 (lm : libm) (radius theta : b64) : b64 :=
  let radius := clip_lo radius eps in
  let mu := clip (SFabs (m_cos lm theta)) eps one in
  let p := div (sub radius one) three in
  let q := div (mul mu radius) two in
  let mu0 := S754_nan in
  (* r >= 1 (p >= 0, D >= 0) *)
  let mu0 :=
    if SFleb one radius then
      let D := add (mul q q) (m_pow lm p three) in
      let qD := mul q (m_pow lm D neg_half) in
      mul (m_pow lm D sixth)
          (sub (m_pow lm (add one qD) third) (m_pow lm (sub one qD) third))
    else mu0 in
  (* r < 1 (p < 0) and D >= 0 *)
  let p_minus := clip_lo (SFopp p) zero in
  let D := sub (mul q q) (m_pow lm p_minus three) in
  let mu0 :=
    if SFltb radius one && SFleb zero D then
      add (m_pow lm (add q (sqrt D)) third) (m_pow lm (sub q (sqrt D)) third)
    else mu0 in
  (* D < 0 (p < 0, r < 1) *)
  let mu0 :=
    if SFltb D zero then
      mul (mul two (sqrt p_minus))
          (m_cos lm (div (m_arccos lm (mul q (m_pow lm p_minus neg_three_halves)))
                         three))
    else mu0 in
  mu0.

(** what the C standard fixes of [pow] on the two arguments that matter
    below: a zero base under the exponent 3 stays that zero, and a finite
    negative base under the exponent 1/3 (not an integer) is a domain
    error, NaN. *)
Definition pow_standard (lm : libm) : Prop :=
  (forall s : bool, m_pow lm (S754_zero s) three = S754_zero s) /\
  (forall (m : positive) (e : Z), m_pow lm (S754_finite true m e) third = S754_nan).

(** The sample [radius = 1.0], [theta = 2.39]: the doubles that the
    function meets on its way.  [cos_239] is the double next to
    [cos 2.39 = -0.730602326933837244...], [q_239] half its absolute value,
    [D_239] the rounded square of [q_239], and [rsqrt_239] the double next
    to [D_239 ^ (-1/2)] (see [rsqrt_239_nearest]). *)
Definition theta_239 : b64 := S754_finite false 5381801554707743 (-51).
Definition cos_239 : b64 := S754_finite true 6580680734670493 (-53).
Definition q_239 : b64 := S754_finite false 6580680734670493 (-54).
Definition D_239 : b64 := S754_finite false 4807860657558935 (-55).
Definition rsqrt_239 : b64 := S754_finite false 6164228419954566 (-51).

(** a C library that is known on this sample only: the witness of the
    theorem on it. *)
Definition libm_239 : libm :=
  {| m_cos := fun _ => cos_239;
     m_arccos := fun x => x;
     m_pow := fun x y =>
       match x with
       | S754_zero _ => x
       | _ => if SFltb x zero then S754_nan else rsqrt_239
       end |}.

End Binary64.

(* ================================================================== *)
(** ** Arithmetic of finite values *)
(* ================================================================== *)

Section FiniteArithmetic.

Lemma Rleb_true (a b : R) : a <= b -> Rleb a b = true.
Proof. intro H; unfold Rleb; destruct (Rle_dec a b); [reflexivity | contradiction]. Qed.

Lemma Rleb_false (a b : R) : b < a -> Rleb a b = false.
Proof. intro H; unfold Rleb; destruct (Rle_dec a b); [lra | reflexivity]. Qed.

Lemma Rltb_true (a b : R) : a < b -> Rltb a b = true.
Proof. intro H; unfold Rltb; destruct (Rlt_dec a b); [reflexivity | contradiction]. Qed.

Lemma Rltb_false (a b : R) : b <= a -> Rltb a b = false.
Proof. intro H; unfold Rltb; destruct (Rlt_dec a b); [lra | reflexivity]. Qed.

Lemma fdiv_Fin (a b : R) : b <> 0 -> fdiv (Fin a) (Fin b) = Fin (a / b).
Proof. intro H; simpl; destruct (Req_dec_T b 0); [contradiction | reflexivity]. Qed.

Lemma fsqrt_Fin (a : R) : 0 <= a -> fsqrt (Fin a) = Fin (sqrt a).
Proof. intro H; simpl; destruct (Rlt_dec a 0); [lra | reflexivity]. Qed.

Lemma fpow_pos (a y : R) : 0 < a -> fpow (Fin a) y = Fin (Rpower a y).
Proof. intro H; simpl; destruct (Rlt_dec 0 a); [reflexivity | contradiction]. Qed.

Lemma fpow_zero (y : R) : 0 < y -> fpow (Fin 0) y = Fin 0.
Proof.
  intro H; simpl.
  destruct (Rlt_dec 0 0); [lra |].
  destruct (Rlt_dec 0 y); [reflexivity | contradiction].
Qed.

Lemma farccos_Fin (a : R) : -1 <= a <= 1 -> farccos (Fin a) = Fin (acos a).
Proof.
  intros [H1 H2]; simpl.
  destruct (Rle_dec (-1) a); [| contradiction].
  destruct (Rle_dec a 1); [reflexivity | contradiction].
Qed.

Lemma clip_lo_Fin (a lo : R) : clip_lo (Fin a) lo = Fin (Rmax a lo).
Proof.
  unfold clip_lo, fmaximum, fle, Rleb, Rmax.
  destruct (Rle_dec a lo); reflexivity.
Qed.

Lemma clip_Fin (a lo hi : R) : clip (Fin a) lo hi = Fin (Rmin (Rmax a lo) hi).
Proof.
  unfold clip. fold (clip_lo (Fin a) lo). rewrite clip_lo_Fin.
  unfold fminimum, fle, Rleb, Rmin.
  destruct (Rle_dec (Rmax a lo) hi); reflexivity.
Qed.

End FiniteArithmetic.

(* ================================================================== *)
(** ** UlrichEnvelope: [rotbase] and [kepvel] *)
(* ================================================================== *)

Section RotbaseKepvel.
Import UlrichEnvelope.

Lemma sin2_cos2' (x : R) : sin x * sin x + cos x * cos x = 1.
Proof. generalize (sin2_cos2 x); unfold Rsqr; lra. Qed.

(** C8.  For every polar angle [t] and azimuth [p], the triad returned by
    [rotbase] is orthonormal: each vector has Euclidean norm 1 and the three
    pairwise dot products are 0. *)
Theorem rotbase_orthonormal (t p : R) :
  let '(er, et, ep) := rotbase (Fin t) (Fin p) in
  norm3 er = Fin 1 /\ norm3 et = Fin 1 /\ norm3 ep = Fin 1 /\
  dot3 er et = Fin 0 /\ dot3 er ep = Fin 0 /\ dot3 et ep = Fin 0.
Proof.
  pose proof (sin2_cos2' t) as Ht. pose proof (sin2_cos2' p) as Hp.
  unfold rotbase, norm3, dot3; cbn [fsin fcos fmul fadd fneg].
  assert (E1 : sin t * sin p * (sin t * sin p)
               + - sin t * cos p * (- sin t * cos p) + cos t * cos t = 1).
  { replace (sin t * sin p * (sin t * sin p)
             + - sin t * cos p * (- sin t * cos p))
      with (sin t * sin t * (sin p * sin p + cos p * cos p)) by ring.
    rewrite Hp; lra. }
  assert (E2 : cos t * sin p * (cos t * sin p)
               + - cos t * cos p * (- cos t * cos p) + - sin t * - sin t = 1).
  { replace (cos t * sin p * (cos t * sin p)
             + - cos t * cos p * (- cos t * cos p))
      with (cos t * cos t * (sin p * sin p + cos p * cos p)) by ring.
    rewrite Hp; lra. }
  assert (E3 : cos p * cos p + sin p * sin p + 0 * 0 = 1) by lra.
  rewrite E1, E2, E3.
  rewrite (fsqrt_Fin 1) by lra. rewrite sqrt_1.
  repeat split; f_equal.
  - replace (sin t * sin p * (cos t * sin p)
             + - sin t * cos p * (- cos t * cos p))
      with (sin t * cos t * (sin p * sin p + cos p * cos p)) by ring.
    rewrite Hp; ring.
  - ring.
  - ring.
Qed.

(** [np.sqrt] applied to the clipped radius times [sin theta]. *)
Lemma kepvel1_value (radius theta : R) :
  0 < sin theta ->
  kepvel1 (Fin radius) (Fin theta)
  = (Fin 0, Fin 0, Fin (1 / sqrt (Rmax radius eps * sin theta))).
Proof.
  intro Hs. unfold kepvel1. rewrite clip_lo_Fin.
  cbn [fsin fmul].
  assert (He : 0 < eps) by (unfold eps; lra).
  assert (Hm : 0 < Rmax radius eps).
  { apply Rlt_le_trans with eps; [exact He | apply Rmax_r]. }
  assert (Hpos : 0 < Rmax radius eps * sin theta) by (apply Rmult_lt_0_compat; assumption).
  rewrite fsqrt_Fin by lra.
  rewrite fdiv_Fin; [reflexivity |].
  apply Rgt_not_eq, sqrt_lt_R0; exact Hpos.
Qed.

(** C9 (amended).  For every radius at or above the clipping floor [1e-10]
    and every [theta] with [sin theta > 0], [kepvel] returns exactly
    [v_r = 0], [v_theta = 0] and [v_phi = 1 / sqrt (radius * sin theta)]. *)
Theorem kepvel_exact (radius theta : R) :
  eps <= radius -> 0 < sin theta ->
  kepvel1 (Fin radius) (Fin theta)
  = (Fin 0, Fin 0, Fin (1 / sqrt (radius * sin theta))).
Proof.
  intros Hr Hs. rewrite kepvel1_value by exact Hs.
  rewrite Rmax_left by exact Hr. reflexivity.
Qed.

Lemma kepvel_exact_witness :
  eps <= 1 /\ 0 < sin (PI / 2) /\
  kepvel1 (Fin 1) (Fin (PI / 2))
  = (Fin 0, Fin 0, Fin (1 / sqrt (1 * sin (PI / 2)))).
Proof.
  assert (H1 : eps <= 1) by (unfold eps; lra).
  assert (H2 : 0 < sin (PI / 2)) by (rewrite sin_PI2; lra).
  split; [exact H1 | split; [exact H2 | exact (kepvel_exact 1 (PI / 2) H1 H2)]].
Defined.

(** C9 as stated fails below the floor: at [radius = 1e-11] (positive) and
    [theta = pi/2] the code returns [v_phi = 1 / sqrt 1e-10], which is not
    [1 / sqrt (radius * sin theta)]. *)
Lemma kepvel_small_radius_counterexample :
  0 < 1e-11 /\ 0 < sin (PI / 2) /\
  kepvel1 (Fin 1e-11) (Fin (PI / 2)) = (Fin 0, Fin 0, Fin (1 / sqrt 1e-10)) /\
  kepvel1 (Fin 1e-11) (Fin (PI / 2))
  <> (Fin 0, Fin 0, Fin (1 / sqrt (1e-11 * sin (PI / 2)))).
Proof.
  assert (Hs : 0 < sin (PI / 2)) by (rewrite sin_PI2; lra).
  assert (Hv : kepvel1 (Fin 1e-11) (Fin (PI / 2))
               = (Fin 0, Fin 0, Fin (1 / sqrt 1e-10))).
  { rewrite kepvel1_value by exact Hs. rewrite sin_PI2.
    unfold eps. rewrite Rmax_right by lra. rewrite Rmult_1_r. reflexivity. }
  split; [lra | split; [exact Hs | split; [exact Hv |]]].
  rewrite Hv, sin_PI2, Rmult_1_r. intro E.
  assert (E' : 1 / sqrt 1e-10 = 1 / sqrt 1e-11) by congruence.
  assert (P10 : 0 < sqrt 1e-10) by (apply sqrt_lt_R0; lra).
  assert (P11 : 0 < sqrt 1e-11) by (apply sqrt_lt_R0; lra).
  assert (S : sqrt 1e-10 = sqrt 1e-11).
  { apply Rinv_eq_reg. unfold Rdiv in E'. lra. }
  apply sqrt_inj in S; lra.
Qed.

End RotbaseKepvel.

(* ================================================================== *)
(** ** Real cube roots and the three closed forms of the cubic *)
(* ================================================================== *)

Section Cardano.
Import UlrichReal.

Lemma cube_inj_nonneg (x y : R) : 0 <= x -> 0 <= y -> x ^ 3 = y ^ 3 -> x = y.
Proof.
  intros Hx Hy E.
  destruct (Rtotal_order x y) as [L | [L | L]]; [exfalso | exact L | exfalso].
  - assert (0 < (y - x) * (y * y + x * y + x * x)).
    { apply Rmult_lt_0_compat; nra. }
    nra.
  - assert (0 < (x - y) * (y * y + x * y + x * x)).
    { apply Rmult_lt_0_compat; nra. }
    nra.
Qed.

Lemma Rpower_pos (x y : R) : 0 < Rpower x y.
Proof. unfold Rpower; apply exp_pos. Qed.

Lemma Rpower_third_cube (x : R) : 0 < x -> Rpower x (1/3) ^ 3 = x.
Proof.
  intro H. rewrite <- (Rpower_pow 3) by apply Rpower_pos.
  rewrite Rpower_mult. simpl INR.
  replace (1 / 3 * (1 + 1 + 1)) with 1 by field.
  apply Rpower_1; exact H.
Qed.

Lemma Rpower_sixth_cube (x : R) : 0 < x -> Rpower x (1/6) ^ 3 = sqrt x.
Proof.
  intro H. rewrite <- (Rpower_pow 3) by apply Rpower_pos.
  rewrite Rpower_mult. simpl INR.
  replace (1 / 6 * (1 + 1 + 1)) with (/ 2) by field.
  apply Rpower_sqrt; exact H.
Qed.

Lemma Rpower_neg_half (x : R) : 0 < x -> Rpower x (-1/2) = / sqrt x.
Proof.
  intro H. replace (-1 / 2) with (- / 2) by field.
  rewrite Rpower_Ropp, Rpower_sqrt by exact H. reflexivity.
Qed.

Lemma Rpower_neg_three_halves (x : R) :
  0 < x -> Rpower x (-3/2) = / (sqrt x ^ 3).
Proof.
  intro H. replace (-3 / 2) with (- (/ 2 * INR 3)) by (simpl; field).
  rewrite Rpower_Ropp, <- Rpower_mult, Rpower_pow by apply Rpower_pos.
  rewrite Rpower_sqrt by exact H. reflexivity.
Qed.

Lemma cos_3a (x : R) : cos (3 * x) = 4 * cos x ^ 3 - 3 * cos x.
Proof.
  replace (3 * x) with (2 * x + x) by ring.
  rewrite cos_plus, cos_2a_cos, sin_2a.
  pose proof (sin2_cos2 x) as H; unfold Rsqr in H.
  replace (2 * sin x * cos x * sin x) with (2 * cos x * (sin x * sin x)) by ring.
  replace (sin x * sin x) with (1 - cos x * cos x) by lra.
  ring.
Qed.

Lemma fpow_third (x : R) : 0 <= x -> fpow (Fin x) (1/3) = Fin (cbrt0 x).
Proof.
  intro H. unfold cbrt0, fpow.
  destruct (Rlt_dec 0 x); [reflexivity |].
  destruct (Rlt_dec x 0); [lra |].
  destruct (Rlt_dec 0 (1/3)); [reflexivity | lra].
Qed.

Lemma cbrt0_nonneg (x : R) : 0 <= cbrt0 x.
Proof.
  unfold cbrt0; destruct (Rlt_dec 0 x); [left; apply Rpower_pos | lra].
Qed.

Lemma cbrt0_cube (x : R) : 0 <= x -> cbrt0 x ^ 3 = x.
Proof.
  intro H; unfold cbrt0; destruct (Rlt_dec 0 x).
  - apply Rpower_third_cube; assumption.
  - replace x with 0 by lra. ring.
Qed.

(** Cardano, sum form: [u^3 + w^3 = 2q] and [u w = -p]. *)
Lemma cardano_sum (u w p q : R) :
  u ^ 3 + w ^ 3 = 2 * q -> u * w = - p ->
  (u + w) ^ 3 + 3 * p * (u + w) - 2 * q = 0.
Proof.
  intros H3 Hp.
  replace ((u + w) ^ 3) with (u ^ 3 + w ^ 3 + 3 * (u * w) * (u + w)) by ring.
  rewrite H3, Hp; ring.
Qed.

(** Cardano, difference form: [u^3 - w^3 = 2q] and [u w = p]. *)
Lemma cardano_diff (u w p q : R) :
  u ^ 3 - w ^ 3 = 2 * q -> u * w = p ->
  (u - w) ^ 3 + 3 * p * (u - w) - 2 * q = 0.
Proof.
  intros H3 Hp.
  replace ((u - w) ^ 3) with (u ^ 3 - w ^ 3 - 3 * (u * w) * (u - w)) by ring.
  rewrite H3, Hp; ring.
Qed.

(** Case A: [p >= 0], [q > 0]. *)
Lemma case_a_domain (p q : R) :
  0 <= p -> 0 < q ->
  let D := q * q + p * (p * p) in
  0 < D /\ q * Rpower D (-1/2) = q / sqrt D /\
  0 < q * Rpower D (-1/2) <= 1.
Proof.
  intros Hp Hq D.
  assert (HD : 0 < D) by (unfold D; nra).
  assert (Hs : 0 < sqrt D) by (apply sqrt_lt_R0; exact HD).
  assert (Hqs : q <= sqrt D).
  { rewrite <- (sqrt_square q) by lra. apply sqrt_le_1_alt. unfold D; nra. }
  rewrite Rpower_neg_half by exact HD.
  split; [exact HD | split; [reflexivity |]].
  split.
  - apply Rmult_lt_0_compat; [exact Hq | apply Rinv_0_lt_compat; exact Hs].
  - apply Rmult_le_reg_r with (sqrt D); [exact Hs |].
    rewrite Rmult_assoc, Rinv_l by lra. lra.
Qed.

Lemma case_a_cubic (p q : R) :
  0 <= p -> 0 < q ->
  mu0_a p q ^ 3 + 3 * p * mu0_a p q - 2 * q = 0.
Proof.
  intros Hp Hq. unfold mu0_a.
  destruct (case_a_domain p q Hp Hq) as (HD & HqD & Hlo & Hhi).
  set (D := q * q + p * (p * p)) in *.
  set (qD := q * Rpower D (-1/2)) in *.
  set (d := Rpower D (1/6)).
  set (a := cbrt0 (1 + qD)). set (b := cbrt0 (1 - qD)).
  assert (Hs : 0 < sqrt D) by (apply sqrt_lt_R0; exact HD).
  assert (Hd3 : d ^ 3 = sqrt D) by (apply Rpower_sixth_cube; exact HD).
  assert (Hd : 0 < d) by apply Rpower_pos.
  assert (Ha3 : a ^ 3 = 1 + qD) by (apply cbrt0_cube; lra).
  assert (Hb3 : b ^ 3 = 1 - qD) by (apply cbrt0_cube; lra).
  assert (Ha : 0 <= a) by apply cbrt0_nonneg.
  assert (Hb : 0 <= b) by apply cbrt0_nonneg.
  assert (Hsq : sqrt D * qD = q).
  { rewrite HqD. field. lra. }
  assert (Hss : sqrt D * sqrt D = D) by (apply sqrt_sqrt; lra).
  replace (d * (a - b)) with (d * a - d * b) by ring.
  apply cardano_diff.
  - replace ((d * a) ^ 3) with (d ^ 3 * a ^ 3) by ring.
    replace ((d * b) ^ 3) with (d ^ 3 * b ^ 3) by ring.
    rewrite Hd3, Ha3, Hb3. nra.
  - apply cube_inj_nonneg; [repeat apply Rmult_le_pos; lra | exact Hp |].
    replace ((d * a * (d * b)) ^ 3) with (d ^ 3 * d ^ 3 * (a ^ 3 * b ^ 3)) by ring.
    rewrite Hd3, Ha3, Hb3, Hss.
    assert (E : D * ((1 + qD) * (1 - qD)) = D - (sqrt D * qD) * (sqrt D * qD)).
    { replace (sqrt D * qD * (sqrt D * qD))
        with ((sqrt D * sqrt D) * (qD * qD)) by ring.
      rewrite Hss. ring. }
    rewrite E, Hsq. unfold D. ring.
Qed.

(** Case B: [p < 0], [q > 0], [q^2 - (-p)^3 >= 0]. *)
Lemma case_b_domain (p q : R) :
  p < 0 -> 0 < q ->
  let D := q * q - (- p) * ((- p) * (- p)) in
  0 <= D -> 0 < q + sqrt D /\ 0 < q - sqrt D.
Proof.
  intros Hp Hq D HD.
  assert (Hs : 0 <= sqrt D) by apply sqrt_pos.
  assert (Hlt : sqrt D < q).
  { rewrite <- (sqrt_square q) by lra. apply sqrt_lt_1_alt.
    split; [exact HD |]. unfold D.
    assert (0 < (- p) * ((- p) * (- p))) by (repeat apply Rmult_lt_0_compat; lra).
    lra. }
  lra.
Qed.

Lemma case_b_cubic (p q : R) :
  p < 0 -> 0 < q -> 0 <= q * q - (- p) * ((- p) * (- p)) ->
  mu0_b p q ^ 3 + 3 * p * mu0_b p q - 2 * q = 0.
Proof.
  intros Hp Hq HD. unfold mu0_b.
  destruct (case_b_domain p q Hp Hq HD) as [H1 H2].
  set (D := q * q - (- p) * ((- p) * (- p))) in *.
  assert (Hss : sqrt D * sqrt D = D) by (apply sqrt_sqrt; exact HD).
  set (u := cbrt0 (q + sqrt D)). set (w := cbrt0 (q - sqrt D)).
  assert (Hu3 : u ^ 3 = q + sqrt D) by (apply cbrt0_cube; lra).
  assert (Hw3 : w ^ 3 = q - sqrt D) by (apply cbrt0_cube; lra).
  assert (Hu : 0 <= u) by apply cbrt0_nonneg.
  assert (Hw : 0 <= w) by apply cbrt0_nonneg.
  apply cardano_sum.
  - rewrite Hu3, Hw3; ring.
  - apply cube_inj_nonneg; [apply Rmult_le_pos; assumption | lra |].
    replace ((u * w) ^ 3) with (u ^ 3 * w ^ 3) by ring.
    rewrite Hu3, Hw3.
    replace ((q + sqrt D) * (q - sqrt D)) with (q * q - sqrt D * sqrt D) by ring.
    rewrite Hss. unfold D. ring.
Qed.

(** Case C: [q > 0], [q^2 - (-p)^3 < 0]. *)
Lemma case_c_domain (p q : R) :
  0 < q -> q * q - (- p) * ((- p) * (- p)) < 0 ->
  0 < - p /\ q * Rpower (- p) (-3/2) = q / sqrt (- p) ^ 3 /\
  0 < q * Rpower (- p) (-3/2) < 1.
Proof.
  intros Hq HD.
  assert (Hp : 0 < - p).
  { destruct (Rlt_dec 0 (- p)) as [L | L]; [exact L | exfalso].
    assert ((- p) * ((- p) * (- p)) <= 0).
    { replace (- p * (- p * - p)) with (- (p * p * p)) by ring.
      assert (0 <= p) by lra. assert (0 <= p * p * p) by (repeat apply Rmult_le_pos; lra).
      lra. }
    nra. }
  assert (Hs : 0 < sqrt (- p)) by (apply sqrt_lt_R0; exact Hp).
  assert (Hss : sqrt (- p) * sqrt (- p) = - p) by (apply sqrt_sqrt; lra).
  assert (Hs3 : 0 < sqrt (- p) ^ 3) by (apply pow_lt; exact Hs).
  rewrite Rpower_neg_three_halves by exact Hp.
  split; [exact Hp | split; [reflexivity |]].
  split.
  - apply Rmult_lt_0_compat; [exact Hq | apply Rinv_0_lt_compat; exact Hs3].
  - apply Rmult_lt_reg_r with (sqrt (- p) ^ 3); [exact Hs3 |].
    rewrite Rmult_assoc, Rinv_l, Rmult_1_r, Rmult_1_l by lra.
    (* q < s^3 from q^2 < s^6 *)
    destruct (Rlt_dec q (sqrt (- p) ^ 3)) as [L | L]; [exact L | exfalso].
    assert (Hge : sqrt (- p) ^ 3 <= q) by lra.
    assert (sqrt (- p) ^ 3 * sqrt (- p) ^ 3 <= q * q) by nra.
    assert (sqrt (- p) ^ 3 * sqrt (- p) ^ 3 = (- p) * ((- p) * (- p))).
    { replace (sqrt (- p) ^ 3 * sqrt (- p) ^ 3)
        with ((sqrt (- p) * sqrt (- p)) * ((sqrt (- p) * sqrt (- p))
              * (sqrt (- p) * sqrt (- p)))) by ring.
      rewrite Hss. reflexivity. }
    lra.
Qed.

Lemma case_c_cubic (p q : R) :
  0 < q -> q * q - (- p) * ((- p) * (- p)) < 0 ->
  mu0_c p q ^ 3 + 3 * p * mu0_c p q - 2 * q = 0.
Proof.
  intros Hq HD. unfold mu0_c.
  destruct (case_c_domain p q Hq HD) as (Hp & Harg & Hlo & Hhi).
  set (x := q * Rpower (- p) (-3/2)) in *.
  set (s := sqrt (- p)) in *.
  assert (Hs : 0 < s) by (apply sqrt_lt_R0; exact Hp).
  assert (Hss : s * s = - p) by (apply sqrt_sqrt; lra).
  set (c := cos (acos x / 3)).
  assert (Hc : 4 * c ^ 3 - 3 * c = x).
  { unfold c. rewrite <- cos_3a.
    replace (3 * (acos x / 3)) with (acos x) by field.
    apply cos_acos; lra. }
  assert (Hq' : q = x * s ^ 3).
  { rewrite Harg. field. lra. }
  replace ((2 * s * c) ^ 3 + 3 * p * (2 * s * c) - 2 * q)
    with (2 * s * (s * s) * (4 * c ^ 3) + 6 * p * s * c - 2 * q) by ring.
  replace p with (- (s * s)) by lra.
  replace (4 * c ^ 3) with (x + 3 * c) by lra.
  rewrite Hq'. ring.
Qed.

End Cardano.

(* ================================================================== *)
(** ** UlrichEnvelope: the streamline root of [velrho] *)
(* ================================================================== *)

Section Velrho.
Import UlrichEnvelope UlrichReal.

Lemma eps_pos : 0 < eps.
Proof. unfold eps; lra. Qed.

Lemma clip_radius_pos (radius : R) : 0 < clip_radius radius.
Proof.
  unfold clip_radius. apply Rlt_le_trans with eps; [apply eps_pos | apply Rmax_r].
Qed.

Lemma clip_mu_bounds (theta : R) : eps <= clip_mu theta <= 1.
Proof.
  unfold clip_mu. pose proof eps_pos. split.
  - apply Rmin_glb; [apply Rmax_r | unfold eps; lra].
  - apply Rmin_r.
Qed.

Lemma coef_q_pos (radius theta : R) : 0 < coef_q radius theta.
Proof.
  unfold coef_q. pose proof (clip_radius_pos radius).
  pose proof (clip_mu_bounds theta). pose proof eps_pos.
  assert (0 < clip_mu theta * clip_radius radius) by (apply Rmult_lt_0_compat; lra).
  lra.
Qed.

Lemma velrho_pq_Fin (radius theta : R) :
  velrho_pq (Fin radius) (Fin theta)
  = (Fin (clip_radius radius), Fin (coef_p radius), Fin (coef_q radius theta)).
Proof.
  unfold velrho_pq. cbn [fcos fabs]. rewrite clip_lo_Fin, clip_Fin.
  cbn [fsub fadd fneg fmul].
  rewrite !fdiv_Fin by lra.
  reflexivity.
Qed.

Lemma velrho_D_Fin (radius theta : R) :
  velrho_D (Fin (coef_p radius)) (Fin (coef_q radius theta))
  = Fin (discr radius theta).
Proof.
  unfold velrho_D. cbn [fneg]. rewrite clip_lo_Fin.
  cbn [fsquare fcube fmul fsub fadd fneg].
  unfold discr. f_equal.
Qed.

(** above unity the second discriminant is [q^2 > 0]. *)
Lemma discr_above (radius theta : R) :
  1 <= clip_radius radius ->
  discr radius theta = coef_q radius theta * coef_q radius theta.
Proof.
  intro H. unfold discr.
  assert (Hp : 0 <= coef_p radius) by (unfold coef_p; lra).
  rewrite Rmax_right by lra. cbv zeta. ring.
Qed.

Lemma discr_below (radius theta : R) :
  clip_radius radius < 1 ->
  discr radius theta
  = coef_q radius theta * coef_q radius theta
    - (- coef_p radius) * ((- coef_p radius) * (- coef_p radius)).
Proof.
  intro H. unfold discr.
  assert (Hp : coef_p radius < 0) by (unfold coef_p; lra).
  rewrite Rmax_left by lra. reflexivity.
Qed.

Lemma discr_neg_below (radius theta : R) :
  discr radius theta < 0 -> clip_radius radius < 1.
Proof.
  intro H. destruct (Rlt_dec (clip_radius radius) 1) as [L | L]; [exact L |].
  rewrite discr_above in H by lra.
  pose proof (coef_q_pos radius theta). nra.
Qed.

(** The three masks of [velrho] on a finite sample, as decisions on the
    clipped radius and the discriminant. *)
Lemma velrho_masks (radius theta : R) :
  velrho_branch_a (Fin (clip_radius radius)) = Rleb 1 (clip_radius radius) /\
  velrho_branch_b (Fin (clip_radius radius)) (Fin (discr radius theta))
  = Rltb (clip_radius radius) 1 && Rleb 0 (discr radius theta) /\
  velrho_branch_c (Fin (discr radius theta)) = Rltb (discr radius theta) 0.
Proof. repeat split. Qed.

Lemma velrho_mu0_unfold (radius theta : R) :
  velrho_mu0 (Fin radius) (Fin theta)
  = let r := clip_radius radius in
    let p := coef_p radius in
    let q := coef_q radius theta in
    let D := discr radius theta in
    let m1 :=
      if Rleb 1 r then
        (fpow (Fin (q * q + p * (p * p))) (1/6)
         * (fpow (Fin 1 + Fin q * fpow (Fin (q * q + p * (p * p))) (-1/2)) (1/3)
            - fpow (Fin 1 - Fin q * fpow (Fin (q * q + p * (p * p))) (-1/2)) (1/3)))%fl
      else NaN in
    let m2 :=
      if Rltb r 1 && Rleb 0 D then
        (fpow (Fin q + fsqrt (Fin D)) (1/3) + fpow (Fin q - fsqrt (Fin D)) (1/3))%fl
      else m1 in
    if Rltb D 0 then
      (Fin 2 * fsqrt (Fin (Rmax (- p) 0))
       * fcos (farccos (Fin q * fpow (Fin (Rmax (- p) 0)) (-3/2)) / Fin 3))%fl
    else m2.
Proof.
  unfold velrho_mu0. rewrite velrho_pq_Fin. cbv beta iota zeta.
  rewrite velrho_D_Fin. cbn [fneg]. rewrite clip_lo_Fin.
  reflexivity.
Qed.

Lemma velrho_mu0_case_a (radius theta : R) :
  1 <= clip_radius radius ->
  velrho_mu0 (Fin radius) (Fin theta)
  = Fin (mu0_a (coef_p radius) (coef_q radius theta)).
Proof.
  intro Hr. rewrite velrho_mu0_unfold. cbv zeta.
  pose proof (coef_q_pos radius theta) as Hq.
  assert (Hp : 0 <= coef_p radius) by (unfold coef_p; lra).
  destruct (case_a_domain _ _ Hp Hq) as (HD & _ & Hlo & Hhi).
  rewrite (Rltb_false (discr radius theta) 0)
    by (rewrite discr_above by exact Hr; nra).
  rewrite (Rltb_false (clip_radius radius) 1) by exact Hr.
  rewrite (Rleb_true 1 (clip_radius radius)) by exact Hr.
  cbn [andb].
  rewrite !fpow_pos by exact HD.
  cbn [fmul fadd fsub fneg].
  rewrite !fpow_third by lra.
  unfold mu0_a. cbn [fmul fadd fsub fneg].
  reflexivity.
Qed.

Lemma velrho_mu0_case_b (radius theta : R) :
  clip_radius radius < 1 -> 0 <= discr radius theta ->
  velrho_mu0 (Fin radius) (Fin theta)
  = Fin (mu0_b (coef_p radius) (coef_q radius theta)).
Proof.
  intros Hr HD. rewrite velrho_mu0_unfold. cbv zeta.
  pose proof (coef_q_pos radius theta) as Hq.
  assert (Hp : coef_p radius < 0) by (unfold coef_p; lra).
  rewrite (Rltb_false (discr radius theta) 0) by exact HD.
  rewrite (Rltb_true (clip_radius radius) 1) by exact Hr.
  rewrite (Rleb_true 0 (discr radius theta)) by exact HD.
  cbn [andb].
  rewrite fsqrt_Fin by exact HD.
  cbn [fmul fadd fsub fneg].
  rewrite discr_below in * by exact Hr.
  destruct (case_b_domain _ _ Hp Hq HD) as [H1 H2].
  rewrite !fpow_third by (unfold Rminus in *; lra).
  cbn [fadd]. unfold mu0_b. f_equal.
Qed.

Lemma velrho_mu0_case_c (radius theta : R) :
  discr radius theta < 0 ->
  velrho_mu0 (Fin radius) (Fin theta)
  = Fin (mu0_c (coef_p radius) (coef_q radius theta)).
Proof.
  intro HD. rewrite velrho_mu0_unfold. cbv zeta.
  pose proof (coef_q_pos radius theta) as Hq.
  pose proof (discr_neg_below _ _ HD) as Hr.
  rewrite (Rltb_true (discr radius theta) 0) by exact HD.
  rewrite discr_below in HD by exact Hr.
  destruct (case_c_domain _ _ Hq HD) as (Hp & _ & Hlo & Hhi).
  rewrite Rmax_left by lra.
  rewrite fsqrt_Fin by lra. rewrite fpow_pos by exact Hp.
  cbn [fmul]. rewrite farccos_Fin by lra.
  rewrite fdiv_Fin by lra. cbn [fcos fmul].
  unfold mu0_c. reflexivity.
Qed.

(** On every finite sample the root is finite and solves the cubic
    [m^3 + 3 p m - 2 q = 0] of the clipped coefficients. *)
Lemma velrho_mu0_cubic (radius theta : R) :
  exists m : R,
    velrho_mu0 (Fin radius) (Fin theta) = Fin m /\
    m ^ 3 + 3 * coef_p radius * m - 2 * coef_q radius theta = 0.
Proof.
  pose proof (coef_q_pos radius theta) as Hq.
  destruct (Rle_lt_dec 1 (clip_radius radius)) as [Hr | Hr].
  - exists (mu0_a (coef_p radius) (coef_q radius theta)).
    split; [apply velrho_mu0_case_a; exact Hr |].
    apply case_a_cubic; [unfold coef_p; lra | exact Hq].
  - destruct (Rle_lt_dec 0 (discr radius theta)) as [HD | HD].
    + exists (mu0_b (coef_p radius) (coef_q radius theta)).
      split; [apply velrho_mu0_case_b; assumption |].
      apply case_b_cubic; [unfold coef_p; lra | exact Hq |].
      rewrite <- discr_below by exact Hr. exact HD.
    + exists (mu0_c (coef_p radius) (coef_q radius theta)).
      split; [apply velrho_mu0_case_c; assumption |].
      apply case_c_cubic; [exact Hq |].
      rewrite <- discr_below by exact Hr. exact HD.
Qed.

End Velrho.

Section VelrhoClaims.
Import UlrichEnvelope UlrichReal.



Lemma clip_radius_id (radius : R) : eps <= radius -> clip_radius radius = radius.
Proof. intro H; unfold clip_radius; apply Rmax_left; exact H. Qed.


(** In exact arithmetic the three branches of [velrho] are total.  For
    every sample with positive radius and [theta] in (0, pi): the three masks
    select the sample exactly once; [q > 0]; in the selected branch every
    base of a fractional power, every square root argument and the [arccos]
    argument lies in its real domain; and the [mu0] entry, initialised to
    NaN, ends as a finite real.  At radius 1 the bound
    [0 <= 1 - q / sqrt D1] of the first branch holds with equality (see
    [velrho_unit_radius_no_margin]), so that in double precision rounding
    decides it (see the section on double precision). *)
Lemma velrho_branches_total_exact (radius theta : R) :
  0 < radius -> 0 < theta < PI ->
  exists r p q D m : R,
    velrho_pq (Fin radius) (Fin theta) = (Fin r, Fin p, Fin q) /\
    velrho_D (Fin p) (Fin q) = Fin D /\
    0 < q /\
    (let a := velrho_branch_a (Fin r) in
     let b := velrho_branch_b (Fin r) (Fin D) in
     let c := velrho_branch_c (Fin D) in
     (a = true /\ b = false /\ c = false) \/
     (a = false /\ b = true /\ c = false) \/
     (a = false /\ b = false /\ c = true)) /\
    (velrho_branch_a (Fin r) = true ->
       let D1 := q * q + p * (p * p) in
       0 < D1 /\ q * Rpower D1 (-1/2) = q / sqrt D1 /\
       0 <= 1 + q / sqrt D1 /\ 0 <= 1 - q / sqrt D1) /\
    (velrho_branch_b (Fin r) (Fin D) = true ->
       D = q * q - (- p) ^ 3 /\ 0 <= D /\
       0 <= q + sqrt D /\ 0 <= q - sqrt D) /\
    (velrho_branch_c (Fin D) = true ->
       D = q * q - (- p) ^ 3 /\ 0 < - p /\
       Rabs (q * Rpower (- p) (-3/2)) < 1) /\
    velrho_mu0 (Fin radius) (Fin theta) = Fin m.
Proof.
  intros _ _.
  destruct (velrho_mu0_cubic radius theta) as (m & Hm & _).
  exists (clip_radius radius), (coef_p radius), (coef_q radius theta),
         (discr radius theta), m.
  pose proof (coef_q_pos radius theta) as Hq.
  destruct (velrho_masks radius theta) as (Ma & Mb & Mc).
  split; [apply velrho_pq_Fin |].
  split; [apply velrho_D_Fin |].
  split; [exact Hq |].
  rewrite Ma, Mb, Mc. cbv zeta.
  destruct (Rle_lt_dec 1 (clip_radius radius)) as [Hr | Hr].
  - (* radius >= 1 *)
    assert (Hp : 0 <= coef_p radius) by (unfold coef_p; lra).
    assert (HDpos : 0 < discr radius theta) by (rewrite discr_above by exact Hr; nra).
    rewrite (Rleb_true 1 _ Hr), (Rltb_false _ 1 Hr), (Rltb_false _ 0) by lra.
    cbn [andb].
    split; [left; repeat split |].
    split; [intros _ | split; [discriminate | split; [discriminate | exact Hm]]].
    destruct (case_a_domain _ _ Hp Hq) as (HD & HqD & Hlo & Hhi).
    rewrite HqD in Hlo, Hhi.
    split; [exact HD | split; [exact HqD | lra]].
  - assert (Hp : coef_p radius < 0) by (unfold coef_p; lra).
    rewrite (Rleb_false 1 _ Hr), (Rltb_true _ 1 Hr). cbn [andb].
    assert (HDeq : discr radius theta
                   = coef_q radius theta * coef_q radius theta
                     - (- coef_p radius) ^ 3).
    { rewrite discr_below by exact Hr. ring. }
    destruct (Rle_lt_dec 0 (discr radius theta)) as [HD | HD].
    + (* radius < 1, D >= 0 *)
      rewrite (Rleb_true 0 _ HD), (Rltb_false _ 0 HD).
      split; [right; left; repeat split |].
      split; [discriminate |].
      split; [intros _ | split; [discriminate | exact Hm]].
      split; [exact HDeq | split; [exact HD |]].
      assert (HD' := HD). rewrite discr_below in HD' by exact Hr.
      destruct (case_b_domain _ _ Hp Hq HD') as [H1 H2].
      rewrite discr_below by exact Hr. lra.
    + (* D < 0 *)
      rewrite (Rleb_false 0 _ HD), (Rltb_true _ 0 HD).
      split; [right; right; repeat split |].
      split; [discriminate |].
      split; [discriminate | split; [intros _ | exact Hm]].
      assert (HD' := HD). rewrite discr_below in HD' by exact Hr.
      destruct (case_c_domain _ _ Hq HD') as (Hpp & _ & Hlo & Hhi).
      split; [exact HDeq | split; [exact Hpp |]].
      apply Rabs_def1; lra.
Qed.

(** at radius 1 the base [1 - q D^(-1/2)] of the second cube root of the
    first branch is exactly 0 in real arithmetic, whatever the angle: any
    rounding of [q D^(-1/2)] above 1 makes it negative, and a negative base
    under the power [1/3] is NaN. *)
Lemma velrho_unit_radius_no_margin (theta : R) :
  exists q : R,
    velrho_pq (Fin 1) (Fin theta) = (Fin 1, Fin 0, Fin q) /\
    velrho_branch_a (Fin 1) = true /\
    (Fin 1 - Fin q * fpow (fsquare (Fin q) + fcube (Fin 0)) (-1/2))%fl = Fin 0 /\
    forall x : R, x < 0 -> fpow (Fin x) (1/3) = NaN.
Proof.
  pose proof (coef_q_pos 1 theta) as Hq.
  assert (Hr : clip_radius 1 = 1) by (apply clip_radius_id; unfold eps; lra).
  assert (Hp : coef_p 1 = 0) by (unfold coef_p; rewrite Hr; lra).
  exists (coef_q 1 theta).
  split; [rewrite velrho_pq_Fin, Hr, Hp; reflexivity |].
  split; [unfold velrho_branch_a; cbn [fge]; apply Rleb_true; lra |].
  split.
  - set (q := coef_q 1 theta) in *.
    cbn [fsquare fcube fmul fadd].
    assert (HD : 0 < q * q + 0 * (0 * 0)) by nra.
    rewrite fpow_pos by exact HD. cbn [fmul fsub fadd fneg].
    rewrite Rpower_neg_half by exact HD.
    replace (q * q + 0 * (0 * 0)) with (q * q) by ring.
    rewrite sqrt_square by lra.
    f_equal. field. lra.
  - intros x Hx. unfold fpow.
    destruct (Rlt_dec 0 x) as [L | _]; [lra |].
    destruct (Rlt_dec x 0) as [_ | L]; [reflexivity | lra].
Qed.





End VelrhoClaims.

(* ================================================================== *)
(** ** Sums of finite samples *)
(* ================================================================== *)

Section FiniteSums.
Import Np.

Lemma fsum_const (A : Type) (f : A -> fl) (c : R) (l : list A) :
  (forall a, In a l -> f a = Fin c) ->
  fsum (map f l) = Fin (INR (length l) * c).
Proof.
  induction l as [| a l IH]; intro H.
  - simpl. f_equal. lra.
  - cbn [map length fsum fold_right] in *. fold (fsum (map f l)).
    rewrite IH by (intros; apply H; right; assumption).
    rewrite (H a) by (left; reflexivity).
    cbn [fadd]. f_equal. rewrite S_INR. ring.
Qed.

Lemma fsum_app (l1 l2 : list fl) (a b : R) :
  fsum l1 = Fin a -> fsum l2 = Fin b -> fsum (l1 ++ l2) = Fin (a + b).
Proof.
  revert a. induction l1 as [| x l1 IH]; intros a H1 H2.
  - simpl in *. rewrite H2. injection H1 as <-. f_equal. lra.
  - cbn [app fsum fold_right] in *. fold (fsum l1) in H1. fold (fsum (l1 ++ l2)).
    destruct x as [x | | |]; destruct (fsum l1) as [s | | |] eqn:E;
      cbn [fadd] in H1; try discriminate.
    injection H1 as <-.
    rewrite (IH s eq_refl H2). cbn [fadd]. f_equal. ring.
Qed.

Lemma nth_tabulate (A : Type) (f : nat -> A) (n k : nat) (d : A) :
  (k < n)%nat -> nth k (map f (seq 0 n)) d = f k.
Proof.
  intro H. rewrite (nth_indep _ d (f 0%nat)) by (rewrite length_map, length_seq; exact H).
  rewrite map_nth, seq_nth by exact H. reflexivity.
Qed.

Lemma firstn_repeat_le (A : Type) (a : A) (n m : nat) :
  (n <= m)%nat -> firstn n (repeat a m) = repeat a n.
Proof.
  revert m; induction n as [| n IH]; intros m H; [reflexivity |].
  destruct m as [| m]; [lia |]. simpl. f_equal. apply IH. lia.
Qed.

Lemma skipn_repeat_le (A : Type) (a : A) (n m : nat) :
  skipn n (repeat a m) = repeat a (m - n).
Proof.
  revert m; induction n as [| n IH]; intros m.
  - rewrite Nat.sub_0_r. reflexivity.
  - destruct m as [| m]; [reflexivity |]. simpl. apply IH.
Qed.

Lemma nanmax_cons_Fin (x : R) (l : array1) :
  nanmax (Fin x :: l)
  = match nanmax l with
    | NaN => Fin x
    | acc => if fle acc (Fin x) then Fin x else acc
    end.
Proof. unfold nanmax. cbn [fold_right]. destruct (fold_right _ NaN l); reflexivity. Qed.

(** [np.nanmax] of finite samples is their largest. *)
Lemma nanmax_Fin (l : list R) :
  l <> [] ->
  exists m : R, nanmax (map Fin l) = Fin m /\ In m l /\ forall x, In x l -> x <= m.
Proof.
  induction l as [| a l IH]; intro Hne; [contradiction |].
  cbn [map]. rewrite nanmax_cons_Fin.
  destruct l as [| b l].
  - exists a. cbn. repeat split; [left; reflexivity |].
    intros x [<- | []]; lra.
  - destruct IH as (m & Hm & Hin & Hmax); [discriminate |].
    rewrite Hm. cbn [fle]. unfold Rleb.
    destruct (Rle_dec m a) as [L | L].
    + exists a. repeat split; [left; reflexivity |].
      intros x [<- | Hx]; [lra |]. specialize (Hmax x Hx). lra.
    + exists m. repeat split; [right; exact Hin |].
      intros x [<- | Hx]; [lra | apply Hmax; exact Hx].
Qed.

End FiniteSums.

(* ================================================================== *)
(** ** The nested grid: line integration of a constant field *)
(* ================================================================== *)

Section NestedGridIntegration.
Import Np NestedGrid.

Lemma sample_repeat (c : R) (n1 n2 n3 i j k : nat) :
  (i < n1)%nat -> (j < n2)%nat -> (k < n3)%nat ->
  sample (repeat (Fin c) (n1 * n2 * n3)) n2 n3 i j k = Fin c.
Proof.
  intros Hi Hj Hk. unfold sample. apply nth_repeat_lt.
  assert (A : (i * n2 + j + 1 <= n1 * n2)%nat) by nia.
  assert (B : ((i * n2 + j + 1) * n3 <= n1 * n2 * n3)%nat)
    by (apply Nat.mul_le_mono_r; exact A).
  lia.
Qed.

Lemma nsamples_ge (lvls : list level) (n1 n2 n3 : nat) :
  (n1 * n2 * n3 <= nsamples n1 n2 n3 lvls)%nat.
Proof. destruct lvls; simpl; lia. Qed.

Lemma tabulate2_ext (n1 n2 : nat) (f g : nat -> nat -> fl) :
  (forall i j, (i < n1)%nat -> (j < n2)%nat -> f i j = g i j) ->
  tabulate2 n1 n2 f = tabulate2 n1 n2 g.
Proof.
  intro H. unfold tabulate2.
  apply map_ext_in; intros i Hi. apply map_ext_in; intros j Hj.
  apply in_seq in Hi, Hj. apply H; lia.
Qed.

Lemma tabulate2_nth (n1 n2 : nat) (f : nat -> nat -> fl) (i j : nat) :
  (i < n1)%nat -> (j < n2)%nat ->
  nth j (nth i (tabulate2 n1 n2 f) []) NaN = f i j.
Proof.
  intros Hi Hj. unfold tabulate2.
  rewrite nth_tabulate by exact Hi. apply nth_tabulate; exact Hj.
Qed.

Lemma fsum_const2 (A B : Type) (g : A -> B -> fl) (x : R)
    (la : list A) (lb : list B) :
  (forall a b, In a la -> In b lb -> g a b = Fin x) ->
  fsum (concat (map (fun a => map (g a) lb) la))
  = Fin (INR (length la * length lb) * x).
Proof.
  induction la as [| a la IH]; intro H.
  - simpl. f_equal. lra.
  - cbn [map concat length].
    rewrite (fsum_app _ _ (INR (length lb) * x) (INR (length la * length lb) * x)).
    + f_equal. rewrite <- Rmult_plus_distr_r, <- plus_INR. reflexivity.
    + apply fsum_const. intros b Hb. apply H; [left; reflexivity | exact Hb].
    + apply IH. intros a' b Ha Hb. apply H; [right; exact Ha | exact Hb].
Qed.

(** the block mean of a constant map is the constant. *)
Lemma block_mean_const (n m1 m2 i j : nat) (x : R) :
  (0 < n)%nat -> (i < m1)%nat -> (j < m2)%nat ->
  block_mean n (tabulate2 (n * m1) (n * m2) (fun _ _ => Fin x)) i j = Fin x.
Proof.
  intros Hn Hi Hj. unfold block_mean.
  rewrite (fsum_const2 _ _ _ x).
  - rewrite length_seq, fdiv_Fin.
    + f_equal. field. apply not_0_INR. nia.
    + apply not_0_INR. nia.
  - intros a b Ha Hb. apply in_seq in Ha, Hb.
    apply tabulate2_nth; nia.
Qed.

(** The line integral of a constant field over a well-nested grid is the
    constant times the length of the path, at every pixel of the coarsest
    level. *)
Lemma integrate_level_const (c : R) (lvls : list level) :
  forall (n1 n2 n3 : nat) (h : R),
    nested_ok n1 n2 n3 lvls ->
    integrate_level n1 n2 n3 (Fin h) lvls
      (repeat (Fin c) (nsamples n1 n2 n3 lvls))
    = tabulate2 n1 n2 (fun _ _ => Fin (c * (INR n3 * h))).
Proof.
  induction lvls as [| lv rest IH]; intros n1 n2 n3 h Hok.
  - cbn [integrate_level nsamples].
    rewrite firstn_repeat_le by lia.
    apply tabulate2_ext; intros i j Hi Hj.
    rewrite (fsum_const _ _ c).
    + rewrite length_seq. cbn [fmul]. f_equal. ring.
    + intros k Hk. apply in_seq in Hk. apply sample_repeat; lia.
  - cbn [nested_ok] in Hok. destruct Hok as (Hn & Hx & Hy & Hz & Hrest).
    cbn [integrate_level nsamples].
    rewrite firstn_repeat_le by lia.
    rewrite skipn_repeat_le.
    replace (n1 * n2 * n3
             + nsamples (nsub lv * ext_x lv) (nsub lv * ext_y lv)
                 (nsub lv * ext_z lv) rest - n1 * n2 * n3)%nat
      with (nsamples (nsub lv * ext_x lv) (nsub lv * ext_y lv)
              (nsub lv * ext_z lv) rest) by lia.
    assert (Hn0 : INR (nsub lv) <> 0) by (apply not_0_INR; lia).
    rewrite fdiv_Fin by exact Hn0.
    rewrite IH by exact Hrest.
    apply tabulate2_ext; intros i j Hi Hj.
    destruct (in_range (off_x lv) (ext_x lv) i && in_range (off_y lv) (ext_y lv) j)
      eqn:Hin.
    + apply andb_prop in Hin. destruct Hin as [Hi' Hj'].
      unfold in_range in Hi', Hj'.
      apply andb_prop in Hi', Hj'.
      destruct Hi' as [Hi1 Hi2]. destruct Hj' as [Hj1 Hj2].
      apply Nat.leb_le in Hi1, Hj1. apply Nat.ltb_lt in Hi2, Hj2.
      rewrite block_mean_const by lia.
      rewrite (fsum_const _ _ c).
      * rewrite length_app, !length_seq. cbn [fmul fadd]. f_equal.
        rewrite plus_INR, minus_INR, plus_INR, !mult_INR by lia.
        field. exact Hn0.
      * intros k Hk. apply in_app_or in Hk.
        apply sample_repeat; [lia | lia |].
        destruct Hk as [Hk | Hk]; apply in_seq in Hk; lia.
    + rewrite (fsum_const _ _ c).
      * rewrite length_seq. cbn [fmul]. f_equal. ring.
      * intros k Hk. apply in_seq in Hk. apply sample_repeat; lia.
Qed.

(** C2.  For every nested grid (of two levels, of three, of any number)
    whose boxes lie inside their parents, and every field that is the
    constant [c] at every sample of every level, [integrate_along] over the
    line of sight of physical length [L = nz * dz] gives [c * L] at every
    output pixel, wherever the nested boxes sit on the path: no part of the
    path is counted by two levels. *)
Theorem integrate_along_constant_field (g : Nested3DGrid) (c h : R) (i j : nat) :
  dz g = Fin h ->
  nested_ok (nx g) (ny g) (nz g) (levels g) ->
  (i < nx g)%nat -> (j < ny g)%nat ->
  let field := repeat (Fin c) (nsamples (nx g) (ny g) (nz g) (levels g)) in
  let L := INR (nz g) * h in
  nth j (nth i (integrate_along1 g field) []) NaN = Fin (c * L).
Proof.
  intros Hdz Hok Hi Hj. cbv zeta. unfold integrate_along1.
  rewrite Hdz, integrate_level_const by exact Hok.
  apply tabulate2_nth; assumption.
Qed.

Lemma integrate_along_constant_field_witness :
  nth 1 (nth 1 (NestedGrid.integrate_along1 Examples.grid3
                  (repeat (Fin 5)
                     (nsamples (nx Examples.grid3) (ny Examples.grid3)
                        (nz Examples.grid3) (levels Examples.grid3)))) []) NaN
  = Fin (5 * (INR (nz Examples.grid3) * 2)).
Proof.
  apply (integrate_along_constant_field Examples.grid3 5 2 1 1).
  - reflexivity.
  - cbn. repeat split; lia.
  - cbn; lia.
  - cbn; lia.
Defined.

End NestedGridIntegration.

(* ================================================================== *)
(** ** [generate_pvd] on the small grid *)
(* ================================================================== *)

Section PipelineExamples.
Import Py Np Mockpvd Examples.

Ltac decide_cmp :=
  repeat match goal with
  | |- context [Rleb ?a ?b] =>
      first [rewrite (Rleb_true a b) by lra | rewrite (Rleb_false a b) by lra]
  | |- context [Rltb ?a ?b] =>
      first [rewrite (Rltb_true a b) by lra | rewrite (Rltb_false a b) by lra]
  end.

Lemma kernel_facts (lw : R) :
  lw <> 0 ->
  0 < kernel_b lw < kernel_a lw /\
  kernel_a lw + kernel_b lw = 1 /\
  kernel_b lw / kernel_a lw = exp (- (1 / (lw * lw))).
Proof.
  intro H. unfold kernel_a, kernel_b.
  set (e := exp (- (1 / (lw * lw)))).
  assert (He : 0 < e) by apply exp_pos.
  assert (He1 : e < 1).
  { unfold e. apply Rlt_le_trans with (exp 0); [| rewrite exp_0; lra].
    apply exp_increasing.
    assert (0 < lw * lw) by (apply (Rsqr_pos_lt lw H)).
    assert (0 < 1 / (lw * lw)) by (apply Rdiv_lt_0_compat; lra). lra. }
  assert (Hs : 0 < / (1 + e)) by (apply Rinv_0_lt_compat; lra).
  unfold Rdiv. repeat split.
  - apply Rmult_lt_0_compat; lra.
  - apply Rmult_lt_compat_r; lra.
  - field; lra.
  - field; lra.
Qed.

(** the spectral kernel of the two-channel axis. *)
Lemma spectral_kernel_two (lw : R) :
  lw <> 0 ->
  spectral_kernel [Fin 0; Fin 1] (Fin lw) = [Fin (kernel_a lw); Fin (kernel_b lw)].
Proof.
  intro H.
  assert (H2 : lw * lw <> 0) by (apply Rgt_not_eq, (Rsqr_pos_lt lw H)).
  cbv [spectral_kernel List.length Nat.div Nat.divmod Nat.sub Nat.add Nat.modulo
       nth map normalize1 fsum fold_right fst snd].
  cbn [fsub fadd fneg fsquare fmul].
  rewrite !fdiv_Fin by exact H2.
  cbn [fexp fadd].
  replace (- ((0 + - 0) * (0 + - 0)) / (lw * lw)) with 0 by (field; exact H).
  replace (- ((1 + - 0) * (1 + - 0)) / (lw * lw)) with (- (1 / (lw * lw)))
    by (field; exact H).
  rewrite exp_0.
  pose proof (exp_pos (- (1 / (lw * lw)))) as He.
  rewrite !fdiv_Fin by lra.
  unfold kernel_a, kernel_b. repeat f_equal; lra.
Qed.

(** the cached kernel is the one the step convolves with; when the cache
    is empty the kernel of the call is built and stored. *)
Lemma spectral_step_cached (st : precalc) (v : array1) (lw : fl)
    (tau_v : array3) (g : array1) :
  gauss_v st = Some g ->
  spectral_step st v lw tau_v = (conv_same_axis0 tau_v g, st).
Proof. intro H. unfold spectral_step. rewrite H. reflexivity. Qed.

Lemma spectral_step_fresh (st : precalc) (v : array1) (lw : fl) (tau_v : array3) :
  gauss_v st = None ->
  spectral_step st v lw tau_v
  = (conv_same_axis0 tau_v (spectral_kernel v lw),
     set_gauss_v st (spectral_kernel v lw)).
Proof. intro H. unfold spectral_step. rewrite H. reflexivity. Qed.

(** convolving the cube of the last channel with a two-weight kernel. *)
Lemma conv_tau_last_channel (a b : R) :
  conv_same_axis0 tau_last_channel [Fin a; Fin b]
  = [ [ [Fin 0; Fin 0; Fin 0]; [Fin 0; Fin 0; Fin 0] ];
      [ [Fin (2 * a); Fin (2 * a); Fin (2 * a)];
        [Fin (2 * a); Fin (2 * a); Fin (2 * a)] ] ].
Proof.
  cbv [tau_last_channel conv_same_axis0 conv_same_1d mapi column wsum tap List.length
       Nat.sub Nat.div Nat.divmod fst snd nth_error nth combine seq map Nat.add
       Nat.leb fsum fold_right fmul fadd].
  replace (0 * a + (0 + 0)) with 0 by ring.
  replace (2 * a + (0 * b + 0)) with (2 * a) by ring.
  reflexivity.
Qed.

(** C5 fails on the code.  On the two-channel axis [v = [0, 1]] with
    [linewidth = 1], the cube whose whole optical depth sits in the last
    channel sums to 12 before the convolution and to [12 / (1 + exp (-1))]
    after it: the weight that "same"-mode convolution moves past the last
    channel is dropped. *)
Theorem spectral_step_drops_edge_weight :
  let out := fst (spectral_step precalc_init [Fin 0; Fin 1] (Fin 1) tau_last_channel) in
  sum3 tau_last_channel = Fin 12 /\
  sum3 out = Fin (12 / (1 + exp (-1))) /\
  sum3 out <> sum3 tau_last_channel.
Proof.
  cbv zeta. rewrite spectral_step_fresh by reflexivity. cbn [fst].
  rewrite spectral_kernel_two by lra.
  rewrite conv_tau_last_channel.
  assert (S1 : sum3 tau_last_channel = Fin 12).
  { cbv [sum3 flatten3 flatten2 tau_last_channel map concat app fsum fold_right fadd].
    f_equal. lra. }
  assert (S2 : sum3 [ [ [Fin 0; Fin 0; Fin 0]; [Fin 0; Fin 0; Fin 0] ];
                      [ [Fin (2 * kernel_a 1); Fin (2 * kernel_a 1); Fin (2 * kernel_a 1)];
                        [Fin (2 * kernel_a 1); Fin (2 * kernel_a 1); Fin (2 * kernel_a 1)] ] ]
               = Fin (12 / (1 + exp (-1)))).
  { cbv [sum3 flatten3 flatten2 map concat app fsum fold_right fadd].
    f_equal. unfold kernel_a.
    replace (- (1 / (1 * 1))) with (-1) by lra.
    pose proof (exp_pos (-1)). field. lra. }
  split; [exact S1 | split; [exact S2 |]].
  rewrite S1, S2. intro E.
  assert (E' : 12 / (1 + exp (-1)) = 12) by congruence.
  pose proof (exp_pos (-1)) as He.
  assert (M : 12 / (1 + exp (-1)) * (1 + exp (-1)) = 12) by (field; lra).
  rewrite E' in M. lra.
Qed.

(** *** the stages of [generate_pvd] on [self0] *)

Ltac eval_tau :=
  cbv [NestedGrid.rho2rhocube vedge edges0 bin_edges map app last
       fmul fsub fadd fneg];
  cbv [NestedGrid.deposit ones uniform List.length Nat.sub seq map repeat combine
       nth fst snd fle flt];
  decide_cmp; cbn [andb];
  cbv [NestedGrid.integrate_along NestedGrid.integrate_along1 grid0 NestedGrid.nx
       NestedGrid.ny NestedGrid.nz NestedGrid.dz NestedGrid.levels
       NestedGrid.integrate_level NestedGrid.tabulate2 NestedGrid.sample
       firstn Nat.mul Nat.add map seq nth fsum fold_right fadd fmul cube2];
  replace ((1 + (1 + 0)) * 1) with 2 by ring;
  replace ((0 + (0 + 0)) * 1) with 0 by ring.

Lemma tau_uniform_0 (st : precalc) :
  vedge st = Some edges0 ->
  NestedGrid.integrate_along grid0 (NestedGrid.rho2rhocube st (uniform 0) ones)
  = cube2 (Fin 2) (Fin 0).
Proof. intro H. unfold NestedGrid.rho2rhocube. rewrite H. eval_tau. reflexivity. Qed.

Lemma tau_uniform_1 (st : precalc) :
  vedge st = Some edges0 ->
  NestedGrid.integrate_along grid0 (NestedGrid.rho2rhocube st (uniform 1) ones)
  = tau_last_channel.
Proof. intro H. unfold NestedGrid.rho2rhocube. rewrite H. eval_tau. reflexivity. Qed.


Lemma conv_cube2 (x y a b : R) :
  conv_same_axis0 (cube2 (Fin x) (Fin y)) [Fin a; Fin b]
  = cube2 (Fin (x * a)) (Fin (y * a + x * b)).
Proof.
  cbv [cube2 conv_same_axis0 conv_same_1d mapi column wsum tap List.length
       Nat.sub Nat.div Nat.divmod fst snd nth_error nth combine seq map Nat.add
       Nat.leb fsum fold_right fmul fadd].
  replace (x * a + (0 + 0)) with (x * a) by ring.
  replace (y * a + (x * b + 0)) with (y * a + x * b) by ring.
  reflexivity.
Qed.

Lemma nanmax_cube2 (x y : R) :
  y <= x -> nanmax (flatten3 (cube2 (Fin x) (Fin y))) = Fin x.
Proof.
  intro H.
  change (flatten3 (cube2 (Fin x) (Fin y)))
    with (map Fin [x; x; x; x; x; x; y; y; y; y; y; y]).
  destruct (nanmax_Fin [x; x; x; x; x; x; y; y; y; y; y; y]) as (m & Hm & Hin & Hmax);
    [discriminate |].
  rewrite Hm. f_equal.
  assert (x <= m) by (apply Hmax; left; reflexivity).
  cbn [In] in Hin. intuition lra.
Qed.

Lemma intensity_cube2 (x y tm : R) :
  y <= x -> x <> 0 ->
  intensity (cube2 (Fin x) (Fin y)) (Fin tm)
  = Ok (cube2 (Fin (1 - exp (- x / x * tm))) (Fin (1 - exp (- y / x * tm)))).
Proof.
  intros H H0. unfold intensity. rewrite nanmax_cube2 by exact H.
  cbv [cube2 flatten3 flatten2 concat app map3d map2d map]. cbn [fneg].
  rewrite !fdiv_Fin by exact H0.
  reflexivity.
Qed.


Lemma slice_cube2 (p q : fl) :
  slice_y 1 (cube2 p q) = Ok [[p; p]; [q; q]].
Proof. reflexivity. Qed.

(** [generate_pvd] on [self0] without a beam, stage by stage. *)
Lemma generate_pvd_self0 (st : precalc) (rho vlos : array1) (tm : fl)
    (lw : option fl) (pa : fl) :
  Pipeline.generate_pvd self0 st rho vlos tm None lw pa
  = let st1 := match vedge st with
               | None => set_vedge st edges0
               | Some _ => st
               end in
    let tau := NestedGrid.integrate_along grid0
                 (NestedGrid.rho2rhocube st1 vlos rho) in
    let ts := match lw with
              | Some l => spectral_step st1 [Fin 0; Fin 1] l tau
              | None => (tau, st1)
              end in
    (bind (intensity (fst ts) tm) (slice_y 1), snd ts).
Proof.
  unfold Pipeline.generate_pvd, generate_pvd.
  cbn [self0 self_v grid grid0 NestedGrid.ny nsubgrid].
  fold grid0. fold edges0.
  cbv zeta.
  destruct lw as [l |].
  - destruct (spectral_step _ _ l _) as [tau' st2]. cbn [fst snd].
    destruct (intensity tau' tm) as [I_cube | e]; [| reflexivity].
    cbn [bind]. change (3 / 2)%nat with 1%nat.
    destruct (slice_y 1 I_cube); reflexivity.
  - cbn [fst snd].
    destruct (intensity _ tm) as [I_cube | e]; [| reflexivity].
    cbn [bind]. change (3 / 2)%nat with 1%nat.
    destruct (slice_y 1 I_cube); reflexivity.
Qed.

(** one call with a line width on [self0]: the kernel [a, b] in effect is
    the cached one, or the one of the call when the cache is empty. *)
Lemma call_linewidth_value (st : precalc) (lw a b : R) :
  vedge st = None \/ vedge st = Some edges0 ->
  gauss_v st = Some [Fin a; Fin b] \/
  (gauss_v st = None /\ lw <> 0 /\ a = kernel_a lw /\ b = kernel_b lw) ->
  0 < b < a ->
  call_linewidth lw st
  = (Ok [ [Fin (1 - exp (-1)); Fin (1 - exp (-1))];
          [Fin (1 - exp (- (b / a))); Fin (1 - exp (- (b / a)))] ],
     {| vedge := Some edges0; gauss_v := Some [Fin a; Fin b];
        gauss_xy := gauss_xy st |}).
Proof.
  intros Hve Hg Hab. unfold call_linewidth. rewrite generate_pvd_self0.
  destruct st as [ve gv gxy]. cbn [vedge gauss_v gauss_xy] in *.
  assert (E : (let st1 := match ve with
                          | None => set_vedge {| vedge := ve; gauss_v := gv; gauss_xy := gxy |} edges0
                          | Some _ => {| vedge := ve; gauss_v := gv; gauss_xy := gxy |}
                          end in st1)
              = {| vedge := Some edges0; gauss_v := gv; gauss_xy := gxy |}).
  { destruct Hve as [-> | ->]; reflexivity. }
  cbv zeta in E |- *. rewrite E.
  rewrite tau_uniform_0 by reflexivity.
  assert (S : spectral_step {| vedge := Some edges0; gauss_v := gv; gauss_xy := gxy |}
                [Fin 0; Fin 1] (Fin lw) (cube2 (Fin 2) (Fin 0))
              = (cube2 (Fin (2 * a)) (Fin (0 * a + 2 * b)),
                 {| vedge := Some edges0; gauss_v := Some [Fin a; Fin b];
                    gauss_xy := gxy |})).
  { destruct Hg as [-> | (-> & Hlw & -> & ->)].
    - rewrite (spectral_step_cached _ _ _ _ [Fin a; Fin b]) by reflexivity.
      rewrite conv_cube2. reflexivity.
    - rewrite spectral_step_fresh by reflexivity.
      rewrite spectral_kernel_two by exact Hlw.
      rewrite conv_cube2. reflexivity. }
  rewrite S. cbn [fst snd].
  rewrite intensity_cube2 by lra. cbn [bind].
  rewrite slice_cube2.
  replace (- (2 * a) / (2 * a) * 1) with (-1) by (field; lra).
  replace (- (0 * a + 2 * b) / (2 * a) * 1) with (- (b / a)) by (field; lra).
  reflexivity.
Qed.

(** with a kernel in the cache, [generate_pvd] never looks at its
    [linewidth] argument, on any grid. *)
Lemma generate_pvd_ignores_linewidth
    (G : Type) (gny : G -> nat) (ia : G -> array2 -> array3)
    (r2c : precalc -> array1 -> array1 -> array2)
    (self : MockPVD G) (st : precalc) (rho vlos : array1) (tm : fl)
    (beam : option (fl * fl * fl)) (lw lw' pa : fl) (g : array1) :
  gauss_v st = Some g ->
  generate_pvd G gny ia r2c self st rho vlos tm beam (Some lw) pa
  = generate_pvd G gny ia r2c self st rho vlos tm beam (Some lw') pa.
Proof.
  intro Hg. unfold generate_pvd.
  destruct (self_v G self) as [| v0 [| v1 vs]]; [reflexivity | reflexivity |].
  set (st1 := match vedge st with
              | Some _ => st
              | None => set_vedge st (bin_edges (v0 :: v1 :: vs) (v1 - v0)%fl)
              end).
  assert (Hg1 : gauss_v st1 = Some g).
  { unfold st1. destruct (vedge st); [exact Hg | exact Hg]. }
  rewrite !(spectral_step_cached st1 _ _ _ g) by exact Hg1.
  reflexivity.
Qed.

(** C4 fails on the code.  The same call
    [generate_pvd(rho, vlos, taumax=1., linewidth=2.)] on the same object
    returns one array from fresh caches and another after an earlier call
    with [linewidth=1.]: the kernel cached by the earlier call is used
    again. *)
Theorem generate_pvd_depends_on_history :
  let fresh := call_linewidth 2 precalc_init in
  let stale := call_linewidth 2 (snd (call_linewidth 1 precalc_init)) in
  fst fresh
  = Ok [ [Fin (1 - exp (-1)); Fin (1 - exp (-1))];
         [Fin (1 - exp (- exp (- (1 / (2 * 2)))));
          Fin (1 - exp (- exp (- (1 / (2 * 2)))))] ] /\
  fst stale
  = Ok [ [Fin (1 - exp (-1)); Fin (1 - exp (-1))];
         [Fin (1 - exp (- exp (- (1 / (1 * 1)))));
          Fin (1 - exp (- exp (- (1 / (1 * 1)))))] ] /\
  fst fresh <> fst stale.
Proof.
  cbv zeta.
  destruct (kernel_facts 1) as (H1 & _ & R1); [lra |].
  destruct (kernel_facts 2) as (H2 & _ & R2); [lra |].
  assert (F : fst (call_linewidth 2 precalc_init)
              = Ok [ [Fin (1 - exp (-1)); Fin (1 - exp (-1))];
                     [Fin (1 - exp (- exp (- (1 / (2 * 2)))));
                      Fin (1 - exp (- exp (- (1 / (2 * 2)))))] ]).
  { rewrite (call_linewidth_value precalc_init 2 (kernel_a 2) (kernel_b 2)).
    - cbn [fst]. rewrite R2. reflexivity.
    - left; reflexivity.
    - right. repeat split; lra.
    - exact H2. }
  assert (S : fst (call_linewidth 2 (snd (call_linewidth 1 precalc_init)))
              = Ok [ [Fin (1 - exp (-1)); Fin (1 - exp (-1))];
                     [Fin (1 - exp (- exp (- (1 / (1 * 1)))));
                      Fin (1 - exp (- exp (- (1 / (1 * 1)))))] ]).
  { rewrite (call_linewidth_value precalc_init 1 (kernel_a 1) (kernel_b 1)).
    - cbn [snd].
      rewrite (call_linewidth_value _ 2 (kernel_a 1) (kernel_b 1)).
      + cbn [fst]. rewrite R1. reflexivity.
      + right; reflexivity.
      + left; reflexivity.
      + exact H1.
    - left; reflexivity.
    - right. repeat split; lra.
    - exact H1. }
  split; [exact F | split; [exact S |]].
  rewrite F, S. intro E.
  assert (E' : exp (- exp (- (1 / (2 * 2)))) = exp (- exp (- (1 / (1 * 1))))).
  { injection E as E1 _. lra. }
  apply exp_inv in E'.
  assert (E2 : exp (- (1 / (2 * 2))) = exp (- (1 / (1 * 1)))) by lra.
  apply exp_inv in E2. lra.
Qed.

End PipelineExamples.

(* ================================================================== *)
(** ** [generate_mockpvd]: the axis check *)
(* ================================================================== *)

Section AxisCheck.
Import Py Np Mockpvd.

(** C6 (amended).  Called with an axis that is none of 'major', 'minor'
    and 'both', [generate_mockpvd] prints one line, the message
    "ERROR\tgenerate_mockpvd: axis input must be 'major', 'minor' or
    'both'.", and returns the integer 0: no exception is raised, no model is
    built and the caches are left as they were. *)
Theorem generate_mockpvd_invalid_axis
    (G : Type) (gny : G -> nat) (ia : G -> array2 -> array3)
    (r2c : precalc -> array1 -> array1 -> array2)
    (build : MockPVD G -> precalc -> fl -> fl -> fl -> fl -> fl -> fl ->
             option fl -> string -> bool -> result (array1 * array1) * precalc)
    (self : MockPVD G) (st : precalc)
    (Mstar Rc alphainfall taumax frho incl : fl) (pa : pa_arg)
    (linewidth : option fl) (rin : fl) (rout : option fl) (axis : string) :
  axis <> "major"%string -> axis <> "minor"%string -> axis <> "both"%string ->
  generate_mockpvd G gny ia r2c build self st Mstar Rc alphainfall taumax frho
    incl pa linewidth rin rout axis
  = ([axis_error_message], Ok (PyInt 0), st).
Proof.
  intros H1 H2 H3. unfold generate_mockpvd. cbn [existsb].
  apply String.eqb_neq in H1, H2, H3. rewrite H1, H2, H3. reflexivity.
Qed.

Lemma generate_mockpvd_invalid_axis_witness :
  Examples.call_mockpvd "diagonal" = ([axis_error_message], Ok (PyInt 0), precalc_init).
Proof.
  apply (generate_mockpvd_invalid_axis NestedGrid.Nested3DGrid NestedGrid.ny
           NestedGrid.integrate_along NestedGrid.rho2rhocube Examples.build0
           Examples.self0 precalc_init (Fin 1) (Fin 100) (Fin 1) (Fin 1) (Fin 1)
           (Fin 89) (PaFloat (Fin 0)) None (Fin 1) None "diagonal");
    discriminate.
Defined.

(** C6 as stated fails: for [axis='diagonal'] the caller receives the
    value 0, not an exception. *)
Lemma generate_mockpvd_returns_zero_counterexample :
  snd (fst (Examples.call_mockpvd "diagonal")) = Ok (PyInt 0) /\
  ~ (exists e : exn, snd (fst (Examples.call_mockpvd "diagonal")) = Raise e).
Proof.
  split; [reflexivity |]. intros [e He]. discriminate He.
Qed.

End AxisCheck.

(* ================================================================== *)
(** ** The fit-result table: writing and reading back *)
(* ================================================================== *)

Section TextLemmas.
Import Text.
Local Open Scope string_scope.

Lemma append_assoc_s (a b c : string) : (a ++ b) ++ c = a ++ (b ++ c).
Proof. induction a as [| x a IH]; simpl; [reflexivity | rewrite IH; reflexivity]. Qed.

Lemma append_nil_r (a : string) : a ++ "" = a.
Proof. induction a as [| x a IH]; simpl; [reflexivity | rewrite IH; reflexivity]. Qed.

Lemma string_forall_app (p : ascii -> bool) (a b : string) :
  string_forall p (a ++ b) = string_forall p a && string_forall p b.
Proof.
  induction a as [| x a IH]; simpl; [reflexivity |].
  rewrite IH, andb_assoc. reflexivity.
Qed.

Lemma string_forall_impl (p q : ascii -> bool) (s : string) :
  (forall c, p c = true -> q c = true) ->
  string_forall p s = true -> string_forall q s = true.
Proof.
  intro H. induction s as [| c s IH]; simpl; [reflexivity |].
  intro E. apply andb_prop in E. destruct E as [E1 E2].
  rewrite (H c E1), (IH E2). reflexivity.
Qed.

(** a piece without separators is read in one go. *)
Lemma split_at_clean (p : ascii -> bool) (t cur rest : string) :
  string_forall (fun c => negb (p c)) t = true ->
  split_at p cur (t ++ rest) = split_at p (cur ++ t) rest.
Proof.
  revert cur. induction t as [| c t IH]; intros cur H.
  - simpl. rewrite append_nil_r. reflexivity.
  - simpl in H. apply andb_prop in H. destruct H as [Hc Ht].
    simpl. apply negb_true_iff in Hc. rewrite Hc.
    rewrite IH by exact Ht. rewrite append_assoc_s. reflexivity.
Qed.

Lemma split_at_piece (p : ascii -> bool) (t : string) (c : ascii) (rest : string) :
  string_forall (fun c => negb (p c)) t = true -> p c = true ->
  split_at p "" (t ++ String c rest) = t :: split_at p "" rest.
Proof.
  intros Ht Hc. rewrite split_at_clean by exact Ht. simpl. rewrite Hc. reflexivity.
Qed.

Lemma split_at_last (p : ascii -> bool) (t : string) :
  string_forall (fun c => negb (p c)) t = true ->
  split_at p "" t = [t].
Proof.
  intro Ht. rewrite <- (append_nil_r t) at 1.
  rewrite split_at_clean by exact Ht. reflexivity.
Qed.

Lemma strip_comment_clean (s : string) :
  string_forall (fun c => negb (is_hash c)) s = true -> strip_comment s = s.
Proof.
  induction s as [| c s IH]; simpl; [reflexivity |].
  intro H. apply andb_prop in H. destruct H as [Hc Hs].
  apply negb_true_iff in Hc. rewrite Hc, IH by exact Hs. reflexivity.
Qed.

Lemma is_token_parts (t : string) :
  is_token t = true ->
  t <> "" /\
  string_forall (fun c => negb (is_space c)) t = true /\
  string_forall (fun c => negb (is_hash c)) t = true /\
  string_forall (fun c => negb (is_newline c)) t = true.
Proof.
  unfold is_token. intro H. apply andb_prop in H. destruct H as [H1 H2].
  split; [| split; [| split]].
  - apply negb_true_iff, String.eqb_neq in H1. exact H1.
  - revert H2. apply string_forall_impl.
    intros c Hc. apply andb_prop in Hc. tauto.
  - revert H2. apply string_forall_impl.
    intros c Hc. apply andb_prop in Hc. tauto.
  - revert H2. apply string_forall_impl.
    intros c Hc. apply andb_prop in Hc. destruct Hc as [Hc _].
    apply negb_true_iff in Hc. apply negb_true_iff.
    unfold is_space, is_newline in *.
    destruct (nat_of_ascii c) as [| [| [| [| [| [| [| [| [| [| [| [| [| [| n]]]]]]]]]]]]]];
      try reflexivity; try discriminate Hc.
Qed.

Lemma row_text_concat (l a b c d : string) :
  String.concat " " [l; a; b; c; d] = row_text l a b c d.
Proof. reflexivity. Qed.

Lemma words_row_text (l a b c d : string) :
  is_token l = true -> is_token a = true -> is_token b = true ->
  is_token c = true -> is_token d = true ->
  words (row_text l a b c d) = [l; a; b; c; d].
Proof.
  intros Hl Ha Hb Hc Hd.
  destruct (is_token_parts l Hl) as (Nl & Sl & _ & _).
  destruct (is_token_parts a Ha) as (Na & Sa & _ & _).
  destruct (is_token_parts b Hb) as (Nb & Sb & _ & _).
  destruct (is_token_parts c Hc) as (Nc & Sc & _ & _).
  destruct (is_token_parts d Hd) as (Nd & Sd & _ & _).
  unfold words, row_text.
  change (" " ++ a ++ " " ++ b ++ " " ++ c ++ " " ++ d)
    with (String " "%char (a ++ " " ++ b ++ " " ++ c ++ " " ++ d)).
  rewrite split_at_piece by (assumption || reflexivity).
  change (" " ++ b ++ " " ++ c ++ " " ++ d)
    with (String " "%char (b ++ " " ++ c ++ " " ++ d)).
  rewrite split_at_piece by (assumption || reflexivity).
  change (" " ++ c ++ " " ++ d) with (String " "%char (c ++ " " ++ d)).
  rewrite split_at_piece by (assumption || reflexivity).
  change (" " ++ d) with (String " "%char d).
  rewrite split_at_piece by (assumption || reflexivity).
  rewrite split_at_last by assumption.
  cbn [filter].
  apply String.eqb_neq in Nl, Na, Nb, Nc, Nd.
  rewrite Nl, Na, Nb, Nc, Nd. reflexivity.
Qed.

Lemma row_text_clean (p : ascii -> bool) (l a b c d : string) :
  p " "%char = true ->
  string_forall p l = true -> string_forall p a = true ->
  string_forall p b = true -> string_forall p c = true ->
  string_forall p d = true ->
  string_forall p (row_text l a b c d) = true.
Proof.
  intros Hsp Hl Ha Hb Hc Hd. unfold row_text.
  rewrite !string_forall_app, Hl, Ha, Hb, Hc, Hd.
  cbn [string_forall]. rewrite Hsp. reflexivity.
Qed.

End TextLemmas.

Section RoundTrip.
Import Py Text Pvsilhouette.
Local Open Scope string_scope.

Variable pyfloat : Type.
Variable nan : pyfloat.
Variable str_float : pyfloat -> string.
Variable float_of_string : string -> option pyfloat.

Local Abbreviation prints_well := (prints_well pyfloat str_float float_of_string).
Local Abbreviation table_row := (table_row pyfloat).
Local Abbreviation row_strings := (row_strings pyfloat str_float).
Local Abbreviation row_values := (row_values pyfloat).
Local Abbreviation row_ok := (row_ok pyfloat str_float float_of_string).

Lemma parse_line_row (r : table_row) :
  row_ok r ->
  parse_line pyfloat nan float_of_string (String.concat " " (row_strings r))
  = Some (Some (row_values r)).
Proof.
  destruct r as [l [[[x y] z] w]]. intros (Hl & [Tx Rx] & [Ty Ry] & [Tz Rz] & [Tw Rw]).
  cbn [Pvsilhouette.row_strings Pvsilhouette.row_values]. rewrite row_text_concat.
  unfold parse_line.
  rewrite strip_comment_clean.
  - rewrite words_row_text by assumption.
    cbn [map nth_error sequence option_map].
    unfold to_float. rewrite Rx, Ry, Rz, Rw. reflexivity.
  - apply row_text_clean; [reflexivity | | | | |];
      match goal with
      | |- string_forall _ ?t = true =>
          match goal with
          | H : is_token t = true |- _ =>
              destruct (is_token_parts t H) as (_ & _ & Hh & _); exact Hh
          end
      end.
Qed.

Lemma row_no_newline (r : table_row) :
  row_ok r ->
  string_forall (fun c => negb (is_newline c)) (String.concat " " (row_strings r)) = true.
Proof.
  destruct r as [l [[[x y] z] w]]. intros (Hl & [Tx Rx] & [Ty Ry] & [Tz Rz] & [Tw Rw]).
  cbn [Pvsilhouette.row_strings]. rewrite row_text_concat.
  apply row_text_clean; [reflexivity | | | | |];
    match goal with
    | |- string_forall _ ?t = true =>
        match goal with
        | H : is_token t = true |- _ =>
            destruct (is_token_parts t H) as (_ & _ & _ & Hn); exact Hn
        end
    end.
Qed.

(** the data rows of a written table are the rows that were written. *)
Lemma data_rows_savetxt (rows : list table_row) :
  Forall row_ok rows ->
  data_rows pyfloat nan float_of_string (splitlines (savetxt (map row_strings rows)))
  = map (fun r => Some (row_values r)) rows.
Proof.
  induction rows as [| r rows IH]; intro H.
  - reflexivity.
  - inversion H as [| ? ? Hr Hrows]; subst.
    cbn [map savetxt fold_right]. fold (savetxt (map row_strings rows)).
    unfold splitlines.
    change (String (ascii_of_nat 10) "" ++ savetxt (map row_strings rows))
      with (String (ascii_of_nat 10) (savetxt (map row_strings rows))).
    rewrite split_at_piece by (apply row_no_newline; exact Hr) || reflexivity.
    cbn [data_rows]. rewrite parse_line_row by exact Hr.
    f_equal. apply IH; exact Hrows.
Qed.

Lemma sequence_map_Some (A B : Type) (f : A -> B) (l : list A) :
  sequence (map (fun a => Some (f a)) l) = Some (map f l).
Proof.
  induction l as [| a l IH]; [reflexivity |].
  cbn [map sequence]. rewrite IH. reflexivity.
Qed.

(** the header line is a comment and yields no row. *)
Lemma data_rows_header (rest : string) :
  data_rows pyfloat nan float_of_string (splitlines (header ++ rest))
  = data_rows pyfloat nan float_of_string (splitlines rest).
Proof.
  unfold header, splitlines.
  rewrite append_assoc_s.
  change (String (ascii_of_nat 10) "" ++ rest) with (String (ascii_of_nat 10) rest).
  rewrite split_at_piece by reflexivity.
  reflexivity.
Qed.

(** C7.  A fit result whose four vectors hold seven values each (one per
    label), every value written by ['%s'] as one column that reads back as
    the value itself, is reproduced by [read_fitres] from the file that
    [writeout_fitres] wrote: the header line and the label column are
    ignored, columns 1 to 4 are read by index. *)
Theorem fitres_round_trip (po pl pm ph : list pyfloat) (fout : string) (fs : files) :
  length po = 7%nat -> length pl = 7%nat -> length pm = 7%nat -> length ph = 7%nat ->
  (forall x, In x (po ++ pl ++ pm ++ ph) -> prints_well x) ->
  let self := {| popt := Some (Array1 pyfloat po); plow := Some (Array1 pyfloat pl);
                 pmid := Some (Array1 pyfloat pm); phigh := Some (Array1 pyfloat ph) |} in
  exists fs' : files,
    writeout_fitres pyfloat str_float self fout fs = ([], Ok RetNone, fs') /\
    forall other : PVSilhouette pyfloat,
      read_fitres pyfloat nan float_of_string other (fout ++ ".txt") fs' = Ok self.
Proof.
  intros Lo Ll Lm Lh Hok.
  destruct po as [| o1 [| o2 [| o3 [| o4 [| o5 [| o6 [| o7 [| ? ?]]]]]]]]; try discriminate Lo.
  destruct pl as [| l1 [| l2 [| l3 [| l4 [| l5 [| l6 [| l7 [| ? ?]]]]]]]]; try discriminate Ll.
  destruct pm as [| m1 [| m2 [| m3 [| m4 [| m5 [| m6 [| m7 [| ? ?]]]]]]]]; try discriminate Lm.
  destruct ph as [| h1 [| h2 [| h3 [| h4 [| h5 [| h6 [| h7 [| ? ?]]]]]]]]; try discriminate Lh.
  clear Lo Ll Lm Lh. cbv zeta.
  set (rows := [ ("Mstar", (o1, l1, m1, h1)); ("Rc", (o2, l2, m2, h2));
                 ("alpha", (o3, l3, m3, h3)); ("fflux", (o4, l4, m4, h4));
                 ("log_ftau", (o5, l5, m5, h5)); ("log_frho", (o6, l6, m6, h6));
                 ("sig_mdl", (o7, l7, m7, h7)) ] : list table_row).
  assert (Hrows : Forall row_ok rows).
  { unfold rows. repeat constructor; try reflexivity;
      apply Hok; cbn [app In]; tauto. }
  exists (write_file fs (fout ++ ".txt") (header ++ savetxt (map row_strings rows))).
  split; [reflexivity |].
  intro other. unfold read_fitres, write_file.
  rewrite String.eqb_refl. unfold genfromtxt.
  rewrite data_rows_header, data_rows_savetxt by exact Hrows.
  rewrite sequence_map_Some. reflexivity.
Qed.

End RoundTrip.

Section RoundTripWitness.
Import Py Text Pvsilhouette.
Local Open Scope string_scope.

Lemma fitres_round_trip_witness :
  let self := {| popt := Some (Array1 Z Examples.fit_popt);
                 plow := Some (Array1 Z Examples.fit_plow);
                 pmid := Some (Array1 Z Examples.fit_pmid);
                 phigh := Some (Array1 Z Examples.fit_phigh) |} in
  exists fs' : files,
    writeout_fitres Z Examples.str_Z self "PVsilhouette.popt" (fun _ => None)
    = ([], Ok RetNone, fs') /\
    forall other : PVSilhouette Z,
      read_fitres Z 0%Z Examples.Z_of_string other "PVsilhouette.popt.txt" fs' = Ok self.
Proof.
  apply (fitres_round_trip Z 0%Z Examples.str_Z Examples.Z_of_string
           Examples.fit_popt Examples.fit_plow Examples.fit_pmid Examples.fit_phigh
           "PVsilhouette.popt" (fun _ => None));
    try reflexivity.
  intros x Hin. cbn [Examples.fit_popt Examples.fit_plow Examples.fit_pmid
                     Examples.fit_phigh app In] in Hin.
  repeat (destruct Hin as [<- | Hin]; [split; vm_compute; reflexivity |]).
  contradiction.
Defined.

End RoundTripWitness.

(* ================================================================== *)
(** ** Bounds through the stages of [generate_pvd] *)
(* ================================================================== *)

Section ConvolutionBounds.
Import Np Bounds.

Lemma all_fin_map (P : R -> Prop) (a : array1) :
  Forall (fin_where P) a -> exists l : list R, a = map Fin l /\ Forall P l.
Proof.
  induction 1 as [| x a (r & -> & Hr) _ (l & -> & Hl)].
  - exists []. split; [reflexivity | constructor].
  - exists (r :: l). split; [reflexivity | constructor; assumption].
Qed.

Lemma fsum_Fin (l : list R) : exists s : R, fsum (map Fin l) = Fin s.
Proof.
  induction l as [| a l (s & Hs)]; [exists 0; reflexivity |].
  exists (a + s). cbn [map fsum fold_right]. fold (fsum (map Fin l)).
  rewrite Hs. reflexivity.
Qed.




(** *** indexed maps *)

Lemma combine_seq_nth_error (A : Type) (l : list A) (s i : nat) :
  nth_error (combine (seq s (length l)) l) i
  = option_map (fun x => ((s + i)%nat, x)) (nth_error l i).
Proof.
  revert s i. induction l as [| a l IH]; intros s i.
  - destruct i; reflexivity.
  - destruct i as [| i]; cbn [length seq combine nth_error option_map].
    + rewrite Nat.add_0_r. reflexivity.
    + rewrite IH. destruct (nth_error l i); cbn [option_map]; [| reflexivity].
      do 2 f_equal. lia.
Qed.

Lemma nth_error_mapi (A B : Type) (f : nat -> A -> B) (l : list A) (i : nat) :
  nth_error (mapi f l) i = option_map (f i) (nth_error l i).
Proof.
  unfold mapi. rewrite nth_error_map, combine_seq_nth_error.
  destruct (nth_error l i); reflexivity.
Qed.

Lemma length_mapi (A B : Type) (f : nat -> A -> B) (l : list A) :
  length (mapi f l) = length l.
Proof.
  unfold mapi. rewrite length_map, length_combine, length_seq. apply Nat.min_id.
Qed.

Lemma In_mapi (A B : Type) (f : nat -> A -> B) (l : list A) (y : B) :
  In y (mapi f l) -> exists i x, nth_error l i = Some x /\ y = f i x.
Proof.
  intro H. apply In_nth_error in H. destruct H as [i Hi].
  rewrite nth_error_mapi in Hi.
  destruct (nth_error l i) as [x |] eqn:E; [| discriminate].
  injection Hi as <-. exists i, x. split; [exact E | reflexivity].
Qed.


Lemma Forall_mapi (A B : Type) (P : B -> Prop) (f : nat -> A -> B) (l : list A) :
  (forall i x, nth_error l i = Some x -> P (f i x)) -> Forall P (mapi f l).
Proof.
  intro H. apply Forall_forall. intros y Hy.
  apply In_mapi in Hy. destruct Hy as (i & x & Hx & ->). apply H; exact Hx.
Qed.



Lemma nth_error_nth' (A : Type) (l : list A) (n : nat) (x d : A) :
  nth_error l n = Some x -> nth n l d = x.
Proof. intro H. apply nth_error_nth; exact H. Qed.

(** *** the spectral convolution *)






Lemma rect2_entry (n1 n2 : nat) (m : array2) (i j : nat) (row : list fl) (x : fl) :
  nth_error m i = Some row -> nth_error row j = Some x ->
  nth j (nth i m []) NaN = x.
Proof.
  intros Hi Hj. rewrite (nth_error_nth' _ m i row [] Hi).
  apply nth_error_nth'; exact Hj.
Qed.

Lemma rect3_lookup (n1 n2 : nat) (c : array3) (m : array2) (i j : nat) :
  rect3 n1 n2 c -> In m c -> (i < n1)%nat -> (j < n2)%nat ->
  exists row x, nth_error m i = Some row /\ nth_error row j = Some x.
Proof.
  intros Hc Hm Hi Hj. unfold rect3 in Hc. rewrite Forall_forall in Hc.
  destruct (Hc m Hm) as [Hlen Hrows].
  destruct (nth_error m i) as [row |] eqn:Ei;
    [| apply nth_error_None in Ei; lia].
  rewrite Forall_forall in Hrows.
  assert (Hrow : length row = n2) by (apply Hrows, (nth_error_In _ i); exact Ei).
  destruct (nth_error row j) as [x |] eqn:Ej;
    [| apply nth_error_None in Ej; lia].
  exists row, x. split; [reflexivity | exact Ej].
Qed.


Lemma all3_entry (P : fl -> Prop) (c : array3) (m : array2) (row : list fl)
    (i j : nat) (x : fl) :
  all3 P c -> In m c -> nth_error m i = Some row -> nth_error row j = Some x -> P x.
Proof.
  intros Hc Hm Hi Hj. unfold all3 in Hc. rewrite Forall_forall in Hc.
  specialize (Hc m Hm). rewrite Forall_forall in Hc.
  specialize (Hc row (nth_error_In _ _ Hi)). rewrite Forall_forall in Hc.
  apply Hc, (nth_error_In _ j); exact Hj.
Qed.


Lemma column_all (P : fl -> Prop) (n1 n2 : nat) (c : array3) (i j : nat) :
  rect3 n1 n2 c -> all3 P c -> (i < n1)%nat -> (j < n2)%nat ->
  Forall P (column c i j).
Proof.
  intros Hr Ha Hi Hj. unfold column. apply Forall_forall. intros y Hy.
  apply in_map_iff in Hy. destruct Hy as (m & <- & Hm).
  destruct (rect3_lookup n1 n2 c m i j Hr Hm Hi Hj) as (row & x & Ei & Ej).
  rewrite (rect2_entry n1 n2 m i j row x Ei Ej).
  apply (all3_entry P c m row i j x Ha Hm Ei Ej).
Qed.

Lemma conv_axis0_rect (n1 n2 : nat) (c : array3) (g : array1) :
  rect3 n1 n2 c -> rect3 n1 n2 (conv_same_axis0 c g).
Proof.
  intro Hc. unfold rect3, conv_same_axis0. apply Forall_mapi. intros n m Hn.
  unfold rect3 in Hc. rewrite Forall_forall in Hc.
  destruct (Hc m (nth_error_In _ _ Hn)) as [Hlen Hrows].
  split.
  - rewrite length_mapi. exact Hlen.
  - apply Forall_mapi. intros i row Hi. rewrite length_mapi.
    rewrite Forall_forall in Hrows. apply Hrows, (nth_error_In _ i); exact Hi.
Qed.


Lemma Exists_nth_error (A : Type) (P : A -> Prop) (l : list A) :
  Exists P l <-> exists i x, nth_error l i = Some x /\ P x.
Proof.
  rewrite Exists_exists. split.
  - intros (x & Hin & Hx). apply In_nth_error in Hin. destruct Hin as [i Hi].
    exists i, x. split; assumption.
  - intros (i & x & Hi & Hx). exists x. split; [apply (nth_error_In _ i); exact Hi | exact Hx].
Qed.

Lemma some_positive_index (c : array3) :
  some_positive c <->
  exists n m i row j x,
    nth_error c n = Some m /\ nth_error m i = Some row /\
    nth_error row j = Some (Fin x) /\ 0 < x.
Proof.
  unfold some_positive. rewrite Exists_nth_error. split.
  - intros (n & m & Hn & Hm). apply Exists_nth_error in Hm.
    destruct Hm as (i & row & Hi & Hrow). apply Exists_nth_error in Hrow.
    destruct Hrow as (j & y & Hj & (x & -> & Hx)).
    exists n, m, i, row, j, x. repeat split; assumption.
  - intros (n & m & i & row & j & x & Hn & Hi & Hj & Hx).
    exists n, m. split; [exact Hn |]. apply Exists_nth_error.
    exists i, row. split; [exact Hi |]. apply Exists_nth_error.
    exists j, (Fin x). split; [exact Hj |]. exists x. split; [reflexivity | exact Hx].
Qed.


End ConvolutionBounds.

Section IntensityBounds.
Import Py Np Mockpvd Bounds.

Lemma Forall_flatten3 (P : fl -> Prop) (c : array3) :
  all3 P c -> Forall P (flatten3 c).
Proof.
  intro H. unfold flatten3, flatten2. apply Forall_concat.
  apply Forall_map. unfold all3 in H.
  eapply Forall_impl; [| exact H]. intros m Hm. apply Forall_concat. exact Hm.
Qed.

Lemma In_flatten3 (c : array3) (m : array2) (row : list fl) (x : fl) :
  In m c -> In row m -> In x row -> In x (flatten3 c).
Proof.
  intros Hm Hrow Hx. unfold flatten3, flatten2.
  apply in_concat. exists (concat m). split.
  - apply in_map; exact Hm.
  - apply in_concat. exists row. split; assumption.
Qed.

(** the peak of a finite, non-negative cube with a positive sample. *)
Lemma nanmax_positive (c : array3) :
  all3 (fin_where nonneg) c -> some_positive c ->
  exists m : R, nanmax (flatten3 c) = Fin m /\ 0 < m.
Proof.
  intros Ha Hp.
  destruct (all_fin_map _ _ (Forall_flatten3 _ _ Ha)) as (l & El & _).
  apply some_positive_index in Hp.
  destruct Hp as (n & sl & i & row & j & x & Hn & Hi & Hj & Hx).
  assert (Hin : In (Fin x) (flatten3 c)).
  { apply (In_flatten3 c sl row); eapply nth_error_In; eassumption. }
  rewrite El in Hin |- *. apply in_map_iff in Hin.
  destruct Hin as (x' & E & Hin'). injection E as ->.
  destruct (nanmax_Fin l) as (m & Hm & _ & Hmax).
  - intro E. rewrite E in Hin'. contradiction.
  - exists m. split; [exact Hm |]. specialize (Hmax x Hin'). lra.
Qed.



Lemma rect3_map3d (n1 n2 : nat) (f : fl -> fl) (c : array3) :
  rect3 n1 n2 c -> rect3 n1 n2 (map3d f c).
Proof.
  intro H. unfold rect3, map3d, map2d in *. apply Forall_map.
  eapply Forall_impl; [| exact H]. intros m [Hlen Hrows]. split.
  - rewrite length_map. exact Hlen.
  - apply Forall_map. eapply Forall_impl; [| exact Hrows].
    intros row Hrow. rewrite length_map. exact Hrow.
Qed.



(** *** the beam convolution *)







Lemma conv2d_rect (n1 n2 : nat) (m g : array2) :
  rect2 n1 n2 m -> rect2 n1 n2 (conv_same_2d m g).
Proof.
  intros [Hlen Hrows]. unfold conv_same_2d. split.
  - rewrite length_mapi. exact Hlen.
  - apply Forall_mapi. intros i row Hi. rewrite length_mapi.
    rewrite Forall_forall in Hrows. apply Hrows. eapply nth_error_In; eassumption.
Qed.


(** *** the slice and the sub-grid mean *)

Lemma pick_all_rect (j n2 : nat) (m : array2) :
  Forall (fun row => length row = n2) m -> (j < n2)%nat ->
  pick_all j m = Some (map (fun row => nth j row NaN) m).
Proof.
  intros H Hj. induction H as [| row m Hrow _ IH]; [reflexivity |].
  cbn [pick_all map]. rewrite IH.
  destruct (nth_error row j) as [e |] eqn:E;
    [| apply nth_error_None in E; lia].
  rewrite (nth_error_nth' _ row j e NaN E). reflexivity.
Qed.

Lemma slice_y_rect (j n1 n2 : nat) (c : array3) :
  rect3 n1 n2 c -> (j < n2)%nat ->
  slice_y j c = Ok (map (fun m => map (fun row => nth j row NaN) m) c).
Proof.
  intros H Hj. induction H as [| m c [Hlen Hrows] _ IH]; [reflexivity |].
  cbn [slice_y map]. rewrite (pick_all_rect j n2 m Hrows Hj), IH. reflexivity.
Qed.

Lemma slice_props (P : fl -> Prop) (j n1 n2 : nat) (c : array3) :
  rect3 n1 n2 c -> (j < n2)%nat -> all3 P c ->
  let I_pv := map (fun m => map (fun row => nth j row NaN) m) c in
  Forall (fun row => length row = n1) I_pv /\ all2 P I_pv.
Proof.
  intros Hr Hj Ha. cbv zeta. unfold rect3, all3, all2 in *. split.
  - apply Forall_map. eapply Forall_impl; [| exact Hr].
    intros m [Hlen _]. rewrite length_map. exact Hlen.
  - apply Forall_map. rewrite Forall_forall in *. intros m Hm.
    destruct (Hr m Hm) as [_ Hrows]. specialize (Ha m Hm).
    apply Forall_map. rewrite Forall_forall in *. intros row Hrow.
    specialize (Ha row Hrow). rewrite Forall_forall in Ha.
    apply Ha. apply nth_In. rewrite (Hrows row Hrow). exact Hj.
Qed.






(** *** the kernels *)







Lemma flatten2_map2d (f : fl -> fl) (m : array2) :
  flatten2 (map2d f m) = map f (flatten2 m).
Proof. unfold flatten2, map2d. rewrite concat_map. reflexivity. Qed.




(** *** the stages in sequence *)





End IntensityBounds.

Section IntensityBoundsExamples.
Import Py Np Mockpvd Bounds Examples.

Lemma cube2_rect (x y : fl) : rect3 2 3 (cube2 x y).
Proof. unfold cube2. repeat constructor. Qed.




End IntensityBoundsExamples.

(* ================================================================== *)
(** ** UlrichEnvelope: the flow that [velrho] derives from the root *)
(* ================================================================== *)

Section VelrhoFlow.
Import UlrichEnvelope UlrichReal.

(** [velrho] is [velrho_of_root] at the root of its three branches. *)
Lemma velrho1_of_root (radius theta : fl) :
  velrho1 radius theta = velrho_of_root radius theta (velrho_mu0 radius theta).
Proof. reflexivity. Qed.









End VelrhoFlow.

(* ================================================================== *)
(** ** UlrichEnvelope: coordinates and line-of-sight projection *)
(* ================================================================== *)

Section Coordinates.
Import UlrichEnvelope.

Lemma sc1 (x : R) : sin x * sin x + cos x * cos x = 1.
Proof. generalize (sin2_cos2 x); unfold Rsqr; lra. Qed.

Lemma Ratan2_bounds (y x : R) : - PI < Ratan2 y x <= PI.
Proof.
  pose proof PI_RGT_0 as Hpi. unfold Ratan2.
  destruct (Rlt_dec 0 x) as [Hx | Hx].
  - pose proof (atan_bound (y / x)). lra.
  - destruct (Rlt_dec x 0) as [Hx' | Hx'].
    + pose proof (atan_bound (y / x)) as Hb.
      destruct (Rle_dec 0 y) as [Hy | Hy].
      * assert (Hq : y / x <= 0).
        { unfold Rdiv. replace (y * / x) with (- (y * / (- x))).
          - assert (0 <= y * / (- x)).
            { apply Rmult_le_pos; [exact Hy |].
              left; apply Rinv_0_lt_compat; lra. }
            lra.
          - field; lra. }
        assert (atan (y / x) <= 0).
        { destruct Hq as [Hq | Hq].
          - left. rewrite <- atan_0. apply atan_increasing; exact Hq.
          - rewrite Hq, atan_0; lra. }
        lra.
      * assert (Hq : 0 < y / x).
        { unfold Rdiv. replace (y * / x) with ((- y) * / (- x)) by (field; lra).
          apply Rmult_lt_0_compat; [lra | apply Rinv_0_lt_compat; lra]. }
        assert (0 < atan (y / x)).
        { rewrite <- atan_0. apply atan_increasing; exact Hq. }
        lra.
    + destruct (Rlt_dec 0 y); [lra |]. destruct (Rlt_dec y 0); lra.
Qed.

(** off the origin the angle of [np.arctan2] has the sine and the cosine
    of the point. *)
Lemma Ratan2_sin_cos (y x : R) :
  0 < x * x + y * y ->
  sin (Ratan2 y x) = y / sqrt (x * x + y * y) /\
  cos (Ratan2 y x) = x / sqrt (x * x + y * y).
Proof.
  intro Hpos.
  set (S := sqrt (x * x + y * y)).
  assert (HS : 0 < S) by (apply sqrt_lt_R0; exact Hpos).
  assert (HSS : S * S = x * x + y * y) by (apply sqrt_sqrt; lra).
  unfold Ratan2.
  destruct (Rlt_dec 0 x) as [Hx | Hx]; [| destruct (Rlt_dec x 0) as [Hx' | Hx']].
  - set (u := y / x).
    assert (HT : sqrt (1 + u²) * x = S).
    { assert (0 < 1 + u²) by (unfold Rsqr; nra).
      assert (HT0 : 0 < sqrt (1 + u²)) by (apply sqrt_lt_R0; lra).
      assert (HTT : sqrt (1 + u²) * sqrt (1 + u²) = 1 + u²) by (apply sqrt_sqrt; lra).
      apply Rsqr_inj; [nra | lra |].
      unfold Rsqr in *. rewrite HSS.
      replace (sqrt (1 + u * u) * x * (sqrt (1 + u * u) * x))
        with (sqrt (1 + u * u) * sqrt (1 + u * u) * (x * x)) by ring.
      rewrite HTT. unfold u. field; lra. }
    assert (HT0 : 0 < sqrt (1 + u²))
      by (apply sqrt_lt_R0; unfold Rsqr; nra).
    rewrite sin_atan, cos_atan. fold u. rewrite <- HT.
    set (T := sqrt (1 + u²)) in *.
    split; unfold u; field; lra.
  - set (u := y / x).
    assert (HT : sqrt (1 + u²) * (- x) = S).
    { assert (0 < 1 + u²) by (unfold Rsqr; nra).
      assert (HT0 : 0 < sqrt (1 + u²)) by (apply sqrt_lt_R0; lra).
      assert (HTT : sqrt (1 + u²) * sqrt (1 + u²) = 1 + u²) by (apply sqrt_sqrt; lra).
      apply Rsqr_inj; [nra | lra |].
      unfold Rsqr in *. rewrite HSS.
      replace (sqrt (1 + u * u) * - x * (sqrt (1 + u * u) * - x))
        with (sqrt (1 + u * u) * sqrt (1 + u * u) * (x * x)) by ring.
      rewrite HTT. unfold u. field; lra. }
    assert (HT0 : 0 < sqrt (1 + u²))
      by (apply sqrt_lt_R0; unfold Rsqr; nra).
    assert (Es : sin (atan u) = u / sqrt (1 + u²)) by apply sin_atan.
    assert (Ec : cos (atan u) = 1 / sqrt (1 + u²)) by apply cos_atan.
    fold u. set (T := sqrt (1 + u²)) in *.
    destruct (Rle_dec 0 y) as [Hy | Hy].
    + rewrite sin_plus, cos_plus, sin_PI, cos_PI, Es, Ec, <- HT.
      split; unfold u; field; lra.
    + rewrite sin_minus, cos_minus, sin_PI, cos_PI, Es, Ec, <- HT.
      split; unfold u; field; lra.
  - assert (E0 : x = 0) by lra. subst x.
    assert (Hy2 : S * S = y * y) by lra.
    destruct (Rlt_dec 0 y) as [Hy | Hy]; [| destruct (Rlt_dec y 0) as [Hy' | Hy']].
    + assert (ES : S = y) by nra.
      rewrite sin_PI2, cos_PI2, ES. split; [field; lra | field; lra].
    + assert (ES : S = - y) by nra.
      rewrite sin_neg, cos_neg, sin_PI2, cos_PI2, ES. split; [field; lra | field; lra].
    + exfalso. assert (y = 0) by lra. subst y. lra.
Qed.

(** the radius of a finite point before the clip. *)
Lemma norm_abs_le (x y z : R) :
  Rabs z <= sqrt (x * x + y * y + z * z).
Proof.
  rewrite <- (sqrt_Rsqr_abs z). apply sqrt_le_1_alt. unfold Rsqr. nra.
Qed.

Lemma xyz2rtp1_unfold (x y z : R) :
  let r := Rmax (sqrt (x * x + y * y + z * z)) eps in
  xyz2rtp1 (Fin x) (Fin y) (Fin z)
  = (Fin r, Fin (acos (z / r)), Fin (Ratan2 x (- y))) /\
  eps <= r /\ -1 <= z / r <= 1.
Proof.
  intro r.
  assert (He : 0 < eps) by (unfold eps; lra).
  assert (Hr : eps <= r) by apply Rmax_r.
  assert (Hn : Rabs z <= r).
  { apply Rle_trans with (sqrt (x * x + y * y + z * z));
      [apply norm_abs_le | apply Rmax_l]. }
  assert (Hz : -1 <= z / r <= 1).
  { assert (Hi : 0 < / r) by (apply Rinv_0_lt_compat; lra).
    pose proof (Rle_abs z) as U. pose proof (Rle_abs (- z)) as L.
    rewrite Rabs_Ropp in L.
    unfold Rdiv. split.
    - apply Rmult_le_reg_r with r; [lra |].
      rewrite Rmult_assoc, Rinv_l by lra. lra.
    - apply Rmult_le_reg_r with r; [lra |].
      rewrite Rmult_assoc, Rinv_l by lra. lra. }
  split; [| split; [exact Hr | exact Hz]].
  unfold xyz2rtp1. cbn [fsquare fmul fadd fneg farctan2].
  rewrite fsqrt_Fin by nra.
  rewrite clip_lo_Fin. fold r.
  rewrite fdiv_Fin by lra.
  rewrite farccos_Fin by exact Hz.
  reflexivity.
Qed.

(** X6.  On every finite point [xyz2rtp] returns finite spherical
    coordinates and never NaN: the radius is at least [1e-10], the polar
    angle lies in [0, pi] (the argument of [arccos] never leaves [-1, 1])
    and the azimuth lies in [-pi, pi]. *)
Theorem xyz2rtp_ranges (x y z : R) :
  exists r t p : R,
    xyz2rtp1 (Fin x) (Fin y) (Fin z) = (Fin r, Fin t, Fin p) /\
    1e-10 <= r /\ 0 <= t <= PI /\ - PI <= p <= PI.
Proof.
  destruct (xyz2rtp1_unfold x y z) as (E & Hr & Hz).
  set (r := Rmax (sqrt (x * x + y * y + z * z)) eps) in *.
  exists r, (acos (z / r)), (Ratan2 x (- y)).
  split; [exact E | split; [exact Hr | split]].
  - apply acos_bound.
  - pose proof (Ratan2_bounds x (- y)). lra.
Qed.

(** X7.  [xyz2rtp] and [rotbase] are inverse to one another: for a finite
    point at a distance of at least [1e-10] from the origin, the radius
    times the radial unit vector of the returned angles is the point
    itself. *)
Theorem xyz2rtp_rotbase_round_trip (x y z : R) :
  1e-10 <= sqrt (x * x + y * y + z * z) ->
  let '(r, t, p) := xyz2rtp1 (Fin x) (Fin y) (Fin z) in
  let '(er, _, _) := rotbase t p in
  let '(e1, e2, e3) := er in
  ((r * e1)%fl, (r * e2)%fl, (r * e3)%fl) = (Fin x, Fin y, Fin z).
Proof.
  intro Hfar. fold eps in Hfar.
  destruct (xyz2rtp1_unfold x y z) as (E & Hr & Hz).
  cbv zeta in E. rewrite (Rmax_left _ _ Hfar) in *.
  set (r := sqrt (x * x + y * y + z * z)) in *.
  rewrite E. unfold rotbase. cbn [fsin fcos fmul fneg].
  assert (He : 0 < eps) by (unfold eps; lra).
  assert (Hrr : r * r = x * x + y * y + z * z).
  { apply sqrt_sqrt. nra. }
  assert (Ect : cos (acos (z / r)) = z / r) by (apply cos_acos; exact Hz).
  assert (Est : sin (acos (z / r)) = sqrt (1 - (z / r)²))
    by (apply sin_acos; exact Hz).
  set (h := sqrt (x * x + y * y)).
  assert (Hh : 0 <= h) by apply sqrt_pos.
  assert (Hhh : h * h = x * x + y * y) by (apply sqrt_sqrt; nra).
  assert (Est' : sin (acos (z / r)) = h / r).
  { rewrite Est. apply Rsqr_inj.
    - apply sqrt_pos.
    - apply Rmult_le_pos; [exact Hh | left; apply Rinv_0_lt_compat; lra].
    - rewrite Rsqr_sqrt.
      + unfold Rsqr.
        replace (h / r * (h / r)) with (h * h / (r * r)) by (field; lra).
        replace (z / r * (z / r)) with (z * z / (r * r)) by (field; lra).
        rewrite Hhh, Hrr. field. nra.
      + unfold Rsqr.
        replace (z / r * (z / r)) with (z * z / (r * r)) by (field; lra).
        rewrite Hrr.
        assert (0 <= (x * x + y * y) / (x * x + y * y + z * z)).
        { apply Rmult_le_pos; [nra | left; apply Rinv_0_lt_compat; nra]. }
        replace (1 - z * z / (x * x + y * y + z * z))
          with ((x * x + y * y) / (x * x + y * y + z * z)) by (field; nra).
        assumption. }
  rewrite Ect, Est'.
  destruct (Req_dec_T h 0) as [H0 | H0].
  - assert (x = 0 /\ y = 0) as [-> ->] by (split; nra).
    rewrite H0. repeat f_equal; try (field; lra).
  - assert (Hpos : 0 < (- y) * (- y) + x * x) by nra.
    destruct (Ratan2_sin_cos x (- y) Hpos) as [Es Ec].
    replace (- y * - y + x * x) with (x * x + y * y) in Es, Ec by ring.
    fold h in Es, Ec. rewrite Es, Ec.
    repeat f_equal; field; lra.
Qed.

Lemma xyz2rtp_rotbase_round_trip_witness :
  1e-10 <= sqrt (3 * 3 + 0 * 0 + 4 * 4) /\
  let '(r, t, p) := xyz2rtp1 (Fin 3) (Fin 0) (Fin 4) in
  let '(er, _, _) := rotbase t p in
  let '(e1, e2, e3) := er in
  ((r * e1)%fl, (r * e2)%fl, (r * e3)%fl) = (Fin 3, Fin 0, Fin 4).
Proof.
  assert (H : 1e-10 <= sqrt (3 * 3 + 0 * 0 + 4 * 4)).
  { replace (3 * 3 + 0 * 0 + 4 * 4) with (5 * 5) by lra.
    rewrite sqrt_square by lra. lra. }
  split; [exact H | exact (xyz2rtp_rotbase_round_trip 3 0 4 H)].
Defined.

(** [XYZ2xyz1] on finite values. *)
Lemma XYZ2xyz1_Fin (i f X Y Z : R) :
  XYZ2xyz1 (Fin i) (Fin f) (Fin X) (Fin Y) (Fin Z)
  = (Fin (cos f * X + - (cos i * sin f) * Y + sin i * sin f * Z),
     Fin (sin f * X + - (- cos i * cos f) * Y + - sin i * cos f * Z),
     Fin (0 * X + - - sin i * Y + cos i * Z)).
Proof. reflexivity. Qed.

(** X8.  [XYZ2xyz] is an isometry: the scalar product of the images of two
    finite observer-frame points equals the scalar product of the points,
    so lengths and angles are preserved. *)
Theorem XYZ2xyz_preserves_dot (incl phi X Y Z X' Y' Z' : R) :
  dot3 (XYZ2xyz1 (Fin incl) (Fin phi) (Fin X) (Fin Y) (Fin Z))
       (XYZ2xyz1 (Fin incl) (Fin phi) (Fin X') (Fin Y') (Fin Z'))
  = dot3 (Fin X, Fin Y, Fin Z) (Fin X', Fin Y', Fin Z').
Proof.
  rewrite !XYZ2xyz1_Fin. unfold dot3. cbn [fmul fadd]. f_equal.
  pose proof (sc1 incl) as Hi. pose proof (sc1 phi) as Hf.
  set (si := sin incl) in *. set (ci := cos incl) in *.
  set (sf := sin phi) in *. set (cf := cos phi) in *.
  replace ((cf * X + - (ci * sf) * Y + si * sf * Z)
           * (cf * X' + - (ci * sf) * Y' + si * sf * Z')
           + (sf * X + - (- ci * cf) * Y + - si * cf * Z)
             * (sf * X' + - (- ci * cf) * Y' + - si * cf * Z')
           + (0 * X + - - si * Y + ci * Z) * (0 * X' + - - si * Y' + ci * Z'))
    with (X * X' * (sf * sf + cf * cf)
          + Y * Y' * (ci * ci * (sf * sf + cf * cf) + si * si)
          + Z * Z' * (si * si * (sf * sf + cf * cf) + ci * ci)
          + (Y * Z' + Z * Y') * (si * ci * (1 - (sf * sf + cf * cf))))
    by ring.
  rewrite Hf.
  replace (Y * Y' * (ci * ci * 1 + si * si)) with (Y * Y' * (si * si + ci * ci)) by ring.
  replace (Z * Z' * (si * si * 1 + ci * ci)) with (Z * Z' * (si * si + ci * ci)) by ring.
  rewrite Hi. ring.
Qed.

(** X9.  [XYZ2xyz] is undone by projecting on the triad of [rotbase]: the
    image of a finite point [(X, Y, Z)] has the components [X] along
    [ep], [-Y] along [et] and [Z] along [er]. *)
Theorem XYZ2xyz_inverted_by_projection (incl phi X Y Z : R) :
  let v := XYZ2xyz1 (Fin incl) (Fin phi) (Fin X) (Fin Y) (Fin Z) in
  let '(er, et, ep) := rotbase (Fin incl) (Fin phi) in
  dot3 v ep = Fin X /\ fneg (dot3 v et) = Fin Y /\ dot3 v er = Fin Z.
Proof.
  cbv zeta. rewrite XYZ2xyz1_Fin. unfold rotbase, dot3.
  cbn [fsin fcos fmul fadd fneg].
  pose proof (sc1 incl) as Hi. pose proof (sc1 phi) as Hf.
  set (si := sin incl) in *. set (ci := cos incl) in *.
  set (sf := sin phi) in *. set (cf := cos phi) in *.
  repeat split; f_equal.
  - replace ((cf * X + - (ci * sf) * Y + si * sf * Z) * cf
             + (sf * X + - (- ci * cf) * Y + - si * cf * Z) * sf
             + (0 * X + - - si * Y + ci * Z) * 0)
      with (X * (sf * sf + cf * cf)) by ring.
    rewrite Hf; ring.
  - replace (- ((cf * X + - (ci * sf) * Y + si * sf * Z) * (ci * sf)
                + (sf * X + - (- ci * cf) * Y + - si * cf * Z) * (- ci * cf)
                + (0 * X + - - si * Y + ci * Z) * - si))
      with (Y * (ci * ci * (sf * sf + cf * cf) + si * si)
            + Z * (si * ci * (1 - (sf * sf + cf * cf)))) by ring.
    rewrite Hf.
    replace (Y * (ci * ci * 1 + si * si)) with (Y * (si * si + ci * ci)) by ring.
    rewrite Hi; ring.
  - replace ((cf * X + - (ci * sf) * Y + si * sf * Z) * (si * sf)
             + (sf * X + - (- ci * cf) * Y + - si * cf * Z) * (- si * cf)
             + (0 * X + - - si * Y + ci * Z) * ci)
      with (Z * (si * si * (sf * sf + cf * cf) + ci * ci)
            + Y * (si * ci * (1 - (sf * sf + cf * cf)))) by ring.
    rewrite Hf.
    replace (Z * (si * si * 1 + ci * ci)) with (Z * (si * si + ci * ci)) by ring.
    rewrite Hi; ring.
Qed.

(** [losvel1] once the three velocity components are finite. *)
Lemma losvel1_Fin (e1 e2 e3 r t p : R) (kepler : bool) (a b c : R) :
  (if kepler then kepvel1 (Fin r) (Fin t) else fst (velrho1 (Fin r) (Fin t)))
  = (Fin a, Fin b, Fin c) ->
  losvel1 (Fin e1, Fin e2, Fin e3) (Fin r) (Fin t) (Fin p) kepler
  = Fin (- a * (sin t * sin p * e1 + - sin t * cos p * e2 + cos t * e3)
         + - (b * (cos t * sin p * e1 + - cos t * cos p * e2 + - sin t * e3))
         + - (c * (cos p * e1 + sin p * e2 + 0 * e3))).
Proof.
  intro E. unfold losvel1.
  assert (E' : (if kepler then kepvel1 (Fin r) (Fin t)
                else let '(vr, vt, vp, _) := velrho1 (Fin r) (Fin t) in (vr, vt, vp))
               = (Fin a, Fin b, Fin c)).
  { destruct kepler; [exact E |].
    destruct (velrho1 (Fin r) (Fin t)) as [[[vr vt] vp] rho]. exact E. }
  rewrite E'. reflexivity.
Qed.

(** X10.  The line-of-sight velocity of [losvel] never exceeds the speed:
    whenever the three velocity components of the sample (of [kepvel] with
    [kepler] set, of [velrho] otherwise) are finite, the result is finite
    and its square is at most the squared speed times the squared length
    of [elos]. *)
Theorem losvel_bounded_by_speed
    (e1 e2 e3 r t p : R) (kepler : bool) (a b c : R) :
  (if kepler then kepvel1 (Fin r) (Fin t) else fst (velrho1 (Fin r) (Fin t)))
  = (Fin a, Fin b, Fin c) ->
  exists w : R,
    losvel1 (Fin e1, Fin e2, Fin e3) (Fin r) (Fin t) (Fin p) kepler = Fin w /\
    w * w <= (a * a + b * b + c * c) * (e1 * e1 + e2 * e2 + e3 * e3).
Proof.
  intro E. rewrite (losvel1_Fin e1 e2 e3 r t p kepler a b c E).
  eexists. split; [reflexivity |].
  pose proof (sc1 t) as Ht. pose proof (sc1 p) as Hp.
  set (st := sin t) in *. set (ct := cos t) in *.
  set (sp := sin p) in *. set (cp := cos p) in *.
  set (A := st * sp * e1 + - st * cp * e2 + ct * e3).
  set (B := ct * sp * e1 + - ct * cp * e2 + - st * e3).
  set (C := cp * e1 + sp * e2 + 0 * e3).
  assert (Par : A * A + B * B + C * C = e1 * e1 + e2 * e2 + e3 * e3).
  { unfold A, B, C.
    replace ((st * sp * e1 + - st * cp * e2 + ct * e3)
             * (st * sp * e1 + - st * cp * e2 + ct * e3)
             + (ct * sp * e1 + - ct * cp * e2 + - st * e3)
               * (ct * sp * e1 + - ct * cp * e2 + - st * e3)
             + (cp * e1 + sp * e2 + 0 * e3) * (cp * e1 + sp * e2 + 0 * e3))
      with (e1 * e1 * (sp * sp * (st * st + ct * ct) + cp * cp)
            + e2 * e2 * (cp * cp * (st * st + ct * ct) + sp * sp)
            + e3 * e3 * (st * st + ct * ct)
            + 2 * e1 * e2 * sp * cp * (1 - (st * st + ct * ct))) by ring.
    rewrite Ht.
    replace (e1 * e1 * (sp * sp * 1 + cp * cp)) with (e1 * e1 * (sp * sp + cp * cp)) by ring.
    replace (e2 * e2 * (cp * cp * 1 + sp * sp)) with (e2 * e2 * (sp * sp + cp * cp)) by ring.
    rewrite Hp. ring. }
  rewrite <- Par.
  assert (L : (a * a + b * b + c * c) * (A * A + B * B + C * C)
              - (- a * A + - (b * B) + - (c * C)) * (- a * A + - (b * B) + - (c * C))
              = (a * B - b * A) * (a * B - b * A)
                + (a * C - c * A) * (a * C - c * A)
                + (b * C - c * B) * (b * C - c * B)) by ring.
  pose proof (Rle_0_sqr (a * B - b * A)) as S1.
  pose proof (Rle_0_sqr (a * C - c * A)) as S2.
  pose proof (Rle_0_sqr (b * C - c * B)) as S3.
  unfold Rsqr in S1, S2, S3. lra.
Qed.

Lemma losvel_bounded_by_speed_witness :
  kepvel1 (Fin 1) (Fin (PI / 2))
  = (Fin 0, Fin 0, Fin (1 / sqrt (Rmax 1 eps * sin (PI / 2)))) /\
  exists w : R,
    losvel1 (Fin 0, Fin 1, Fin 0) (Fin 1) (Fin (PI / 2)) (Fin 0) true = Fin w /\
    w * w <= (0 * 0 + 0 * 0
              + 1 / sqrt (Rmax 1 eps * sin (PI / 2))
                * (1 / sqrt (Rmax 1 eps * sin (PI / 2))))
             * (0 * 0 + 1 * 1 + 0 * 0).
Proof.
  assert (Hs : 0 < sin (PI / 2)) by (rewrite sin_PI2; lra).
  pose proof (kepvel1_value 1 (PI / 2) Hs) as H.
  split; [exact H |].
  exact (losvel_bounded_by_speed 0 1 0 1 (PI / 2) 0 true _ _ _ H).
Defined.

(** X11.  On the polar axis and beyond it [kepvel] does not return a
    speed: where [sin theta = 0] the azimuthal velocity is [+inf]
    (division by zero), where [sin theta < 0] it is NaN (square root of a
    negative number); the other two components stay 0. *)
Theorem kepvel_outside_domain (radius theta : R) :
  sin theta <= 0 ->
  kepvel1 (Fin radius) (Fin theta)
  = (Fin 0, Fin 0, if Rlt_dec (sin theta) 0 then NaN else PInf).
Proof.
  intro Hs. unfold kepvel1. rewrite clip_lo_Fin. cbn [fsin fmul].
  assert (He : 0 < eps) by (unfold eps; lra).
  assert (Hm : 0 < Rmax radius eps).
  { apply Rlt_le_trans with eps; [exact He | apply Rmax_r]. }
  destruct (Rlt_dec (sin theta) 0) as [L | L].
  - assert (Hneg : Rmax radius eps * sin theta < 0) by nra.
    unfold fsqrt. destruct (Rlt_dec (Rmax radius eps * sin theta) 0);
      [reflexivity | contradiction].
  - assert (E0 : sin theta = 0) by lra. rewrite E0, Rmult_0_r.
    rewrite fsqrt_Fin by lra. rewrite sqrt_0.
    cbn [fdiv]. destruct (Req_dec_T 0 0) as [_ | N]; [| contradiction].
    unfold inf_signed. destruct (Rlt_dec 0 1); [reflexivity | lra].
Qed.

Lemma kepvel_outside_domain_witness :
  sin 0 <= 0 /\
  kepvel1 (Fin 1) (Fin 0)
  = (Fin 0, Fin 0, if Rlt_dec (sin 0) 0 then NaN else PInf).
Proof.
  assert (H : sin 0 <= 0) by (rewrite sin_0; lra).
  split; [exact H | exact (kepvel_outside_domain 1 0 H)].
Defined.

End Coordinates.

(* ================================================================== *)
(** ** mockpvd: rotations, the sub-pixel axes and the [y] axis *)
(* ================================================================== *)

Section MockpvdAxes.
Import Py Np Mockpvd.

Lemma rot_Fin (x y a : R) :
  rot (Fin x) (Fin y) (Fin a)
  = (Fin (x * cos a + - (y * sin a)), Fin (x * sin a + y * cos a)).
Proof. reflexivity. Qed.

(** X12.  [rot] is a rotation: it preserves the squared length of a finite
    point, and rotating by [pa] and then by [pb] is rotating by [pa + pb]
    (so [rot] by [-pa] undoes [rot] by [pa]). *)
Theorem rot_is_rotation (x y pa pb : R) :
  let '(s, t) := rot (Fin x) (Fin y) (Fin pa) in
  (fsquare s + fsquare t)%fl = Fin (x * x + y * y) /\
  rot s t (Fin pb) = rot (Fin x) (Fin y) (Fin (pa + pb)).
Proof.
  rewrite rot_Fin. split.
  - cbn [fsquare fmul fadd]. f_equal.
    pose proof (sin2_cos2 pa) as H. unfold Rsqr in H.
    replace ((x * cos pa + - (y * sin pa)) * (x * cos pa + - (y * sin pa))
             + (x * sin pa + y * cos pa) * (x * sin pa + y * cos pa))
      with ((x * x + y * y) * (sin pa * sin pa + cos pa * cos pa)) by ring.
    rewrite H; ring.
  - rewrite !rot_Fin, cos_plus, sin_plus. f_equal; f_equal; ring.
Qed.

Lemma fneg_fadd (a b : fl) : fneg (a + b)%fl = (fneg a + fneg b)%fl.
Proof.
  destruct a as [a | | |], b as [b | | |]; cbn [fadd fneg]; try reflexivity.
  f_equal; ring.
Qed.

Lemma fneg_inf_signed' (a : R) : fneg (inf_signed a) = inf_signed (- a).
Proof.
  unfold inf_signed.
  destruct (Rlt_dec 0 a), (Rlt_dec a 0), (Rlt_dec 0 (- a)), (Rlt_dec (- a) 0);
    try reflexivity; lra.
Qed.

Lemma fmul_Fin_opp (x : fl) (c : R) : (x * Fin (- c))%fl = fneg (x * Fin c)%fl.
Proof.
  destruct x as [a | | |]; cbn [fmul fneg]; try reflexivity.
  - f_equal; ring.
  - symmetry; apply fneg_inf_signed'.
  - rewrite fneg_inf_signed'. reflexivity.
Qed.

Lemma fsquare_fneg (x : fl) : fsquare (fneg x) = fsquare x.
Proof.
  destruct x as [a | | |]; cbn [fsquare fmul fneg]; try reflexivity.
  f_equal; ring.
Qed.

Lemma fdiv_fneg_num (x c : fl) : (fneg x / c)%fl = fneg (x / c)%fl.
Proof.
  destruct x as [a | | |], c as [b | | |]; cbn [fneg fdiv]; try reflexivity.
  - destruct (Req_dec_T b 0).
    + symmetry; apply fneg_inf_signed'.
    + cbn [fneg]. f_equal. unfold Rdiv. ring.
  - f_equal; ring.
  - f_equal; ring.
  - destruct (Rlt_dec b 0); reflexivity.
  - destruct (Rlt_dec b 0); reflexivity.
Qed.

(** a half turn more negates both components, whatever the samples. *)
Lemma rot_half_turn (x y : fl) (a : R) :
  rot x y (Fin (a + PI))
  = (fneg (fst (rot x y (Fin a))), fneg (snd (rot x y (Fin a)))).
Proof.
  unfold rot. cbn [fcos fsin fst snd].
  rewrite cos_plus, sin_plus, cos_PI, sin_PI.
  replace (cos a * -1 - sin a * 0) with (- cos a) by ring.
  replace (sin a * -1 + cos a * 0) with (- sin a) by ring.
  rewrite !fmul_Fin_opp. unfold fsub. rewrite !fneg_fadd. reflexivity.
Qed.

(** X13.  The beam kernel is that of an ellipse: turning the beam position
    angle by 180 degrees leaves every weight unchanged, on any grid. *)
Theorem beam_kernel_half_turn (x y : array1) (bmaj bmin : fl) (bpa pa : R) :
  beam_kernel x y bmaj bmin (Fin (bpa + 180)) (Fin pa)
  = beam_kernel x y bmaj bmin (Fin bpa) (Fin pa).
Proof.
  unfold beam_kernel. f_equal.
  apply map_ext; intro xi. apply map_ext; intro yj.
  assert (E : radians (Fin (bpa + 180) - Fin pa)%fl
              = Fin ((bpa + - pa) * (PI / 180) + PI)).
  { unfold radians. cbn [fsub fadd fneg fmul]. f_equal. field. }
  assert (E0 : radians (Fin bpa - Fin pa)%fl = Fin ((bpa + - pa) * (PI / 180)))
    by reflexivity.
  rewrite E, E0, rot_half_turn.
  destruct (rot xi yj (Fin ((bpa + - pa) * (PI / 180)))) as [xb yb].
  cbn [fst snd]. rewrite !fdiv_fneg_num, !fsquare_fneg. reflexivity.
Qed.

(* ------------------------------------------------------------------ *)

Lemma linspace_length (a b : fl) (num : nat) : length (linspace a b num) = num.
Proof.
  destruct num as [| [| n]]; [reflexivity | reflexivity |].
  unfold linspace. rewrite length_app, length_map, length_seq. cbn. lia.
Qed.

Lemma combine_shift_length (A : Type) (l : list A) :
  length (combine (removelast l) (tl l)) = (length l - 1)%nat.
Proof.
  rewrite length_combine.
  assert (H1 : length (removelast l) = (length l - 1)%nat).
  { induction l as [| a [| b l] IH]; [reflexivity | reflexivity |].
    change (removelast (a :: b :: l)) with (a :: removelast (b :: l)).
    cbn [length] in *. lia. }
  assert (H2 : length (tl l) = (length l - 1)%nat).
  { destruct l; cbn; lia. }
  lia.
Qed.

(** X14.  [subgrid] divides every pixel into [nsubgrid] sub-pixels: an axis
    of at least two samples (of any values) comes back with
    [len(x) * nsubgrid] samples, a shorter one raises [IndexError]. *)
Theorem subgrid_length (x : array1) (nsubgrid : nat) :
  match subgrid1 x nsubgrid with
  | Ok x' => (2 <= length x)%nat /\ length x' = (length x * nsubgrid)%nat
  | Raise e => (length x < 2)%nat /\ e = IndexError
  end.
Proof.
  destruct x as [| x0 [| x1 rest]]; cbn [subgrid1]; try (split; [cbn; lia | reflexivity]).
  split; [cbn; lia |].
  rewrite length_map, combine_shift_length, linspace_length. lia.
Qed.

(** the samples of [linspace] between finite ends. *)
Lemma linspace_Fin (a b : R) (num : nat) :
  (2 <= num)%nat ->
  linspace (Fin a) (Fin b) num
  = map (fun i => Fin (a + INR i * ((b - a) / INR (num - 1)))) (seq 0 num).
Proof.
  intro H. destruct num as [| [| n]]; [lia | lia |].
  unfold linspace.
  replace (S (S n) - 1)%nat with (S n) by lia.
  assert (Hn : 0 < INR (S n)) by (apply lt_0_INR; lia).
  rewrite (seq_S (S n) 0), map_app. cbn [fsub fadd fneg].
  rewrite fdiv_Fin by lra. f_equal.
  - apply map_ext; intro i. cbn [fmul fadd]. f_equal. unfold Rminus. ring.
  - cbn [map Nat.add]. f_equal. f_equal. field. lra.
Qed.

Lemma combine_removelast (A : Type) (l : list A) :
  combine (removelast l) (tl l) = combine l (tl l).
Proof.
  induction l as [| a [| b l] IH]; [reflexivity | reflexivity |].
  change (removelast (a :: b :: l)) with (a :: removelast (b :: l)).
  cbn [tl combine] in *. f_equal. exact IH.
Qed.

Lemma combine_seq_succ (s n : nat) :
  combine (seq s (S n)) (seq (S s) n) = map (fun k => (k, S k)) (seq s n).
Proof.
  revert s. induction n as [| n IH]; intro s; [reflexivity |].
  cbn [seq combine map]. f_equal.
  change (S s :: seq (S (S s)) n) with (seq (S s) (S n)). apply IH.
Qed.

Lemma combine_shift_map (A : Type) (f : nat -> A) (n : nat) :
  combine (removelast (map f (seq 0 (S n)))) (tl (map f (seq 0 (S n))))
  = map (fun k => (f k, f (S k))) (seq 0 n).
Proof.
  rewrite combine_removelast.
  change (tl (map f (seq 0 (S n)))) with (map f (seq 1 n)).
  rewrite <- (map_id (combine _ _)).
  assert (G : forall (l1 l2 : list nat),
             combine (map f l1) (map f l2)
             = map (fun p => (f (fst p), f (snd p))) (combine l1 l2)).
  { induction l1 as [| a l1 IH]; intros [| b l2]; try reflexivity.
    cbn [map combine fst snd]. f_equal. apply IH. }
  rewrite map_id, G, combine_seq_succ, map_map. reflexivity.
Qed.

Lemma last_tabulate (A : Type) (f : nat -> A) (n : nat) (d : A) :
  last (map f (seq 0 (S n))) d = f n.
Proof. rewrite seq_S, map_app. cbn [map Nat.add]. apply last_last. Qed.

Lemma fsum_Rsum (l : list R) : fsum (map Fin l) = Fin (Axes.Rsum l).
Proof.
  induction l as [| a l IH]; [reflexivity |].
  cbn [map fsum fold_right Axes.Rsum]. fold (fsum (map Fin l)) (Axes.Rsum l).
  rewrite IH. reflexivity.
Qed.

Lemma nanmean_Fin (l : list R) :
  l <> [] -> nanmean (map Fin l) = Fin (Axes.Rsum l / INR (length l)).
Proof.
  intro Hne. unfold nanmean.
  assert (F : filter (fun x => negb (is_nan x)) (map Fin l) = map Fin l).
  { clear Hne. induction l as [| a l IH]; [reflexivity |].
    cbn [map filter is_nan negb]. rewrite IH. reflexivity. }
  rewrite F, fsum_Rsum, length_map.
  destruct l as [| a l]; [contradiction |].
  cbn [map]. rewrite fdiv_Fin; [reflexivity |].
  apply Rgt_not_eq, lt_0_INR. cbn; lia.
Qed.

Lemma Rsum_app (l1 l2 : list R) :
  Axes.Rsum (l1 ++ l2) = Axes.Rsum l1 + Axes.Rsum l2.
Proof.
  induction l1 as [| a l1 IH]; cbn [app Axes.Rsum fold_right].
  - fold (Axes.Rsum l2). lra.
  - fold (Axes.Rsum (l1 ++ l2)) (Axes.Rsum l1). rewrite IH. lra.
Qed.

(** the sum of an arithmetic progression. *)
Lemma Rsum_progression (a b : R) (n : nat) :
  Axes.Rsum (map (fun i => a + INR i * b) (seq 0 n))
  = INR n * a + b * (INR n * (INR n - 1) / 2).
Proof.
  induction n as [| n IH].
  - cbn. lra.
  - rewrite seq_S, map_app, Rsum_app, IH. cbn [map Nat.add Axes.Rsum fold_right].
    rewrite S_INR. field.
Qed.

(** the sub-pixel centres of a uniform axis are a uniform axis. *)
Lemma subgrid1_uniform (x0 d : R) (nx n : nat) :
  (2 <= nx)%nat -> (1 <= n)%nat ->
  subgrid1 (Axes.uniform_axis x0 d nx) n
  = Ok (Axes.uniform_axis (x0 - d / 2 + d / (2 * INR n)) (d / INR n) (nx * n)).
Proof.
  intros Hnx Hn.
  destruct nx as [| [| m]]; [lia | lia |].
  assert (Hx : Axes.uniform_axis x0 d (S (S m))
               = Fin (x0 + 0 * d) :: Fin (x0 + 1 * d)
                 :: map (fun i => Fin (x0 + INR i * d)) (seq 2 m)) by reflexivity.
  assert (Hlast : last (Axes.uniform_axis x0 d (S (S m))) NaN
                  = Fin (x0 + INR (S m) * d)).
  { unfold Axes.uniform_axis. apply last_tabulate. }
  assert (Hlen : length (Axes.uniform_axis x0 d (S (S m))) = S (S m)).
  { unfold Axes.uniform_axis. rewrite length_map, length_seq. reflexivity. }
  unfold subgrid1. rewrite Hlen, Hlast. rewrite Hx at 1.
  cbn [fsub fadd fneg fmul].
  set (N := (S (S m) * n)%nat).
  assert (HN : (2 <= N)%nat) by (unfold N; nia).
  rewrite linspace_Fin by lia.
  replace (N + 1)%nat with (S N) by lia.
  rewrite combine_shift_map, map_map. cbn [fst snd fadd fmul].
  unfold Axes.uniform_axis. apply f_equal. apply map_ext. intro k.
  apply f_equal.
  replace (S N - 1)%nat with N by lia.
  assert (EN : INR N = INR (S (S m)) * INR n) by (unfold N; apply mult_INR).
  assert (Pn : 0 < INR n) by (apply lt_0_INR; lia).
  assert (Pm : 0 < INR (S (S m))) by (apply lt_0_INR; lia).
  rewrite (S_INR k), EN, (S_INR (S m)).
  rewrite (S_INR (S m)) in Pm.
  set (M := INR (S m)) in *. set (nn := INR n) in *. set (K := INR k).
  clearbody M nn K.
  replace 0.5 with (1 / 2) by lra.
  field. split; lra.
Qed.

(** X15.  On a uniform axis of at least two samples [subgrid] returns the
    uniform axis of the sub-pixel centres (spacing [d / nsubgrid], first
    centre [x0 - d/2 + d/(2 nsubgrid)]), and the block average that
    [generate_pvd] takes over every [nsubgrid] neighbours gives the
    original axis back. *)
Theorem subgrid_block_means_round_trip (x0 d : R) (nx n : nat) :
  (2 <= nx)%nat -> (1 <= n)%nat ->
  exists x' : array1,
    subgrid1 (Axes.uniform_axis x0 d nx) n = Ok x' /\
    x' = Axes.uniform_axis (x0 - d / 2 + d / (2 * INR n)) (d / INR n) (nx * n) /\
    block_means n x' = Ok (Axes.uniform_axis x0 d nx).
Proof.
  intros Hnx Hn.
  eexists. split; [apply subgrid1_uniform; assumption | split; [reflexivity |]].
  set (s0 := x0 - d / 2 + d / (2 * INR n)). set (e := d / INR n).
  assert (Pn : 0 < INR n) by (apply lt_0_INR; lia).
  unfold block_means.
  assert (Hlen : length (Axes.uniform_axis s0 e (nx * n)) = (nx * n)%nat).
  { unfold Axes.uniform_axis. rewrite length_map, length_seq. reflexivity. }
  rewrite Hlen, Nat.Div0.mod_mul, Nat.div_mul by lia. cbn [Nat.eqb].
  unfold Axes.uniform_axis at 2. apply f_equal. apply map_ext_in. intros j Hj.
  apply in_seq in Hj.
  assert (E : map (fun i => nth (j * n + i) (Axes.uniform_axis s0 e (nx * n)) NaN)
                  (seq 0 n)
              = map Fin (map (fun i => (s0 + INR (j * n) * e) + INR i * e) (seq 0 n))).
  { rewrite map_map. apply map_ext_in. intros i Hi. apply in_seq in Hi.
    unfold Axes.uniform_axis. rewrite nth_tabulate by nia.
    f_equal. rewrite plus_INR. ring. }
  rewrite E, nanmean_Fin.
  - rewrite Rsum_progression, length_map, length_seq. f_equal.
    rewrite mult_INR. unfold s0, e. field. lra.
  - destruct n; [lia |]. discriminate.
Qed.

Lemma subgrid_block_means_round_trip_witness :
  (2 <= 2)%nat /\ (1 <= 3)%nat /\
  exists x' : array1,
    subgrid1 (Axes.uniform_axis 0 1 2) 3 = Ok x' /\
    x' = Axes.uniform_axis (0 - 1 / 2 + 1 / (2 * INR 3)) (1 / INR 3) (2 * 3) /\
    block_means 3 x' = Ok (Axes.uniform_axis 0 1 2).
Proof.
  assert (H1 : (2 <= 2)%nat) by lia. assert (H2 : (1 <= 3)%nat) by lia.
  split; [exact H1 | split; [exact H2 |]].
  exact (subgrid_block_means_round_trip 0 1 2 3 H1 H2).
Defined.

(* ------------------------------------------------------------------ *)

Lemma int_trunc_nonneg (a : R) : 0 <= a -> (0 <= PyX.int_trunc a)%Z.
Proof.
  intro H. unfold PyX.int_trunc. destruct (Rle_dec 0 a) as [_ | N]; [| contradiction].
  destruct (base_Int_part a) as [_ B].
  assert (L : IZR (-1) < IZR (Int_part a)) by (simpl; lra).
  apply lt_IZR in L. lia.
Qed.


Lemma arange_sym (K : nat) :
  PyX.arange (- Z.of_nat K - 1) (Z.of_nat K + 2)
  = map (fun i => (Z.of_nat i - Z.of_nat (K + 1))%Z) (seq 0 (2 * K + 3)).
Proof.
  unfold PyX.arange.
  replace (Z.to_nat (Z.of_nat K + 2 - (- Z.of_nat K - 1))) with (2 * K + 3)%nat by lia.
  apply map_ext. intro i. lia.
Qed.

(** X16.  The [y] axis that [makegrid] builds on an increasing [x] axis
    (with a beam of finite, non-negative major axis, or without a beam) has
    an odd number of samples, at least three, spaced by [dx] and centred on
    zero: the middle sample, the one at index [len(y) // 2] where
    [generate_pvd] cuts the cube, is exactly 0. *)
Theorem makegrid_y_centred
    (x0 x1 : R) (rest : array1) (beam : option (fl * fl * fl)) :
  x0 < x1 ->
  match beam with
  | Some (Fin bmaj, _, _) => 0 <= bmaj
  | Some _ => False
  | None => True
  end ->
  exists y : array1,
    makegrid_y (Fin x0 :: Fin x1 :: rest) beam = PyX.Returns y /\
    Nat.odd (length y) = true /\ (3 <= length y)%nat /\
    nth (length y / 2) y NaN = Fin 0 /\
    forall i : nat, (i < length y)%nat ->
      nth i y NaN = Fin ((INR i - INR (length y / 2)) * (x1 - x0)).
Proof.
  intros Hx Hb. unfold makegrid_y. cbn [fsub fadd fneg].
  destruct beam as [[[bmaj bmin] bpa] |].
  - destruct bmaj as [b | | |]; try contradiction.
    assert (Hd : x1 + - x0 <> 0) by lra.
    rewrite (fdiv_Fin b _ Hd). cbn [fmul].
    rewrite fdiv_Fin by lra.
    cbn [PyX.py_int PyX.bindx].
    set (a := b / (x1 + - x0) * 3 / 2.35).
    assert (Ha : 0 <= a).
    { unfold a. apply Rmult_le_pos; [| lra].
      apply Rmult_le_pos; [| lra].
      apply Rmult_le_pos; [exact Hb | left; apply Rinv_0_lt_compat; lra]. }
    pose proof (int_trunc_nonneg a Ha) as Hk.
    set (K := Z.to_nat (PyX.int_trunc a)).
    assert (EK : PyX.int_trunc a = Z.of_nat K) by (unfold K; lia).
    rewrite EK, arange_sym, map_map.
    eexists. split; [reflexivity |].
    rewrite length_map, length_seq.
    assert (Hhalf : ((2 * K + 3) / 2 = K + 1)%nat).
    { replace (2 * K + 3)%nat with (1 + (K + 1) * 2)%nat by lia.
      rewrite Nat.div_add by lia. reflexivity. }
    rewrite Hhalf.
    assert (Hnth : forall i, (i < 2 * K + 3)%nat ->
              nth i (map (fun i0 => (Fin (IZR (Z.of_nat i0 - Z.of_nat (K + 1)))
                                     * Fin (x1 + - x0))%fl)
                         (seq 0 (2 * K + 3))) NaN
              = Fin ((INR i - INR (K + 1)) * (x1 - x0))).
    { intros i Hi. rewrite nth_tabulate by exact Hi. cbn [fmul]. f_equal.
      rewrite minus_IZR, <- !INR_IZR_INZ. ring. }
    split; [| split; [lia | split; [| exact Hnth]]].
    + replace (2 * K + 3)%nat with (S (2 * (K + 1)))%nat by lia.
      rewrite Nat.odd_succ. apply Nat.even_spec. exists (K + 1)%nat. reflexivity.
    + rewrite Hnth by lia. f_equal. ring.
  - eexists. split; [reflexivity |]. cbn [length].
    change (3 / 2)%nat with 1%nat.
    split; [reflexivity | split; [lia | split; [reflexivity |]]].
    intros i Hi.
    destruct i as [| [| [| i]]]; [| | | lia]; cbn [nth INR]; f_equal; ring.
Qed.

Lemma makegrid_y_centred_witness :
  0 < 1 /\ 0 <= 5 /\
  exists y : array1,
    makegrid_y [Fin 0; Fin 1; Fin 2] (Some (Fin 5, Fin 3, Fin 0)) = PyX.Returns y /\
    Nat.odd (length y) = true /\ (3 <= length y)%nat /\
    nth (length y / 2) y NaN = Fin 0 /\
    forall i : nat, (i < length y)%nat ->
      nth i y NaN = Fin ((INR i - INR (length y / 2)) * (1 - 0)).
Proof.
  assert (H1 : 0 < 1) by lra. assert (H2 : 0 <= 5) by lra.
  split; [exact H1 | split; [exact H2 |]].
  exact (makegrid_y_centred 0 1 [Fin 2] (Some (Fin 5, Fin 3, Fin 0)) H1 H2).
Defined.

End MockpvdAxes.

(* ================================================================== *)
(** ** mockpvd: kernels, caches and shapes of [generate_pvd] *)
(* ================================================================== *)

Section PipelineMore.
Import Py Np Mockpvd Bounds.






(* ------------------------------------------------------------------ *)

Lemma flatten3_map3d (f : fl -> fl) (c : array3) :
  flatten3 (map3d f c) = map f (flatten3 c).
Proof.
  unfold flatten3, map3d. induction c as [| m c IH]; [reflexivity |].
  cbn [map concat]. rewrite map_app, IH. f_equal. apply flatten2_map2d.
Qed.

Lemma exp_le (a b : R) : a <= b -> exp a <= exp b.
Proof.
  intros [H | H]; [left; apply exp_increasing; exact H | rewrite H; lra].
Qed.

(** X21.  The intensity mapping is normalised to the peak: for a finite,
    non-negative optical-depth cube with a positive entry and
    [taumax >= 0], the brightest sample of [1 - exp(-tau / max(tau) * taumax)]
    is exactly [1 - exp(-taumax)], whatever the scale of [tau]. *)
Theorem intensity_peak (tau : array3) (tm : R) :
  all3 (fin_where nonneg) tau -> some_positive tau -> 0 <= tm ->
  exists I_cube : array3,
    intensity tau (Fin tm) = Ok I_cube /\
    nanmax (flatten3 I_cube) = Fin (1 - exp (- tm)).
Proof.
  intros Hnn Hpos Htm.
  destruct (nanmax_positive tau Hnn Hpos) as (m & Hm & Hm0).
  pose proof (Forall_flatten3 _ _ Hnn) as Hflat.
  destruct (all_fin_map _ _ Hflat) as (l & El & Hl).
  assert (Hne : l <> []).
  { intro E. rewrite E in El. cbn in El. rewrite El in Hm. discriminate Hm. }
  destruct (nanmax_Fin l Hne) as (m' & Hm' & Hin & Hmax).
  rewrite El, Hm' in Hm. injection Hm as ->.
  assert (EI : intensity tau (Fin tm)
               = Ok (map3d (fun t => (Fin 1 - fexp (- t / Fin m * Fin tm))%fl) tau)).
  { unfold intensity. rewrite El, Hm'.
    destruct l as [| a l0]; [contradiction | reflexivity]. }
  eexists. split; [exact EI |].
  rewrite flatten3_map3d, El, map_map.
  set (g := fun x : R => 1 - exp (- x / m * tm)).
  assert (Eg : map (fun x => (Fin 1 - fexp (- Fin x / Fin m * Fin tm))%fl) l
               = map Fin (map g l)).
  { rewrite map_map. apply map_ext. intro x. cbn [fneg].
    rewrite fdiv_Fin by lra. reflexivity. }
  rewrite Eg.
  assert (Hne' : map g l <> []) by (destruct l; [contradiction | discriminate]).
  destruct (nanmax_Fin (map g l) Hne') as (M & HM & HinM & HmaxM).
  rewrite HM. f_equal.
  assert (Egm : g m = 1 - exp (- tm)).
  { unfold g. f_equal. f_equal. field. lra. }
  rewrite <- Egm.
  apply Rle_antisym.
  - apply in_map_iff in HinM. destruct HinM as (x & <- & Hx).
    unfold g. specialize (Hmax x Hx).
    assert (- m / m * tm <= - x / m * tm).
    { apply Rmult_le_compat_r; [exact Htm |].
      apply Rmult_le_compat_r; [left; apply Rinv_0_lt_compat; exact Hm0 | lra]. }
    pose proof (exp_le _ _ H). lra.
  - apply HmaxM. apply in_map. exact Hin.
Qed.

Lemma intensity_peak_witness :
  all3 (fin_where nonneg) Examples.tau_last_channel /\
  some_positive Examples.tau_last_channel /\ 0 <= 3 /\
  exists I_cube : array3,
    intensity Examples.tau_last_channel (Fin 3) = Ok I_cube /\
    nanmax (flatten3 I_cube) = Fin (1 - exp (- 3)).
Proof.
  assert (H1 : all3 (fin_where nonneg) Examples.tau_last_channel).
  { unfold Examples.tau_last_channel.
    repeat constructor; eexists; (split; [reflexivity | unfold nonneg; lra]). }
  assert (H2 : some_positive Examples.tau_last_channel).
  { unfold some_positive, Examples.tau_last_channel.
    apply Exists_cons_tl, Exists_cons_hd, Exists_cons_hd, Exists_cons_hd.
    exists 2. split; [reflexivity | unfold positive; lra]. }
  assert (H3 : 0 <= 3) by lra.
  split; [exact H1 | split; [exact H2 | split; [exact H3 |]]].
  exact (intensity_peak Examples.tau_last_channel 3 H1 H2 H3).
Defined.

(* ------------------------------------------------------------------ *)

Lemma map_nth_seq_firstn (A : Type) (l : list A) (d : A) (n : nat) :
  (n <= length l)%nat -> map (fun i => nth i l d) (seq 0 n) = firstn n l.
Proof.
  revert l. induction n as [| n IH]; intros l H; [reflexivity |].
  destruct l as [| a l]; [cbn in H; lia |].
  cbn [seq map nth firstn]. f_equal.
  rewrite <- seq_shift, map_map. apply IH. cbn in H; lia.
Qed.

Lemma nth_skipn' (A : Type) (l : list A) (d : A) (n i : nat) :
  nth i (skipn n l) d = nth (n + i) l d.
Proof.
  revert l. induction n as [| n IH]; intro l; [reflexivity |].
  destruct l as [| a l]; [destruct i; reflexivity |]. cbn [skipn Nat.add nth]. apply IH.
Qed.

Lemma Rsum_scale (c : R) (l : list R) :
  Axes.Rsum (map (fun x => x / c) l) = Axes.Rsum l / c.
Proof.
  induction l as [| a l IH]; cbn [map Axes.Rsum fold_right].
  - unfold Rdiv; ring.
  - fold (Axes.Rsum (map (fun x => x / c) l)) (Axes.Rsum l). rewrite IH.
    unfold Rdiv; ring.
Qed.

(** the blocks of [n] neighbours of a list of [q * n] numbers add up to
    the list. *)
Lemma Rsum_blocks (n q : nat) (row : list R) :
  length row = (q * n)%nat ->
  Axes.Rsum (map (fun j => Axes.Rsum (map (fun i => nth (j * n + i) row 0) (seq 0 n)))
                 (seq 0 q))
  = Axes.Rsum row.
Proof.
  revert row. induction q as [| q IH]; intros row H.
  - destruct row; [reflexivity | discriminate].
  - cbn [seq map Axes.Rsum fold_right].
    fold (Axes.Rsum (map (fun j => Axes.Rsum (map (fun i => nth (j * n + i) row 0)
                                                 (seq 0 n))) (seq 1 q))).
    replace (Axes.Rsum row)
      with (Axes.Rsum (firstn n row) + Axes.Rsum (skipn n row))
      by (rewrite <- Rsum_app, firstn_skipn; reflexivity).
    f_equal.
    + cbn [Nat.mul Nat.add]. f_equal. apply map_nth_seq_firstn. lia.
    + rewrite <- (IH (skipn n row)) by (rewrite length_skipn; lia).
      rewrite <- seq_shift, map_map. f_equal. apply map_ext. intro j.
      f_equal. apply map_ext. intro i. rewrite nth_skipn'. f_equal. lia.
Qed.

(** X22.  The sub-grid averaging of [generate_pvd] conserves the total of
    a row: on a finite row whose length is a multiple of [nsubgrid] every
    output sample is finite and [nsubgrid] times the sum of the output
    equals the sum of the input. *)
Theorem block_means_conserve_total (n : nat) (row : list R) :
  (0 < n)%nat -> (length row mod n = 0)%nat ->
  exists out : list R,
    block_means n (map Fin row) = Ok (map Fin out) /\
    length out = (length row / n)%nat /\
    INR n * Axes.Rsum out = Axes.Rsum row.
Proof.
  intros Hn Hmod.
  assert (Hq : length row = (length row / n * n)%nat).
  { pose proof (Nat.div_mod_eq (length row) n). lia. }
  set (q := (length row / n)%nat) in *.
  assert (Pn : 0 < INR n) by (apply lt_0_INR; exact Hn).
  exists (map (fun j => Axes.Rsum (map (fun i => nth (j * n + i) row 0) (seq 0 n)) / INR n)
              (seq 0 q)).
  split; [| split].
  - unfold block_means. rewrite length_map, Hmod. cbn [Nat.eqb]. fold q.
    apply f_equal. rewrite map_map. apply map_ext_in. intros j Hj. apply in_seq in Hj.
    assert (E : map (fun i => nth (j * n + i) (map Fin row) NaN) (seq 0 n)
                = map Fin (map (fun i => nth (j * n + i) row 0) (seq 0 n))).
    { rewrite map_map. apply map_ext_in. intros i Hi. apply in_seq in Hi.
      rewrite (nth_indep _ NaN (Fin 0)) by (rewrite length_map; nia).
      apply map_nth. }
    rewrite E, nanmean_Fin.
    + rewrite length_map, length_seq. reflexivity.
    + destruct n; [lia |]. discriminate.
  - rewrite length_map, length_seq. reflexivity.
  - rewrite <- (map_map (fun j => Axes.Rsum (map (fun i => nth (j * n + i) row 0) (seq 0 n)))
                        (fun s => s / INR n)).
    rewrite Rsum_scale, (Rsum_blocks n q row Hq). field. lra.
Qed.

Lemma block_means_conserve_total_witness :
  (0 < 2)%nat /\ (length [1; 3; 5; 7] mod 2 = 0)%nat /\
  exists out : list R,
    block_means 2 (map Fin [1; 3; 5; 7]) = Ok (map Fin out) /\
    length out = (length [1; 3; 5; 7] / 2)%nat /\
    INR 2 * Axes.Rsum out = Axes.Rsum [1; 3; 5; 7].
Proof.
  assert (H1 : (0 < 2)%nat) by lia.
  assert (H2 : (length [1; 3; 5; 7] mod 2 = 0)%nat) by reflexivity.
  split; [exact H1 | split; [exact H2 |]].
  exact (block_means_conserve_total 2 [1; 3; 5; 7] H1 H2).
Defined.

(* ------------------------------------------------------------------ *)

Section Caches.

Variable G : Type.
Variable gny : G -> nat.
Variable ia : G -> array2 -> array3.
Variable r2c : precalc -> array1 -> array1 -> array2.

(** the caches after a call, entry by entry. *)
Lemma generate_pvd_caches (self : MockPVD G) (st : precalc)
    (rho vlos : array1) (taumax : fl) (beam : option (fl * fl * fl))
    (linewidth : option fl) (pa : fl) :
  let st' := snd (generate_pvd G gny ia r2c self st rho vlos taumax beam linewidth pa) in
  (forall e, vedge st = Some e -> vedge st' = Some e) /\
  (forall g, gauss_v st = Some g -> gauss_v st' = Some g) /\
  (forall g, gauss_xy st = Some g -> gauss_xy st' = Some g).
Proof.
  cbv zeta. unfold generate_pvd.
  destruct (self_v G self) as [| v0 [| v1 vs]];
    [cbn [snd]; repeat split; intros; assumption
    | cbn [snd]; repeat split; intros; assumption |].
  set (st1 := match vedge st with
              | Some _ => st
              | None => set_vedge st (bin_edges (v0 :: v1 :: vs) (v1 - v0)%fl)
              end).
  assert (H1 : (forall e, vedge st = Some e -> vedge st1 = Some e) /\
               gauss_v st1 = gauss_v st /\ gauss_xy st1 = gauss_xy st).
  { unfold st1. destruct (vedge st) as [e0 |] eqn:Ev.
    - repeat split. intros e He. rewrite Ev; exact He.
    - repeat split. intros e He; discriminate. }
  destruct H1 as (A1 & A2 & A3).
  set (tau := ia (grid G self) (r2c st1 vlos rho)).
  set (sp := match linewidth with
             | Some lw => spectral_step st1 (v0 :: v1 :: vs) lw tau
             | None => (tau, st1)
             end).
  assert (H2 : vedge (snd sp) = vedge st1 /\
               (forall g, gauss_v st1 = Some g -> gauss_v (snd sp) = Some g) /\
               gauss_xy (snd sp) = gauss_xy st1).
  { unfold sp. destruct linewidth as [lw |]; [| repeat split; intros; assumption].
    unfold spectral_step. destruct (gauss_v st1) as [g0 |] eqn:Eg; cbn [snd].
    - repeat split. intros g Hg. rewrite Eg; exact Hg.
    - repeat split. intros g Hg; discriminate. }
  destruct H2 as (B1 & B2 & B3).
  destruct sp as [tau2 st2]. cbn [snd] in B1, B2, B3.
  destruct (intensity tau2 taumax) as [I_cube | e].
  - set (bm := match beam with
               | Some b => beam_step G self st2 b pa I_cube
               | None => (Ok I_cube, st2)
               end).
    assert (H3 : vedge (snd bm) = vedge st2 /\ gauss_v (snd bm) = gauss_v st2 /\
                 (forall g, gauss_xy st2 = Some g -> gauss_xy (snd bm) = Some g)).
    { unfold bm. destruct beam as [[[bmaj bmin] bpa] |];
        [| repeat split; intros; assumption].
      unfold beam_step. destruct (gauss_xy st2) as [g0 |] eqn:Eg; cbn [snd].
      - repeat split. intros g Hg. rewrite Eg; exact Hg.
      - destruct (self_y G self); cbn [snd]; repeat split; intros g Hg; discriminate. }
    destruct H3 as (C1 & C2 & C3).
    destruct bm as [I2 st3]. cbn [snd] in *.
    repeat split.
    + intros e He. rewrite C1, B1. apply A1; exact He.
    + intros g Hg. rewrite C2. apply B2. rewrite A2; exact Hg.
    + intros g Hg. apply C3. rewrite B3, A3; exact Hg.
  - cbn [snd]. repeat split.
    + intros e' He. rewrite B1. apply A1; exact He.
    + intros g Hg. apply B2. rewrite A2; exact Hg.
    + intros g Hg. rewrite B3, A3; exact Hg.
Qed.

(** X19.  [generate_pvd] never replaces a cache entry: whatever the
    arguments and whatever the outcome of the call (a PV array or an
    exception), bin edges and kernels that are in the cache before the
    call are the same objects after it. *)
Theorem generate_pvd_never_overwrites_cache (self : MockPVD G) (st : precalc)
    (rho vlos : array1) (taumax : fl) (beam : option (fl * fl * fl))
    (linewidth : option fl) (pa : fl) :
  let st' := snd (generate_pvd G gny ia r2c self st rho vlos taumax beam linewidth pa) in
  (forall e, vedge st = Some e -> vedge st' = Some e) /\
  (forall g, gauss_v st = Some g -> gauss_v st' = Some g) /\
  (forall g, gauss_xy st = Some g -> gauss_xy st' = Some g).
Proof. apply generate_pvd_caches. Qed.

(** with no beam, or with a beam kernel in the cache, [generate_pvd] does
    not look at [pa]. *)
Lemma generate_pvd_pa_unused (self : MockPVD G) (st : precalc)
    (rho vlos : array1) (taumax : fl) (beam : option (fl * fl * fl))
    (linewidth : option fl) (pa pa' : fl) :
  beam = None \/ gauss_xy st <> None ->
  generate_pvd G gny ia r2c self st rho vlos taumax beam linewidth pa
  = generate_pvd G gny ia r2c self st rho vlos taumax beam linewidth pa'.
Proof.
  intro H. unfold generate_pvd.
  destruct (self_v G self) as [| v0 [| v1 vs]]; [reflexivity | reflexivity |].
  set (st1 := match vedge st with
              | Some _ => st
              | None => set_vedge st (bin_edges (v0 :: v1 :: vs) (v1 - v0)%fl)
              end).
  assert (A3 : gauss_xy st1 = gauss_xy st) by (unfold st1; destruct (vedge st); reflexivity).
  set (tau := ia (grid G self) (r2c st1 vlos rho)).
  set (sp := match linewidth with
             | Some lw => spectral_step st1 (v0 :: v1 :: vs) lw tau
             | None => (tau, st1)
             end).
  assert (B3 : gauss_xy (snd sp) = gauss_xy st1).
  { unfold sp. destruct linewidth as [lw |]; [| reflexivity].
    unfold spectral_step. destruct (gauss_v st1); reflexivity. }
  destruct sp as [tau2 st2]. cbn [snd] in B3.
  destruct (intensity tau2 taumax) as [I_cube | e]; [| reflexivity].
  destruct beam as [b |]; [| reflexivity].
  destruct H as [H | H]; [discriminate |].
  unfold beam_step. rewrite B3, A3.
  destruct (gauss_xy st) as [g |]; [reflexivity | contradiction].
Qed.

(** a call with a beam that returns a PV array leaves a beam kernel in the
    cache. *)
Lemma generate_pvd_fills_beam_cache (self : MockPVD G) (st st' : precalc)
    (rho vlos : array1) (taumax : fl) (b : fl * fl * fl)
    (linewidth : option fl) (pa : fl) (I_pv : array2) :
  generate_pvd G gny ia r2c self st rho vlos taumax (Some b) linewidth pa
  = (Ok I_pv, st') ->
  gauss_xy st' <> None.
Proof.
  unfold generate_pvd.
  destruct (self_v G self) as [| v0 [| v1 vs]]; [discriminate | discriminate |].
  set (st1 := match vedge st with
              | Some _ => st
              | None => set_vedge st (bin_edges (v0 :: v1 :: vs) (v1 - v0)%fl)
              end).
  set (tau := ia (grid G self) (r2c st1 vlos rho)).
  destruct (match linewidth with
            | Some lw => spectral_step st1 (v0 :: v1 :: vs) lw tau
            | None => (tau, st1)
            end) as [tau2 st2].
  destruct (intensity tau2 taumax) as [I_cube | e]; [| discriminate].
  unfold beam_step. destruct b as [[bmaj bmin] bpa].
  destruct (gauss_xy st2) as [g |] eqn:Eg.
  - intro E. injection E as _ <-. rewrite Eg. discriminate.
  - destruct (self_y G self) as [y |].
    + intro E. injection E as _ <-. discriminate.
    + cbn [bind]. discriminate.
Qed.

Lemma flatten3_nonempty (n1 n2 : nat) (c : array3) :
  c <> [] -> rect3 n1 n2 c -> (0 < n1)%nat -> (0 < n2)%nat -> flatten3 c <> [].
Proof.
  intros Hne Hr H1 H2. destruct c as [| m c]; [contradiction |].
  inversion Hr as [| ? ? [Hlen Hrows] _]; subst.
  destruct m as [| row m]; [cbn in H1; lia |].
  inversion Hrows as [| ? ? Hrow _]; subst.
  destruct row as [| x row]; [cbn in H2; lia |].
  cbn. discriminate.
Qed.

Lemma conv_axes12_rect (n1 n2 : nat) (c : array3) (g : array2) :
  rect3 n1 n2 c -> rect3 n1 n2 (conv_same_axes12 c g).
Proof.
  intro H. unfold rect3, conv_same_axes12. apply Forall_map.
  eapply Forall_impl; [| exact H]. intros m Hm. apply conv2d_rect; exact Hm.
Qed.

Lemma block_means_length (n : nat) (row : array1) :
  (length row mod n = 0)%nat ->
  exists out, block_means n row = Ok out /\ length out = (length row / n)%nat.
Proof.
  intro H. unfold block_means. rewrite H. cbn [Nat.eqb].
  eexists. split; [reflexivity |]. rewrite length_map, length_seq. reflexivity.
Qed.

Lemma subgrid_mean_shape (n n1 : nat) (I_pv : array2) :
  (n1 mod n = 0)%nat -> Forall (fun row => length row = n1) I_pv ->
  exists out, subgrid_mean n I_pv = Ok out /\ length out = length I_pv /\
              Forall (fun row => length row = (n1 / n)%nat) out.
Proof.
  intros Hmod H. induction H as [| row rest Hrow _ (out & E & L & F)].
  - exists []. repeat split. constructor.
  - destruct (block_means_length n row) as (r & Er & Lr); [rewrite Hrow; exact Hmod |].
    exists (r :: out). cbn [subgrid_mean]. rewrite Er. cbn [bind]. rewrite E. cbn [bind].
    split; [reflexivity | split; [cbn; lia |]].
    constructor; [rewrite Lr, Hrow; reflexivity | exact F].
Qed.

(** X23.  The PV array returned by [generate_pvd] has one row per channel
    of the optical-depth cube and one column per pixel of the [x] axis
    ([nx / nsubgrid] columns when sub-pixels are averaged): for a
    non-empty cube of shape (nv, nx, ny) with [nx, ny > 0], a beam kernel
    that is cached or can be built, and [nx] a multiple of [nsubgrid]. *)
Theorem generate_pvd_shape (self : MockPVD G) (st : precalc)
    (rho vlos : array1) (taumax : fl) (beam : option (fl * fl * fl))
    (linewidth : option fl) (pa : fl) (nx : nat) (v0 v1 : fl) (vs : array1) :
  self_v G self = v0 :: v1 :: vs ->
  let st1 := match vedge st with
             | None => set_vedge st (bin_edges (v0 :: v1 :: vs) (v1 - v0)%fl)
             | Some _ => st
             end in
  let tau_v := ia (grid G self) (r2c st1 vlos rho) in
  tau_v <> [] -> rect3 nx (gny (grid G self)) tau_v ->
  (0 < nx)%nat -> (0 < gny (grid G self))%nat ->
  (beam = None \/ gauss_xy st <> None \/ self_y G self <> None) ->
  (nsubgrid G self <= 1 \/ nx mod nsubgrid G self = 0)%nat ->
  exists (I_pv : array2) (st' : precalc),
    generate_pvd G gny ia r2c self st rho vlos taumax beam linewidth pa
    = (Ok I_pv, st') /\
    length I_pv = length tau_v /\
    Forall (fun row => length row
                       = if (1 <? nsubgrid G self)%nat then (nx / nsubgrid G self)%nat
                         else nx) I_pv.
Proof.
  intros Hv st1 tau_v Hne Hrect Hnx Hny Hbeam Hsub.
  unfold generate_pvd. rewrite Hv. fold st1. fold tau_v.
  assert (A3 : gauss_xy st1 = gauss_xy st) by (unfold st1; destruct (vedge st); reflexivity).
  set (sp := match linewidth with
             | Some lw => spectral_step st1 (v0 :: v1 :: vs) lw tau_v
             | None => (tau_v, st1)
             end).
  assert (B : rect3 nx (gny (grid G self)) (fst sp) /\ length (fst sp) = length tau_v /\
              gauss_xy (snd sp) = gauss_xy st1).
  { unfold sp. destruct linewidth as [lw |]; [| repeat split; assumption].
    unfold spectral_step. destruct (gauss_v st1) as [g |]; cbn [fst snd];
      (split; [apply conv_axis0_rect; exact Hrect
              | split; [unfold conv_same_axis0; apply length_mapi | reflexivity]]). }
  destruct B as (B1 & B2 & B3). destruct sp as [tau2 st2]. cbn [fst snd] in B1, B2, B3.
  assert (Hne2 : tau2 <> []).
  { intro E. rewrite E in B2. cbn in B2. destruct tau_v; [contradiction | discriminate]. }
  pose proof (flatten3_nonempty _ _ _ Hne2 B1 Hnx Hny) as Hfl.
  set (f := fun t => (Fin 1 - fexp (- t / nanmax (flatten3 tau2) * taumax))%fl).
  assert (EI : intensity tau2 taumax = Ok (map3d f tau2)).
  { unfold intensity. destruct (flatten3 tau2); [contradiction | reflexivity]. }
  rewrite EI.
  assert (C1 : rect3 nx (gny (grid G self)) (map3d f tau2)) by (apply rect3_map3d; exact B1).
  assert (C2 : length (map3d f tau2) = length tau_v).
  { unfold map3d. rewrite length_map. exact B2. }
  set (bm := match beam with
             | Some b => beam_step G self st2 b pa (map3d f tau2)
             | None => (Ok (map3d f tau2), st2)
             end).
  assert (D : exists I2 st3, bm = (Ok I2, st3) /\
                rect3 nx (gny (grid G self)) I2 /\ length I2 = length tau_v).
  { unfold bm. destruct beam as [[[bmaj bmin] bpa] |].
    - unfold beam_step. rewrite B3, A3.
      destruct (gauss_xy st) as [g |].
      + eexists. eexists. split; [reflexivity |].
        split; [apply conv_axes12_rect; exact C1 |].
        unfold conv_same_axes12. rewrite length_map. exact C2.
      + destruct (self_y G self) as [y |].
        * eexists. eexists. split; [reflexivity |].
          split; [apply conv_axes12_rect; exact C1 |].
          unfold conv_same_axes12. rewrite length_map. exact C2.
        * exfalso. destruct Hbeam as [H | [H | H]];
            [discriminate | apply H; reflexivity | apply H; reflexivity].
    - eexists. eexists. split; [reflexivity | split; assumption]. }
  destruct D as (I2 & st3 & Ebm & D1 & D2). rewrite Ebm. cbn [bind].
  assert (Hj : (gny (grid G self) / 2 < gny (grid G self))%nat)
    by (apply Nat.div_lt; lia).
  rewrite (slice_y_rect _ _ _ _ D1 Hj). cbn [bind].
  destruct (slice_props (fun _ => True) _ _ _ I2 D1 Hj) as [S1 _].
  { unfold all3. clear. induction I2 as [| m c IH]; constructor; [| exact IH].
    induction m as [| r m IHm]; constructor; [| exact IHm].
    induction r; constructor; [exact I | assumption]. }
  set (I_pv := map (fun m => map (fun row => nth (gny (grid G self) / 2) row NaN) m) I2) in *.
  assert (S2 : length I_pv = length tau_v)
    by (unfold I_pv; rewrite length_map; exact D2).
  destruct (1 <? nsubgrid G self)%nat eqn:Hs.
  - apply Nat.ltb_lt in Hs.
    destruct Hsub as [Hsub | Hsub]; [lia |].
    destruct (subgrid_mean_shape (nsubgrid G self) nx I_pv Hsub S1) as (out & E & L & F).
    exists out, st3. split; [rewrite E; reflexivity | split; [lia | exact F]].
  - exists I_pv, st3. split; [reflexivity | split; [exact S2 | exact S1]].
Qed.

Variable build :
  MockPVD G -> precalc -> fl -> fl -> fl -> fl -> fl -> fl -> option fl ->
  string -> bool -> result (array1 * array1) * precalc.

(** X20.  With [axis='both'] the second position angle is never used:
    [generate_mockpvd] returns the same two PV arrays (or raises the same
    exception) and leaves the same caches whatever [pa[1]] is, because the
    beam kernel of the second cut is the one cached by the first. *)
Theorem generate_mockpvd_both_ignores_second_pa
    (self : MockPVD G) (st : precalc)
    (Mstar Rc alphainfall taumax frho incl : fl) (pa0 pa1 pa1' : fl)
    (linewidth : option fl) (rin : fl) (rout : option fl) :
  generate_mockpvd G gny ia r2c build self st Mstar Rc alphainfall taumax frho
    incl (PaList [pa0; pa1]) linewidth rin rout "both"
  = generate_mockpvd G gny ia r2c build self st Mstar Rc alphainfall taumax frho
      incl (PaList [pa0; pa1']) linewidth rin rout "both".
Proof.
  unfold generate_mockpvd.
  change (negb (existsb (String.eqb "both") ["major"; "minor"; "both"]%string))
    with false.
  change (String.eqb "both" "both") with true. cbv iota.
  destruct (build self st Mstar Rc incl alphainfall frho rin rout "major" false)
    as [[[rho_maj vlos_maj] | e] st1]; [| reflexivity].
  destruct (build self st1 Mstar Rc incl alphainfall frho rin rout "minor" false)
    as [[[rho_min vlos_min] | e] st2]; [| reflexivity].
  cbn [combine pvd_loop].
  set (r1 := map (fun x => (x / nanmax [nanmax rho_maj; nanmax rho_min])%fl) rho_maj).
  set (r2 := map (fun x => (x / nanmax [nanmax rho_maj; nanmax rho_min])%fl) rho_min).
  destruct (generate_pvd G gny ia r2c self st2 r1 vlos_maj taumax
              (self_beam G self) linewidth pa0) as [[I1 | e] st3] eqn:E1;
    [| reflexivity].
  rewrite (generate_pvd_pa_unused self st3 r2 vlos_min taumax (self_beam G self)
             linewidth pa1 pa1'); [reflexivity |].
  destruct (self_beam G self) as [b |]; [right | left; reflexivity].
  exact (generate_pvd_fills_beam_cache self st2 st3 r1 vlos_maj taumax b
           linewidth pa0 I1 E1).
Qed.

End Caches.

End PipelineMore.

(* ================================================================== *)
(** ** pvsilhouette: [getquad] and [sampling] *)
(* ================================================================== *)

Section PvdataTheorems.
Import Py Np Pvdata.








Lemma fsum_NaN (l : array1) : In NaN l -> fsum l = NaN.
Proof.
  induction l as [| x l IH]; intro H; [contradiction |].
  cbn [fsum fold_right]. fold (fsum l). destruct H as [-> | H].
  - reflexivity.
  - rewrite IH by exact H. destruct x; reflexivity.
Qed.





Lemma In_halves (A : Type) (k : nat) (l : list A) (x : A) :
  In x l -> In x (firstn k l) \/ In x (skipn k l).
Proof.
  intro H. rewrite <- (firstn_skipn k l) in H. apply in_app_or in H. exact H.
Qed.

Lemma sum2_NaN (m : array2) (row : array1) :
  In row m -> In NaN row -> sum2 m = NaN.
Proof.
  intros Hr Hx. unfold sum2, flatten2. apply fsum_NaN.
  apply in_concat. exists row. split; assumption.
Qed.

Lemma fadd_NaN_l (a : fl) : (NaN + a)%fl = NaN.
Proof. reflexivity. Qed.

Lemma fadd_NaN_r (a : fl) : (a + NaN)%fl = NaN.
Proof. destruct a; reflexivity. Qed.

(** X25.  A single NaN pixel makes [getquad] fail: whenever some row of
    the diagram holds a NaN, the quadrant sum is NaN and [getquad] raises
    [ValueError] (the conversion [int(nan)]). *)
Theorem getquad_nan_raises (m : array2) (row : array1) :
  In row m -> In NaN row -> getquad m = Raise ValueError.
Proof.
  intros Hrow Hnan. unfold getquad.
  set (nv := length m). set (nx := length (nth 0 m [])).
  set (TL := sum2 (map (firstn (nx / 2)) (firstn (nv / 2) m))).
  set (BR := sum2 (map (skipn (nx / 2)) (skipn (nv / 2) m))).
  set (BL := sum2 (map (firstn (nx / 2)) (skipn (nv / 2) m))).
  set (TR := sum2 (map (skipn (nx / 2)) (firstn (nv / 2) m))).
  assert (H : TL = NaN \/ BR = NaN \/ BL = NaN \/ TR = NaN).
  { destruct (In_halves _ (nv / 2) m row Hrow) as [Hr | Hr];
      destruct (In_halves _ (nx / 2) row NaN Hnan) as [Hx | Hx].
    - left. unfold TL. eapply sum2_NaN; [apply in_map; exact Hr | exact Hx].
    - right; right; right. unfold TR.
      eapply sum2_NaN; [apply in_map; exact Hr | exact Hx].
    - right; right; left. unfold BL.
      eapply sum2_NaN; [apply in_map; exact Hr | exact Hx].
    - right; left. unfold BR.
      eapply sum2_NaN; [apply in_map; exact Hr | exact Hx]. }
  assert (Q : (TL + BR - BL - TR)%fl = NaN).
  { unfold fsub. destruct H as [-> | [-> | [-> | ->]]].
    - reflexivity.
    - rewrite fadd_NaN_r. reflexivity.
    - cbn [fneg]. rewrite fadd_NaN_r. reflexivity.
    - cbn [fneg]. apply fadd_NaN_r. }
  rewrite Q. reflexivity.
Qed.

Lemma getquad_nan_raises_witness :
  In [Fin 1; NaN] [[Fin 1; NaN]; [Fin 0; Fin 2]] /\ In NaN [Fin 1; NaN] /\
  getquad [[Fin 1; NaN]; [Fin 0; Fin 2]] = Raise ValueError.
Proof.
  assert (H1 : In [Fin 1; NaN] [[Fin 1; NaN]; [Fin 0; Fin 2]]) by (left; reflexivity).
  assert (H2 : In NaN [Fin 1; NaN]) by (right; left; reflexivity).
  split; [exact H1 | split; [exact H2 | exact (getquad_nan_raises _ _ H1 H2)]].
Defined.

(* ------------------------------------------------------------------ *)

Lemma pick_length (A B : Type) (a : list A) (b : list B) (i : Z) :
  length a = length b -> length (pick a i) = length (pick b i).
Proof.
  intro H. unfold pick.
  destruct (nth_error a (Z.to_nat i)) as [x |] eqn:Ea;
    destruct (nth_error b (Z.to_nat i)) as [y |] eqn:Eb; try reflexivity.
  - apply nth_error_None in Eb.
    assert (nth_error a (Z.to_nat i) <> None) by (rewrite Ea; discriminate).
    apply nth_error_Some in H0. lia.
  - apply nth_error_None in Ea.
    assert (nth_error b (Z.to_nat i) <> None) by (rewrite Eb; discriminate).
    apply nth_error_Some in H0. lia.
Qed.

Lemma flat_pick_length (A B : Type) (a : list A) (b : list B)
    (idx : nat -> Z) (l : list nat) :
  length a = length b ->
  length (flat_map (fun j => pick a (idx j)) l)
  = length (flat_map (fun j => pick b (idx j)) l).
Proof.
  intro H. induction l as [| j l IH]; [reflexivity |].
  cbn [flat_map]. rewrite !length_app, IH, (pick_length _ _ a b (idx j) H).
  reflexivity.
Qed.

(** the number of entries of a slice depends on the length of the list
    only. *)
Lemma slice_from_length (A B : Type) (start step : Z) (a : list A) (b : list B) :
  length a = length b ->
  length (slice_from start step a) = length (slice_from start step b).
Proof.
  intro H. unfold slice_from. rewrite H.
  destruct (0 <? step)%Z; apply flat_pick_length; exact H.
Qed.

Lemma slice_from_In (A : Type) (start step : Z) (a : list A) (x : A) :
  In x (slice_from start step a) -> In x a.
Proof.
  unfold slice_from. intro H.
  assert (G : forall (idx : nat -> Z) (l : list nat),
             In x (flat_map (fun j => pick a (idx j)) l) -> In x a).
  { intros idx l Hin. apply in_flat_map in Hin. destruct Hin as (j & _ & Hj).
    unfold pick in Hj. destruct (nth_error a (Z.to_nat (idx j))) as [e |] eqn:E;
      [| contradiction].
    destruct Hj as [<- | []]. eapply nth_error_In; exact E. }
  destruct (0 <? step)%Z; eapply G; exact H.
Qed.

Lemma sliced_aligned (data : array2) (v x : array1) (xs xk ys yk : Z) :
  length data = length v ->
  Forall (fun row => length row = length x) data ->
  length (map (slice_from xs xk) (slice_from ys yk data))
  = length (slice_from ys yk v) /\
  Forall (fun row => length row = length (slice_from xs xk x))
         (map (slice_from xs xk) (slice_from ys yk data)).
Proof.
  intros H1 H2. split.
  - rewrite length_map. apply slice_from_length; exact H1.
  - apply Forall_map. rewrite Forall_forall in *. intros row Hin.
    apply slice_from_length. apply H2. eapply slice_from_In; exact Hin.
Qed.

(** X26.  [sampling] keeps the data array aligned with its axes: if the
    array has one row per velocity channel and one column per position
    before the call, it has so after it, whatever the steps and whether the
    call returns or raises. *)
Theorem sampling_keeps_alignment (self : pvsil) (steps : fl * fl) :
  aligned self -> aligned (fst (sampling self steps)).
Proof.
  intros [H1 H2]. unfold sampling. destruct steps as [sx sy].
  destruct (PyX.py_truediv (pv_bmin self) sx) as [r |]; [| split; assumption].
  destruct (PyX.py_int (r / pv_dx self)%fl) as [kx |]; [| split; assumption].
  destruct (PyX.py_truediv (Fin 1) sy) as [r' |]; [| split; assumption].
  destruct (PyX.py_int r') as [ky |]; [| split; assumption].
  pose proof (sliced_aligned (pv_data self) (pv_v self) (pv_x self)
                (nonzero_step kx / 2) (nonzero_step kx)
                (nonzero_step ky / 2) (nonzero_step ky) H1 H2) as [A1 A2].
  destruct (first_step _) as [dx |]; [| split; assumption].
  destruct (first_step _) as [dv |]; split; assumption.
Qed.

Lemma sampling_keeps_alignment_witness :
  aligned {| pv_bmin := Fin 10; pv_dx := Fin 1; pv_dv := Fin 1;
             pv_data := [[Fin 1; Fin 2]; [Fin 3; Fin 4]];
             pv_v := [Fin 0; Fin 1]; pv_x := [Fin 0; Fin 1] |} /\
  aligned (fst (sampling
                  {| pv_bmin := Fin 10; pv_dx := Fin 1; pv_dv := Fin 1;
                     pv_data := [[Fin 1; Fin 2]; [Fin 3; Fin 4]];
                     pv_v := [Fin 0; Fin 1]; pv_x := [Fin 0; Fin 1] |}
                  (Fin 5, Fin 1))).
Proof.
  assert (H : aligned {| pv_bmin := Fin 10; pv_dx := Fin 1; pv_dv := Fin 1;
                         pv_data := [[Fin 1; Fin 2]; [Fin 3; Fin 4]];
                         pv_v := [Fin 0; Fin 1]; pv_x := [Fin 0; Fin 1] |}).
  { split; [reflexivity | repeat constructor]. }
  split; [exact H | exact (sampling_keeps_alignment _ (Fin 5, Fin 1) H)].
Defined.

(* ------------------------------------------------------------------ *)







End PvdataTheorems.

(* ================================================================== *)
(** ** The shape of a PV array on the small grid *)
(* ================================================================== *)

Section ShapeExample.
Import Py Np Mockpvd Bounds Examples.

Lemma generate_pvd_shape_witness :
  exists (I_pv : array2) (st' : precalc),
    Pipeline.generate_pvd self0 precalc_init ones (uniform 0) (Fin 1) None
      (Some (Fin 1)) (Fin 0)
    = (Ok I_pv, st') /\
    length I_pv = 2%nat /\ Forall (fun row => length row = 2%nat) I_pv.
Proof.
  assert (T : NestedGrid.integrate_along grid0
                (NestedGrid.rho2rhocube
                   (set_vedge precalc_init
                      (bin_edges [Fin 0; Fin 1] (Fin 1 - Fin 0)%fl))
                   (uniform 0) ones)
              = cube2 (Fin 2) (Fin 0)) by (apply tau_uniform_0; reflexivity).
  destruct (generate_pvd_shape NestedGrid.Nested3DGrid NestedGrid.ny
              NestedGrid.integrate_along NestedGrid.rho2rhocube self0 precalc_init
              ones (uniform 0) (Fin 1) None (Some (Fin 1)) (Fin 0)
              2%nat (Fin 0) (Fin 1) [])
    as (I_pv & st' & E & L & F).
  - reflexivity.
  - cbn [self0 grid grid0 precalc_init vedge NestedGrid.ny]. fold grid0.
    rewrite T. discriminate.
  - cbn [self0 grid grid0 precalc_init vedge NestedGrid.ny]. fold grid0.
    rewrite T. apply cube2_rect.
  - lia.
  - cbn. lia.
  - left. reflexivity.
  - left. cbn. lia.
  - exists I_pv, st'. split; [exact E | split].
    + rewrite L. cbn [self0 grid grid0 precalc_init vedge NestedGrid.ny]. fold grid0.
      rewrite T. reflexivity.
    + exact F.
Defined.

End ShapeExample.

(* ================================================================== *)
(** ** pvsilhouette: a fit result that cannot be written *)
(* ================================================================== *)

Section FitresFailure.
Import Py Text Pvsilhouette.
Local Open Scope string_scope.

Variable pyfloat : Type.
Variable nan : pyfloat.
Variable str_float : pyfloat -> string.
Variable float_of_string : string -> option pyfloat.

(** what [np.genfromtxt] finds in a file that holds the header line
    only. *)
Lemma genfromtxt_header :
  genfromtxt pyfloat nan float_of_string header = Ok [].
Proof. reflexivity. Qed.

(** X28.  [writeout_fitres] opens and truncates the file before it reads
    the result attributes: on an object that has [popt] but lacks [plow],
    [pmid] or [phigh] it raises [AttributeError] and leaves a file that
    holds the header line only, whatever the file held before; and
    [read_fitres] raises [ValueError] on that file (no column to
    unpack). *)
Theorem writeout_fitres_failure_leaves_header
    (self : PVSilhouette pyfloat) (po : ndarray pyfloat) (fout : string) (fs : files) :
  popt pyfloat self = Some po ->
  plow pyfloat self = None \/ pmid pyfloat self = None \/ phigh pyfloat self = None ->
  exists fs' : files,
    writeout_fitres pyfloat str_float self fout fs = ([], Raise AttributeError, fs') /\
    fs' (fout ++ ".txt") = Some header /\
    (forall p : string, p <> fout ++ ".txt" -> fs' p = fs p) /\
    forall other : PVSilhouette pyfloat,
      read_fitres pyfloat nan float_of_string other (fout ++ ".txt") fs'
      = Raise ValueError.
Proof.
  intros Hpo Hmiss.
  exists (write_file fs (fout ++ ".txt") header).
  assert (Hfile : write_file fs (fout ++ ".txt") header (fout ++ ".txt") = Some header).
  { unfold write_file. rewrite String.eqb_refl. reflexivity. }
  split; [| split; [exact Hfile | split]].
  - unfold writeout_fitres. rewrite Hpo.
    destruct (plow pyfloat self) as [pl |]; [| reflexivity].
    destruct (pmid pyfloat self) as [pm |]; [| reflexivity].
    destruct (phigh pyfloat self) as [ph |]; [| reflexivity].
    destruct Hmiss as [H | [H | H]]; discriminate H.
  - intros p Hp. unfold write_file.
    destruct (String.eqb p (fout ++ ".txt")) eqn:E; [| reflexivity].
    apply String.eqb_eq in E. contradiction.
  - intro other. unfold read_fitres. rewrite Hfile, genfromtxt_header. reflexivity.
Qed.

End FitresFailure.

Section FitresFailureWitness.
Import Py Text Pvsilhouette.
Local Open Scope string_scope.

Lemma writeout_fitres_failure_leaves_header_witness :
  exists fs' : files,
    writeout_fitres Z Examples.str_Z
      {| popt := Some (Array1 Z Examples.fit_popt);
         plow := Some (Array1 Z Examples.fit_plow);
         pmid := None;
         phigh := Some (Array1 Z Examples.fit_phigh) |}
      "fit" (fun _ => Some "old")
    = ([], Raise AttributeError, fs') /\
    fs' ("fit" ++ ".txt") = Some header /\
    (forall p : string, p <> "fit" ++ ".txt" -> fs' p = (fun _ => Some "old") p) /\
    forall other : PVSilhouette Z,
      read_fitres Z 0%Z Examples.Z_of_string other ("fit" ++ ".txt") fs'
      = Raise ValueError.
Proof.
  apply (writeout_fitres_failure_leaves_header Z 0%Z Examples.str_Z
           Examples.Z_of_string _ (Array1 Z Examples.fit_popt)).
  - reflexivity.
  - right; left; reflexivity.
Defined.

End FitresFailureWitness.

(* ================================================================== *)
(** ** mockpvd: what the spectral convolution does to a spectrum *)
(* ================================================================== *)

Section ConvFlux.
Import Py Np Mockpvd Bounds.

Lemma Rsum_zero (A : Type) (l : list A) : Axes.Rsum (map (fun _ => 0) l) = 0.
Proof.
  induction l as [| a l IH]; [reflexivity |].
  cbn [map Axes.Rsum fold_right]. fold (Axes.Rsum (map (fun _ : A => 0) l)).
  rewrite IH. ring.
Qed.

Lemma Rsum_plus (A : Type) (f h : A -> R) (l : list A) :
  Axes.Rsum (map (fun a => f a + h a) l) = Axes.Rsum (map f l) + Axes.Rsum (map h l).
Proof.
  induction l as [| a l IH]; cbn [map Axes.Rsum fold_right].
  - ring.
  - fold (Axes.Rsum (map (fun a => f a + h a) l)) (Axes.Rsum (map f l))
         (Axes.Rsum (map h l)).
    rewrite IH. ring.
Qed.

Lemma Rsum_mult_r (A : Type) (f : A -> R) (c : R) (l : list A) :
  Axes.Rsum (map (fun a => f a * c) l) = Axes.Rsum (map f l) * c.
Proof.
  induction l as [| a l IH]; cbn [map Axes.Rsum fold_right].
  - ring.
  - fold (Axes.Rsum (map (fun a => f a * c) l)) (Axes.Rsum (map f l)).
    rewrite IH. ring.
Qed.

Lemma Rsum_le (A : Type) (f h : A -> R) (l : list A) :
  (forall a, In a l -> f a <= h a) ->
  Axes.Rsum (map f l) <= Axes.Rsum (map h l).
Proof.
  induction l as [| a l IH]; intro H; cbn [map Axes.Rsum fold_right].
  - lra.
  - fold (Axes.Rsum (map f l)) (Axes.Rsum (map h l)).
    assert (f a <= h a) by (apply H; left; reflexivity).
    assert (Axes.Rsum (map f l) <= Axes.Rsum (map h l))
      by (apply IH; intros; apply H; right; assumption).
    lra.
Qed.

Lemma Rsum_nonneg (l : list R) : Forall nonneg l -> 0 <= Axes.Rsum l.
Proof.
  induction 1 as [| a l Ha _ IH]; cbn [Axes.Rsum fold_right]; [lra |].
  fold (Axes.Rsum l). unfold nonneg in Ha. lra.
Qed.

(** two nested sums may be taken in either order. *)
Lemma Rsum_swap (A B : Type) (f : A -> B -> R) (la : list A) (lb : list B) :
  Axes.Rsum (map (fun a => Axes.Rsum (map (f a) lb)) la)
  = Axes.Rsum (map (fun b => Axes.Rsum (map (fun a => f a b) la)) lb).
Proof.
  induction la as [| a la IH].
  - cbn [map Axes.Rsum fold_right]. symmetry. apply Rsum_zero.
  - cbn [map Axes.Rsum fold_right].
    fold (Axes.Rsum (map (fun a0 => Axes.Rsum (map (f a0) lb)) la)).
    rewrite IH.
    rewrite <- (Rsum_plus B (f a) (fun b => Axes.Rsum (map (fun a0 => f a0 b) la))).
    reflexivity.
Qed.

Lemma Rsum_nth_seq (l : list R) (N : nat) :
  (length l <= N)%nat -> Axes.Rsum (map (fun n => nth n l 0) (seq 0 N)) = Axes.Rsum l.
Proof.
  revert N. induction l as [| a l IH]; intros N H.
  - transitivity (Axes.Rsum (map (fun _ : nat => 0) (seq 0 N)));
      [| apply Rsum_zero].
    f_equal. apply map_ext. intros [| n]; reflexivity.
  - destruct N as [| N]; [cbn in H; lia |].
    cbn [seq map nth Axes.Rsum fold_right].
    rewrite <- seq_shift, map_map. cbn [nth].
    fold (Axes.Rsum (map (fun n => nth n l 0) (seq 0 N))) (Axes.Rsum l).
    rewrite IH by (cbn in H; lia). reflexivity.
Qed.

Lemma Rsum_shift (e N : nat) (f : nat -> R) :
  Axes.Rsum (map (fun n => if (e <=? n)%nat then f (n - e)%nat else 0) (seq 0 N))
  = Axes.Rsum (map f (seq 0 (N - e))).
Proof.
  induction N as [| N IH]; [reflexivity |].
  rewrite seq_S, map_app, Rsum_app, IH. cbn [map Nat.add Axes.Rsum fold_right].
  destruct (e <=? N)%nat eqn:E.
  - apply Nat.leb_le in E.
    replace (S N - e)%nat with (S (N - e)) by lia.
    rewrite seq_S, map_app, Rsum_app. cbn [map Nat.add Axes.Rsum fold_right]. reflexivity.
  - apply Nat.leb_gt in E.
    replace (S N - e)%nat with (N - e)%nat by lia. ring.
Qed.

Lemma Rsum_firstn_le (l : list R) (k : nat) :
  Forall nonneg l -> Axes.Rsum (firstn k l) <= Axes.Rsum l.
Proof.
  intro H. rewrite <- (firstn_skipn k l) at 2. rewrite Rsum_app.
  assert (0 <= Axes.Rsum (skipn k l)).
  { apply Rsum_nonneg. rewrite Forall_forall in *. intros x Hx. apply H.
    rewrite <- (firstn_skipn k l). apply in_or_app. right; exact Hx. }
  lra.
Qed.

Lemma Rsum_skipn_le (l : list R) (k : nat) :
  Forall nonneg l -> Axes.Rsum (skipn k l) <= Axes.Rsum l.
Proof.
  intro H. rewrite <- (firstn_skipn k l) at 2. rewrite Rsum_app.
  assert (0 <= Axes.Rsum (firstn k l)).
  { apply Rsum_nonneg. rewrite Forall_forall in *. intros x Hx. apply H.
    rewrite <- (firstn_skipn k l). apply in_or_app. left; exact Hx. }
  lra.
Qed.

(** the samples that one kernel weight meets add up to no more than the
    whole spectrum. *)
Lemma tapv_total (al : list R) (off k : nat) :
  Forall nonneg al ->
  Axes.Rsum (map (fun n => Axes.tapv al (n + off) k) (seq 0 (length al)))
  <= Axes.Rsum al.
Proof.
  intro H. destruct (Nat.le_gt_cases k off) as [L | L].
  - assert (E : map (fun n => Axes.tapv al (n + off) k) (seq 0 (length al))
                = map (fun n => nth n (skipn (off - k) al) 0) (seq 0 (length al))).
    { apply map_ext. intro n. unfold Axes.tapv.
      replace (k <=? n + off)%nat with true by (symmetry; apply Nat.leb_le; lia).
      rewrite nth_skipn'. f_equal. lia. }
    rewrite E, Rsum_nth_seq by (rewrite length_skipn; lia).
    apply Rsum_skipn_le; exact H.
  - assert (E : map (fun n => Axes.tapv al (n + off) k) (seq 0 (length al))
                = map (fun n => if (k - off <=? n)%nat
                                then nth (n - (k - off)) al 0 else 0)
                      (seq 0 (length al))).
    { apply map_ext. intro n. unfold Axes.tapv.
      destruct (k <=? n + off)%nat eqn:E1; destruct (k - off <=? n)%nat eqn:E2;
        try reflexivity.
      - f_equal. apply Nat.leb_le in E1. lia.
      - apply Nat.leb_le in E1. apply Nat.leb_gt in E2. lia.
      - apply Nat.leb_gt in E1. apply Nat.leb_le in E2. lia. }
    rewrite E, (Rsum_shift (k - off) (length al) (fun m => nth m al 0)).
    rewrite map_nth_seq_firstn by lia.
    apply Rsum_firstn_le; exact H.
Qed.

Lemma mapi_tabulate (A B : Type) (f : nat -> A -> B) (l : list A) (d : A) :
  mapi f l = map (fun i => f i (nth i l d)) (seq 0 (length l)).
Proof.
  apply (nth_ext _ _ (f 0%nat d) (f 0%nat d)).
  - rewrite length_mapi, length_map, length_seq. reflexivity.
  - intros n Hn. rewrite length_mapi in Hn.
    rewrite nth_tabulate by exact Hn.
    destruct (nth_error l n) as [x |] eqn:E.
    + apply nth_error_nth'. rewrite nth_error_mapi, E. cbn [option_map].
      rewrite (nth_error_nth' _ _ _ _ d E). reflexivity.
    + apply nth_error_None in E. lia.
Qed.

(** [conv_same_1d] on finite samples, in real numbers. *)
Lemma conv1d_real (al gl : list R) :
  conv_same_1d (map Fin al) (map Fin gl)
  = map Fin
      (map (fun n =>
              Axes.Rsum (map (fun k => Axes.tapv al (n + (length gl - 1) / 2) k
                                       * nth k gl 0)
                             (seq 0 (length gl))))
           (seq 0 (length al))).
Proof.
  unfold conv_same_1d. rewrite (mapi_tabulate _ _ _ _ NaN), !length_map, map_map.
  apply map_ext. intro n.
  set (m := (n + (length gl - 1) / 2)%nat).
  rewrite (mapi_tabulate _ _ _ _ (Fin 0)), length_map.
  unfold wsum. rewrite map_map. cbn [fst snd].
  rewrite <- fsum_Rsum, map_map. f_equal. apply map_ext. intro k.
  change (Fin 0) with (Fin (0 : R)) at 1. rewrite map_nth.
  unfold tap, Axes.tapv. destruct (k <=? m)%nat; [| apply f_equal; ring].
  rewrite nth_error_map.
  destruct (nth_error al (m - k)) as [x |] eqn:E; cbn [option_map].
  - rewrite (nth_error_nth' _ _ _ _ 0 E). reflexivity.
  - apply nth_error_None in E. rewrite nth_overflow by exact E.
    f_equal. ring.
Qed.

(** a convolution in 'same' mode with non-negative weights that sum to at
    most 1 never increases the total of a non-negative spectrum. *)
Lemma conv1d_never_gains (al gl : list R) :
  Forall nonneg al -> Forall nonneg gl -> Axes.Rsum gl <= 1 ->
  exists out : list R,
    conv_same_1d (map Fin al) (map Fin gl) = map Fin out /\
    0 <= Axes.Rsum out <= Axes.Rsum al.
Proof.
  intros Ha Hg Hw. eexists. split; [apply conv1d_real |].
  set (off := ((length gl - 1) / 2)%nat).
  assert (HA : 0 <= Axes.Rsum al) by (apply Rsum_nonneg; exact Ha).
  assert (Hgk : forall k, 0 <= nth k gl 0).
  { intro k. destruct (Nat.lt_ge_cases k (length gl)) as [L | L].
    - rewrite Forall_forall in Hg. apply Hg. apply nth_In; exact L.
    - rewrite nth_overflow by exact L. lra. }
  assert (Htap : forall m k, 0 <= Axes.tapv al m k).
  { intros m k. unfold Axes.tapv. destruct (k <=? m)%nat; [| lra].
    destruct (Nat.lt_ge_cases (m - k) (length al)) as [L | L].
    - rewrite Forall_forall in Ha. apply Ha. apply nth_In; exact L.
    - rewrite nth_overflow by exact L. lra. }
  split.
  - apply Rsum_nonneg. apply Forall_map. apply Forall_forall. intros n _.
    apply Rsum_nonneg. apply Forall_map. apply Forall_forall. intros k _.
    apply Rmult_le_pos; [apply Htap | apply Hgk].
  - rewrite (Rsum_swap nat nat (fun n k => Axes.tapv al (n + off) k * nth k gl 0)).
    apply Rle_trans with (Axes.Rsum (map (fun k => Axes.Rsum al * nth k gl 0)
                                         (seq 0 (length gl)))).
    + apply Rsum_le. intros k _.
      rewrite (Rsum_mult_r nat (fun n => Axes.tapv al (n + off) k)).
      apply Rmult_le_compat_r; [apply Hgk | apply tapv_total; exact Ha].
    + rewrite <- (map_map (fun k => nth k gl 0) (fun w => Axes.Rsum al * w)).
      assert (E : forall l : list R,
                 Axes.Rsum (map (fun w => Axes.Rsum al * w) l)
                 = Axes.Rsum al * Axes.Rsum l).
      { induction l as [| w l IH]; cbn [map Axes.Rsum fold_right]; [ring |].
        fold (Axes.Rsum (map (fun w0 => Axes.Rsum al * w0) l)) (Axes.Rsum l).
        rewrite IH. ring. }
      rewrite E, Rsum_nth_seq by lia.
      assert (Axes.Rsum al * Axes.Rsum gl <= Axes.Rsum al * 1)
        by (apply Rmult_le_compat_l; assumption).
      lra.
Qed.

(** on a rectangular cube the convolution along the first axis acts on
    every column by itself. *)
Lemma conv_axis0_column (n1 n2 : nat) (c : array3) (g : array1) (i j : nat) :
  rect3 n1 n2 c -> (i < n1)%nat -> (j < n2)%nat ->
  column (conv_same_axis0 c g) i j = conv_same_1d (column c i j) g.
Proof.
  intros Hr Hi Hj. apply (nth_ext _ _ NaN NaN).
  - unfold column, conv_same_axis0, conv_same_1d.
    rewrite !length_map, !length_mapi, length_map. reflexivity.
  - intros n Hn. unfold column at 1 in Hn. unfold column at 1.
    rewrite length_map in Hn. unfold conv_same_axis0 in Hn. rewrite length_mapi in Hn.
    destruct (nth_error c n) as [m |] eqn:En;
      [| apply nth_error_None in En; lia].
    destruct (rect3_lookup n1 n2 c m i j Hr (nth_error_In _ _ En) Hi Hj)
      as (row & x & Ei & Ej).
    apply nth_error_nth'. rewrite nth_error_map.
    unfold conv_same_axis0. rewrite nth_error_mapi, En. cbn [option_map].
    f_equal.
    apply (rect2_entry n1 n2 _ i j
             (mapi (fun j0 _ => nth n (conv_same_1d (column c i j0) g) NaN) row)).
    + rewrite nth_error_mapi, Ei. reflexivity.
    + rewrite nth_error_mapi, Ej. reflexivity.
Qed.

(** X29.  The spectral convolution never adds optical depth to a line of
    sight: on a rectangular, finite, non-negative cube and with a kernel of
    finite, non-negative weights whose sum is at most 1 (the normalised
    Gaussian), the total over the channels of every pixel after
    [convolve(tau_v, g, mode='same')] is finite, non-negative and at most
    the total before; what is lost is the weight that falls off the ends
    of the velocity axis. *)
Theorem spectral_convolution_never_gains
    (n1 n2 : nat) (c : array3) (g : array1) (W : R) (i j : nat) :
  rect3 n1 n2 c -> all3 (fin_where nonneg) c ->
  Forall (fin_where nonneg) g -> fsum g = Fin W -> W <= 1 ->
  (i < n1)%nat -> (j < n2)%nat ->
  exists before after : R,
    fsum (column c i j) = Fin before /\
    fsum (column (conv_same_axis0 c g) i j) = Fin after /\
    0 <= after <= before.
Proof.
  intros Hr Ha Hg HW HW1 Hi Hj.
  rewrite (conv_axis0_column n1 n2 c g i j Hr Hi Hj).
  pose proof (column_all _ n1 n2 c i j Hr Ha Hi Hj) as Hcol.
  destruct (all_fin_map _ _ Hcol) as (al & Eal & Hal).
  destruct (all_fin_map _ _ Hg) as (gl & Egl & Hgl).
  rewrite Eal, Egl in *. rewrite fsum_Rsum in HW. injection HW as HW.
  destruct (conv1d_never_gains al gl Hal Hgl) as (out & Eout & Hout); [lra |].
  exists (Axes.Rsum al), (Axes.Rsum out).
  rewrite Eout, !fsum_Rsum. repeat split; lra.
Qed.

Lemma spectral_convolution_never_gains_witness :
  exists before after : R,
    fsum (column Examples.tau_last_channel 0 0) = Fin before /\
    fsum (column (conv_same_axis0 Examples.tau_last_channel [Fin 0.5; Fin 0.5]) 0 0)
    = Fin after /\
    0 <= after <= before.
Proof.
  apply (spectral_convolution_never_gains 2 3 Examples.tau_last_channel
           [Fin 0.5; Fin 0.5] (0.5 + (0.5 + 0)) 0 0).
  - unfold Examples.tau_last_channel. repeat constructor.
  - unfold Examples.tau_last_channel, all3.
    repeat constructor; eexists; (split; [reflexivity | unfold nonneg; lra]).
  - repeat constructor; eexists; (split; [reflexivity | unfold nonneg; lra]).
  - reflexivity.
  - lra.
  - lia.
  - lia.
Defined.

End ConvFlux.

(* ================================================================== *)
(** ** UlrichEnvelope: the root at the centrifugal radius, in double
       precision *)
(* ================================================================== *)

Section UnitRadius.
Import SpecFloat Binary64.
Local Open Scope Z_scope.

(** [rsqrt_239] is the double next to [D_239 ^ (-1/2)]: with
    [rsqrt_239 = m 2^-51] and [D_239 = d 2^-55], the exact value lies
    between [(m - 1/2) 2^-51] and [(m + 1/2) 2^-51], that is
    [(2m - 1)^2 d < 2^159 < (2m + 1)^2 d]. *)
Lemma rsqrt_239_nearest :
  rsqrt_239 = S754_finite false 6164228419954566 (-51) /\
  D_239 = S754_finite false 4807860657558935 (-55) /\
  (2 * 6164228419954566 - 1) ^ 2 * 4807860657558935 < 2 ^ 159
  < (2 * 6164228419954566 + 1) ^ 2 * 4807860657558935.
Proof. repeat split; reflexivity. Qed.

(** a NaN operand makes the difference and the product NaN. *)
Lemma sub_nan_r (x : b64) : sub x S754_nan = S754_nan.
Proof. destruct x; reflexivity. Qed.

Lemma mul_nan_r (x : b64) : mul x S754_nan = S754_nan.
Proof. destruct x; reflexivity. Qed.

(** C10 (the defect).  At [radius = 1.0] and an angle whose cosine comes
    out as [cos_239] (as [theta = 2.39] does), with [D ** (-1/2)] for
    [D = D_239] coming out as the nearest double [rsqrt_239] and [pow] as
    the C standard has it: the product [q * D**(-1/2)] rounds to
    [1 + 2^-52], the base [1 - qD] of the second cube root is [-2^-52],
    its power [1/3] is NaN, and the entry [mu0] keeps the NaN, since
    neither of the other two masks selects the sample. *)
Theorem velrho_nan_at_unit_radius (lm : libm) (theta : b64) :
  m_cos lm theta = cos_239 ->
  m_pow lm D_239 neg_half = rsqrt_239 ->
  pow_standard lm ->
  mul q_239 rsqrt_239 = S754_finite false 4503599627370497 (-52) /\
  sub one (mul q_239 rsqrt_239) = S754_finite true 4503599627370496 (-104) /\
  velrho_mu0 lm one theta = S754_nan.
Proof.
  intros Hcos Hrsqrt [Hzero Hneg].
  split; [reflexivity | split; [reflexivity |]].
  unfold velrho_mu0. rewrite Hcos.
  change (clip_lo one eps) with one.
  change (clip (SFabs cos_239) eps one)
    with (S754_finite false 6580680734670493 (-53)).
  change (div (sub one one) three) with (S754_zero false).
  change (div (mul (S754_finite false 6580680734670493 (-53)) one) two) with q_239.
  cbv zeta.
  change (SFleb one one) with true.
  change (SFltb one one) with false.
  change (clip_lo (SFopp (S754_zero false)) zero) with (S754_zero true).
  rewrite !Hzero.
  change (add (mul q_239 q_239) (S754_zero false)) with D_239.
  change (sub (mul q_239 q_239) (S754_zero true)) with D_239.
  rewrite Hrsqrt.
  change (SFltb D_239 zero) with false.
  cbn [andb].
  change (sub one (mul q_239 rsqrt_239))
    with (S754_finite true 4503599627370496 (-104)).
  rewrite Hneg.
  rewrite sub_nan_r, mul_nan_r. reflexivity.
Qed.

Lemma velrho_nan_at_unit_radius_witness :
  mul q_239 rsqrt_239 = S754_finite false 4503599627370497 (-52) /\
  sub one (mul q_239 rsqrt_239) = S754_finite true 4503599627370496 (-104) /\
  velrho_mu0 libm_239 one theta_239 = S754_nan.
Proof.
  apply (velrho_nan_at_unit_radius libm_239 theta_239).
  - reflexivity.
  - reflexivity.
  - split.
    + intro s. reflexivity.
    + intros m e. reflexivity.
Defined.

End UnitRadius.
